(** * MiTradingBot: the Deriv client and the live trading session

    A shallow embedding of [deriv_websocket.py] (class [DerivAPI]), of
    [live_trader.py] (class [LiveTrader]), of [indicators.py] and of
    [trading_env.py], and the properties of the protocol client, of the
    trading session, of the indicators and of the training environment
    proved about it.

    Conventions of the embedding:
    - Python floats are read as exact rationals ([Q]); equality of amounts
      is [Qeq], written [==].  Where a float shows, it is a parameter:
      the way [round] takes a tie, the conversions [float] and
      [datetime.fromtimestamp] where they raise or depend on the local
      clock, the conversion to single precision, the square root.
    - A decoded message (a Python [dict] produced by [json.loads]) is a
      finite map from keys to JSON values.
    - The [asyncio.Queue] is the list of its items, head first.
    - What the background reader does while the consumer is suspended is
      given by a schedule: one batch of transport events per suspension.
    - Exceptions are results: a computation returns, raises, or blocks
      for ever on an empty queue that nobody fills.
    - What the client does to the queue and the transport, and what the
      session prints, is kept in logs, so that it can be spoken of. *)

From Stdlib Require Import ZArith QArith Qround Qabs Lqa Lia List String Bool.
From stdpp Require Import gmap strings list.

Open Scope Q_scope.

(* ================================================================== *)
(** * Part I: definitions                                              *)
(* ================================================================== *)

(** ** Numbers *)

(** Python's [a > b], [a >= b] and [a < b] on numbers. *)
Definition Qgtb (a b : Q) : bool := negb (Qle_bool a b).
Definition Qgeb (a b : Q) : bool := Qle_bool b a.
Definition Qltb (a b : Q) : bool := negb (Qle_bool b a).

(** Python's two-argument [min] and [max]: the first argument is kept
    unless the second is strictly smaller (resp. larger). *)
Definition py_min (a b : Q) : Q := if Qltb b a then b else a.
Definition py_max (a b : Q) : Q := if Qgtb b a then b else a.

(** ** JSON values and frames *)

(** A JSON value.  JSON objects, Python [dict]s, are finite maps. *)
#[warnings="-register-all"]
Inductive json : Type :=
  | JNull
  | JBool (b : bool)
  | JNum (q : Q)
  | JStr (s : string)
  | JList (l : list json)
  | JDict (d : gmap string json).

(** A decoded message: the [dict] that [json.loads] returns. *)
Abbreviation Frame := (gmap string json).

(** [k in data]. *)
Definition has_key (k : string) (data : Frame) : bool :=
  match data !! k with Some _ => true | None => false end.

(** [v[k]] for a JSON value [v] and a string key: the entry of a dict;
    [KeyError] on a missing key and [TypeError] on any other value are
    both [None]. *)
Definition subscript (v : json) (k : string) : option json :=
  match v with
  | JDict d => d !! k
  | _ => None
  end.

(** The truth value of a [dict] or [None]: an empty dict is false. *)
Definition truthy (o : option Frame) : bool :=
  match o with
  | Some d => negb (Nat.eqb (size d) 0)
  | None => false
  end.

(** ** Results of effectful code

    A computation over a state [S] returns a value, raises an exception,
    or blocks for ever.  Each result carries the state reached. *)

(** The exceptions the program distinguishes: [except Exception] catches
    the first kind (the string is [str(e)]) and lets [CancelledError]
    through. *)
Inductive exn : Type :=
  | Exception (msg : string)
  | CancelledError.

Inductive Outcome (S A : Type) : Type :=
  | Ret (a : A) (s : S)
  | Raise (e : exn) (s : S)
  | Blocked (s : S).
Arguments Ret {S A} a s.
Arguments Raise {S A} e s.
Arguments Blocked {S A} s.

Definition M (S A : Type) : Type := S -> Outcome S A.

Definition ret {S A} (a : A) : M S A := fun s => Ret a s.

Definition bind {S A B} (m : M S A) (k : A -> M S B) : M S B :=
  fun s =>
    match m s with
    | Ret a s' => k a s'
    | Raise e s' => Raise e s'
    | Blocked s' => Blocked s'
    end.

Definition raise {S A} (e : exn) : M S A := fun s => Raise e s.

(** [try: m except Exception as e: h e]. *)
Definition try_except {S A} (m : M S A) (h : string -> M S A) : M S A :=
  fun s =>
    match m s with
    | Raise (Exception msg) s' => h msg s'
    | r => r
    end.

(** A subscript or attribute access that fails raises. *)
Definition expect {S A} (msg : string) (o : option A) : M S A :=
  match o with
  | Some a => ret a
  | None => raise (Exception msg)
  end.

(** [try: m finally: h]: [h] runs however [m] leaves, and the result of
    [m] stands unless [h] itself raises or blocks.  A computation that
    blocks never reaches its [finally]. *)
Definition try_finally {S A} (m : M S A) (h : M S unit) : M S A :=
  fun s =>
    match m s with
    | Ret a s' => bind h (fun _ => ret a) s'
    | Raise e s' => bind h (fun _ => raise e) s'
    | Blocked s' => Blocked s'
    end.

Definition modify {S} (f : S -> S) : M S unit := fun s => Ret tt (f s).
Definition gets {S A} (f : S -> A) : M S A := fun s => Ret (f s) s.

(** The state an outcome carries. *)
Definition final {S A} (r : Outcome S A) : S :=
  match r with Ret _ s | Raise _ s | Blocked s => s end.

Declare Scope monad_scope.
Delimit Scope monad_scope with monad.
Notation "x <- m ;; k" := (bind m (fun x => k))
  (at level 100, m at next level, right associativity) : monad_scope.
Notation "m ;;; k" := (bind m (fun _ => k))
  (at level 100, right associativity) : monad_scope.

(** ** The client object ([DerivAPI.__init__]) *)

(** What [websocket.recv()] does when the reader task resumes: it
    delivers a raw message, raises (the transport failed; the string is
    [str(e)]), or raises [CancelledError] because the task was
    cancelled. *)
Inductive RecvEvent : Type :=
  | Message (raw : string)
  | Failure (reason : string)
  | Cancellation.

(** The transport: all the client needs of it is whether it still
    accepts a [send]. *)
Record WebSocket : Type := { ws_open : bool }.

(** The reader task: still running (suspended in [recv]) or finished. *)
Inductive Task : Type := TaskPending | TaskDone.

(** The async generator [_event_generator()]: created, or already
    started by a first [__anext__]. *)
Inductive AsyncGen : Type := GenCreated | GenStarted.

Record DerivAPI : Type := {
  websocket : option WebSocket;
  authorized : bool;
  _recv_queue : option (list Frame);
  events : option AsyncGen;
  _reader_task : option Task
}.

(** [DerivAPI()]. *)
Definition DerivAPI_init : DerivAPI :=
  {| websocket := None; authorized := false; _recv_queue := None;
     events := None; _reader_task := None |}.

(** What the client does to the outside, in order. *)
Inductive IOEvent : Type :=
  | Send (request : Frame)
  | Get (data : Frame)
  | Put (data : Frame)
  | Sleep
  | CancelTask
  | CloseSocket.

(** The client with its surroundings: the object, the batches of
    transport events the reader task will see at the coming suspensions
    of the consumer, and the log of what the client did. *)
Record Client : Type := {
  api : DerivAPI;
  inbound : list (list RecvEvent);
  io : list IOEvent
}.

(** Field updates. *)
Definition set_websocket (w : option WebSocket) (a : DerivAPI) : DerivAPI :=
  {| websocket := w; authorized := authorized a;
     _recv_queue := _recv_queue a; events := events a;
     _reader_task := _reader_task a |}.
Definition set_authorized (b : bool) (a : DerivAPI) : DerivAPI :=
  {| websocket := websocket a; authorized := b;
     _recv_queue := _recv_queue a; events := events a;
     _reader_task := _reader_task a |}.
Definition set_recv_queue (q : option (list Frame)) (a : DerivAPI) : DerivAPI :=
  {| websocket := websocket a; authorized := authorized a;
     _recv_queue := q; events := events a;
     _reader_task := _reader_task a |}.
Definition set_events (g : option AsyncGen) (a : DerivAPI) : DerivAPI :=
  {| websocket := websocket a; authorized := authorized a;
     _recv_queue := _recv_queue a; events := g;
     _reader_task := _reader_task a |}.
Definition set_reader_task (t : option Task) (a : DerivAPI) : DerivAPI :=
  {| websocket := websocket a; authorized := authorized a;
     _recv_queue := _recv_queue a; events := events a;
     _reader_task := t |}.

Definition on_api (f : DerivAPI -> DerivAPI) (c : Client) : Client :=
  {| api := f (api c); inbound := inbound c; io := io c |}.
Definition log (e : IOEvent) (c : Client) : Client :=
  {| api := api c; inbound := inbound c; io := io c ++ [e] |}.

(** The frames the consumer took off the queue, and those it put back,
    in order. *)
Definition popped (l : list IOEvent) : list Frame :=
  omap (fun e => match e with Get data => Some data | _ => None end) l.
Definition requeued (l : list IOEvent) : list Frame :=
  omap (fun e => match e with Put data => Some data | _ => None end) l.
Definition sent (l : list IOEvent) : list Frame :=
  omap (fun e => match e with Send request => Some request | _ => None end) l.

(** Frames lacking the awaited key. *)
Definition lacks (key : string) (data : Frame) : Prop :=
  has_key key data = false.

(** The popped frames that the loop of [buy_contract] puts back: those
    lacking the awaited key and having ["tick"]. *)
Definition put_back (key : string) (data : Frame) : bool :=
  negb (has_key key data) && has_key "tick" data.

Section Program.

Set Default Proof Using "Type*".

(** [json.loads]: [None] when it raises.  Messages that decode are taken
    to be JSON objects, as all messages of the venue are. *)
Variable json_loads : string -> option Frame.

(** [config.DERIV_API_TOKEN]. *)
Variable DERIV_API_TOKEN : string.

(** ** The background reader ([DerivAPI._read_loop]) *)

(** [if self._recv_queue is not None: await self._recv_queue.put(data)]. *)
Definition put_if_queue (data : Frame) (a : DerivAPI) : DerivAPI :=
  match _recv_queue a with
  | Some q => set_recv_queue (Some (q ++ [data])) a
  | None => a
  end.

(** [try: data = json.loads(raw) except Exception: data = {"raw": raw}]. *)
Definition decode (raw : string) : Frame :=
  match json_loads raw with
  | Some data => data
  | None => {[ "raw"%string := JStr raw ]}
  end.

(** The reader over the events its successive [recv()] calls meet.  The
    task is still pending when the events run out (it is suspended in
    [recv()]), and done when the coroutine has returned.  A transport
    failure leaves the transport closed. *)
Fixpoint _read_loop (evs : list RecvEvent) (a : DerivAPI) : DerivAPI * Task :=
  match websocket a with
  | None => (a, TaskDone)
  | Some _ =>
      match evs with
      | [] => (a, TaskPending)
      | Message raw :: evs' => _read_loop evs' (put_if_queue (decode raw) a)
      | Cancellation :: _ => (a, TaskDone)
      | Failure e :: _ =>
          (put_if_queue {[ "error"%string := JStr e ]}
             (set_websocket (Some {| ws_open := false |}) a), TaskDone)
      end
  end.

(** The reader task takes one turn, over the batch [b], if it is still
    pending. *)
Definition run_reader (b : list RecvEvent) (a : DerivAPI) : DerivAPI :=
  match _reader_task a with
  | Some TaskPending =>
      let (a', t) := _read_loop b a in set_reader_task (Some t) a'
  | _ => a
  end.

(** The consumer is suspended once: the reader, if it is running, takes
    the next batch; with no reader the transport keeps what arrives. *)
Definition suspend (c : Client) : Client :=
  match _reader_task (api c), inbound c with
  | Some TaskPending, b :: rest =>
      {| api := run_reader b (api c); inbound := rest; io := io c |}
  | _, _ => c
  end.

(** ** Queue and transport operations of the consumer *)

(** [await self._recv_queue.get()]: the head of the queue at once when
    there is one; otherwise the consumer stays suspended until the reader
    has put an item, for ever if the reader is gone or nothing more
    arrives. *)
Fixpoint wait_get (inb : list (list RecvEvent)) (a : DerivAPI)
    (l : list IOEvent) : Outcome Client Frame :=
  match _recv_queue a with
  | None =>
      Raise (Exception "AttributeError") {| api := a; inbound := inb; io := l |}
  | Some (data :: q) =>
      Ret data {| api := set_recv_queue (Some q) a; inbound := inb;
                  io := l ++ [Get data] |}
  | Some [] =>
      match inb, _reader_task a with
      | b :: inb', Some TaskPending => wait_get inb' (run_reader b a) l
      | _, _ => Blocked {| api := a; inbound := inb; io := l |}
      end
  end.

Definition queue_get : M Client Frame :=
  fun c => wait_get (inbound c) (api c) (io c).

(** [await self._recv_queue.put(data)] on the unbounded queue. *)
Definition queue_put (data : Frame) : M Client unit :=
  fun c =>
    match _recv_queue (api c) with
    | None => Raise (Exception "AttributeError") c
    | Some q =>
        Ret tt (log (Put data) (on_api (set_recv_queue (Some (q ++ [data]))) c))
    end.

(** [await asyncio.sleep(0.01)]. *)
Definition sleep : M Client unit :=
  fun c => Ret tt (suspend (log Sleep c)).

(** [await self.websocket.send(json.dumps(request))]. *)
Definition ws_send (request : Frame) : M Client unit :=
  fun c =>
    match websocket (api c) with
    | None => Raise (Exception "AttributeError") c
    | Some ws =>
        if ws_open ws then Ret tt (suspend (log (Send request) c))
        else Raise (Exception "ConnectionClosed") c
    end.

(** ** Placing an order ([DerivAPI.buy_contract]) *)

(** The loop both phases of [buy_contract] run, with the awaited key as
    its parameter:
<<
    for _ in range(attempts):
        data = await self._recv_queue.get()
        if key in data: found = data; break
        elif "tick" in data:
            await self._recv_queue.put(data)
            await asyncio.sleep(0.01)
>>
    [None] is the initial value the source's variable keeps when the
    loop ends without [break]. *)
Fixpoint await_key (key : string) (attempts : nat) : M Client (option Frame) :=
  match attempts with
  | O => ret None
  | S n =>
      (data <- queue_get ;;
       if has_key key data then ret (Some data)
       else if has_key "tick" data then
         (queue_put data ;;; sleep ;;; await_key key n)
       else await_key key n)%monad
  end.

Definition maxAttempts : nat := 10.

Definition proposal_request (symbol contract_type : string) (amount duration : Q)
    (duration_unit : string) : Frame :=
  <[ "proposal"%string := JNum 1 ]>
  (<[ "amount"%string := JNum amount ]>
  (<[ "basis"%string := JStr "stake" ]>
  (<[ "contract_type"%string := JStr contract_type ]>
  (<[ "currency"%string := JStr "USD" ]>
  (<[ "duration"%string := JNum duration ]>
  (<[ "duration_unit"%string := JStr duration_unit ]>
  {[ "symbol"%string := JStr symbol ]})))))).

Definition buy_request (proposal_id : json) (amount : Q) : Frame :=
  <[ "buy"%string := proposal_id ]> {[ "price"%string := JNum amount ]}.

(** The dict [buy_contract] returns from the [contract] entry of the
    reply; a missing key raises [KeyError]. *)
Definition contract_info (contract : json) : M Client Frame :=
  (contract_id <- expect "KeyError" (subscript contract "contract_id") ;;
   buy_price <- expect "KeyError" (subscript contract "buy_price") ;;
   payout <- expect "KeyError" (subscript contract "payout") ;;
   start_time <- expect "KeyError" (subscript contract "start_time") ;;
   let longcode := match subscript contract "longcode" with
                   | Some v => v
                   | None => JStr ""
                   end in
   ret (<[ "contract_id"%string := contract_id ]>
        (<[ "buy_price"%string := buy_price ]>
        (<[ "payout"%string := payout ]>
        (<[ "start_time"%string := start_time ]>
        {[ "longcode"%string := longcode ]})))))%monad.

(** Phase 1: the proposal request and the wait for its reply. *)
Definition quote (symbol contract_type : string) (amount duration : Q)
    (duration_unit : string) : M Client (option Frame) :=
  (ws_send (proposal_request symbol contract_type amount duration
              duration_unit) ;;;
   await_key "proposal" maxAttempts)%monad.

(** The request and the wait of phase 2. *)
Definition purchase (proposal_id : json) (amount : Q) : M Client (option Frame) :=
  (ws_send (buy_request proposal_id amount) ;;;
   await_key "buy" maxAttempts)%monad.

(** Phase 2, from the reply of phase 1 on. *)
Definition confirm (proposal : Frame) (amount : Q) : M Client (option Frame) :=
  (proposal_id <-
     expect "KeyError"
       (match proposal !! "proposal"%string with
        | Some v => subscript v "id"
        | None => None
        end) ;;
   buy_response <- purchase proposal_id amount ;;
   match buy_response with
   | None => ret None
   | Some buy_response =>
       if has_key "error" buy_response then ret None
       else
         match buy_response !! "buy"%string with
         | Some contract => (info <- contract_info contract ;; ret (Some info))
         | None => ret None
         end
   end)%monad.

Definition buy_contract (symbol contract_type : string) (amount duration : Q)
    (duration_unit : string) : M Client (option Frame) :=
  fun c =>
    match websocket (api c), _recv_queue (api c) with
    | None, _ => Ret None c
    | Some _, None => Ret None c
    | Some _, Some _ =>
        try_except
          (proposal <- quote symbol contract_type amount duration
                         duration_unit ;;
           match proposal with
           | None => ret None
           | Some proposal =>
               if has_key "error" proposal then ret None
               else if negb (has_key "proposal" proposal) then ret None
               else confirm proposal amount
           end)%monad
          (fun _ => ret None) c
    end.

(** ** Connecting, authorizing, subscribing, closing *)

(** [connect()]: [dial] is what [websockets.connect] yields, [None] when
    it raises. *)
Definition connect (dial : option WebSocket) : M Client bool :=
  fun c =>
    match dial with
    | Some ws => Ret true (on_api (set_websocket (Some ws)) c)
    | None => Ret false (on_api (set_websocket None) c)
    end.

(** A [recv()] made by the consumer itself: the next transport event. *)
Fixpoint next_event (inb : list (list RecvEvent))
    : option (RecvEvent * list (list RecvEvent)) :=
  match inb with
  | [] => None
  | [] :: inb' => next_event inb'
  | (e :: b) :: inb' => Some (e, b :: inb')
  end.

Definition ws_recv : M Client string :=
  fun c =>
    match websocket (api c) with
    | None => Raise (Exception "AttributeError") c
    | Some _ =>
        match next_event (inbound c) with
        | None => Blocked c
        | Some (ev, inb') =>
            let c' := {| api := api c; inbound := inb'; io := io c |} in
            match ev with
            | Message raw => Ret raw c'
            | Failure e =>
                Raise (Exception e)
                  (on_api (set_websocket (Some {| ws_open := false |})) c')
            | Cancellation => Raise CancelledError c'
            end
        end
    end.

Definition authorize : M Client bool :=
  fun c =>
    match websocket (api c) with
    | None => Ret false c
    | Some _ =>
        try_except
          (ws_send {[ "authorize"%string := JStr DERIV_API_TOKEN ]} ;;;
           response <- ws_recv ;;
           data <- expect "JSONDecodeError" (json_loads response) ;;
           match data !! "authorize"%string with
           | Some auth =>
               modify (on_api (set_authorized true)) ;;;
               match auth with
               | JDict _ => ret tt
               | _ => raise (Exception "AttributeError")
               end ;;;
               modify (on_api (fun a =>
                 match _recv_queue a with
                 | None => set_recv_queue (Some []) a
                 | Some _ => a
                 end)) ;;;
               modify (on_api (set_events (Some GenCreated))) ;;;
               modify (on_api (fun a =>
                 match _reader_task a with
                 | None => set_reader_task (Some TaskPending) a
                 | Some _ => a
                 end)) ;;;
               ret true
           | None => ret false
           end)%monad
          (fun _ => ret false) c
    end.

(** [subscribe(payload)] for a dict [payload]. *)
Definition subscribe (payload : Frame) : M Client bool :=
  fun c =>
    match websocket (api c) with
    | None => Ret false c
    | Some _ =>
        try_except
          (let tick_request :=
             if has_key "subscribe" payload then payload
             else <[ "subscribe"%string := JNum 1 ]> payload in
           ws_send tick_request ;;; ret true)%monad
          (fun _ => ret false) c
    end.

(** [close()].  Cancelling a pending reader makes its [recv()] raise
    [CancelledError], on which [_read_loop] returns; awaiting a task that
    is done returns at once.  [websocket.close()] does not raise. *)
Definition close : M Client unit :=
  fun c =>
    let c1 :=
      match websocket (api c) with
      | Some _ =>
          let c' :=
            match _reader_task (api c) with
            | Some _ => on_api (run_reader [Cancellation]) (log CancelTask c)
            | None => c
            end in
          log CloseSocket c'
      | None => c
      end in
    Ret tt
      (on_api (fun a =>
         set_authorized false
           (set_reader_task None
              (set_events None (set_recv_queue None (set_websocket None a)))))
         c1).

(** ** The feed ([DerivAPI._event_generator]) *)

(** One [__anext__] of the generator: its first run creates the queue if
    there is none; every run then waits for an item and yields it. *)
Definition _event_generator : M Client Frame :=
  fun c =>
    match events (api c) with
    | None => Raise (Exception "TypeError") c
    | Some GenCreated =>
        queue_get
          (on_api (fun a =>
             set_events (Some GenStarted)
               (match _recv_queue a with
                | None => set_recv_queue (Some []) a
                | Some _ => a
                end)) c)
    | Some GenStarted => queue_get c
    end.

(** ** The trader object ([LiveTrader.__init__]) *)

Inductive ContractType : Type := CALL | PUT.

Definition contract_type_str (t : ContractType) : string :=
  match t with CALL => "CALL" | PUT => "PUT" end.

(** The entries of the dict returned by [TechnicalIndicators.get_signals]
    that the trader reads. *)
Record Signals : Type := {
  rsi : Q;
  macd : Q;
  bb_position : string;
  volatility : Q;
  combined_signal : string;
  signal_strength : Z
}.

(** One row appended to [trade_history.csv] by [_save_trade]. *)
Record TradeRecord : Type := {
  tr_time : Q;
  tr_type : ContractType;
  tr_entry_price : Q;
  tr_exit_price : Q;
  tr_stake : Q;
  tr_won : bool;
  tr_profit : Q;
  tr_signals : Signals;
  tr_balance : Q
}.

(** The attributes of the trader that the session reads or writes
    ([model_path] and [model] are not among them, and [connection] is
    kept with the session below).  [position] holds the contract type of the open position;
    [notifier] tells whether there is one; [indicators] is the price
    window of the [TechnicalIndicators] object; [history_file] is the
    rows appended to the CSV file; [current_stake] and [entry_signals]
    do not exist before the first purchase.  Times are seconds on the
    local wall clock, as [datetime.fromtimestamp] gives them. *)
Record LiveTrader : Type := {
  initial_balance : Q;
  risk_percent : Q;
  balance : Q;
  position : option ContractType;
  entry_price : Q;
  entry_time : option Q;
  contract_id : option json;
  total_trades : nat;
  winning_trades : nat;
  losing_trades : nat;
  consecutive_losses : nat;
  notifier : bool;
  indicators : list Q;
  history_file : list TradeRecord;
  current_stake : option Q;
  entry_signals : option Signals
}.

(** [LiveTrader(model_path, initial_balance, risk_percent)]. *)
Definition LiveTrader_init (initial_balance risk_percent : Q) : LiveTrader :=
  {| initial_balance := initial_balance; risk_percent := risk_percent;
     balance := initial_balance; position := None; entry_price := 0;
     entry_time := None; contract_id := None; total_trades := 0;
     winning_trades := 0; losing_trades := 0; consecutive_losses := 0;
     notifier := false; indicators := []; history_file := [];
     current_stake := None; entry_signals := None |}.

(** ** Stake sizing ([LiveTrader.calculate_stake]) *)

(** [round(x, 2)] rounds the float that [x] stands for to the nearest
    multiple of 0.01.  Where [x * 100] lies halfway between the integers
    [f] and [f + 1], the float lies beside [x] (the float of
    [1000.5 * 0.01] is above 10.005) and its side decides the result,
    which the rationals do not show: [tie_rounds_up f] tells whether
    such a tie goes up. *)
Variable tie_rounds_up : Z -> bool.

Definition round_nearest (x : Q) : Z :=
  let f := Qfloor x in
  match Qcompare (x - inject_Z f) (1 # 2) with
  | Lt => f
  | Gt => (f + 1)%Z
  | Eq => if tie_rounds_up f then (f + 1)%Z else f
  end.

Definition round2 (x : Q) : Q := inject_Z (round_nearest (x * 100)) / 100.

Definition calculate_stake (self : LiveTrader) (volatility : Q)
    (signal_strength : Z) : Q :=
  let base_stake := balance self * (risk_percent self / 100) in
  let volatility_factor :=
    if Qgtb volatility (5 # 10) then 7 # 10
    else if Qgtb volatility (3 # 10) then 85 # 100
    else 1 in
  let signal_factor := if (3 <=? signal_strength)%Z then 13 # 10 else 1 in
  let loss_factor :=
    if (3 <=? consecutive_losses self)%nat then 5 # 10
    else if (2 <=? consecutive_losses self)%nat then 7 # 10
    else 1 in
  let stake := base_stake * volatility_factor * signal_factor * loss_factor in
  let min_stake := 10 in
  let max_stake := balance self * (5 # 100) in
  let stake := py_max min_stake (py_min stake max_stake) in
  round2 stake.

(** ** The sizing policy as the specification words it

    The tiers of the three factors; clamping to an interval: the
    nearest point of [[lo, hi]]; and rounding to 2 decimal places: a
    whole number of hundredths, none being nearer. *)

Definition minStake : Q := 10.
Definition maxStakeFraction : Q := 5 # 100.

Definition volatility_tier (volatility : Q) : Q :=
  if Qltb (5 # 10) volatility then 7 # 10
  else if Qltb (3 # 10) volatility then 85 # 100
  else 1.

Definition strength_tier (strong : bool) : Q :=
  if strong then 13 # 10 else 1.

Definition loss_tier (losses : nat) : Q :=
  match losses with
  | O | S O => 1
  | S (S O) => 7 # 10
  | _ => 5 # 10
  end.

Definition clamp (lo hi x : Q) : Q :=
  if Qltb x lo then lo else if Qltb hi x then hi else x.

(** The amount of the policy, before it is rounded. *)
Definition stake_policy (balance riskPercent volatility : Q) (strong : bool)
    (losses : nat) : Q :=
  let base := balance * riskPercent in
  clamp minStake (balance * maxStakeFraction)
    (base * volatility_tier volatility * strength_tier strong
     * loss_tier losses).

Definition rounded_to_cents (x r : Q) : Prop :=
  (exists k : Z, r == inject_Z k / 100) /\ Qabs (r - x) <= 1 # 200.

(** The product of the base and the three tiers, before clamping. *)
Definition raw_stake (self : LiveTrader) (volatility : Q)
    (signal_strength : Z) : Q :=
  balance self * (risk_percent self / 100) * volatility_tier volatility
  * strength_tier (3 <=? signal_strength)%Z
  * loss_tier (consecutive_losses self).

(** ** The session ([LiveTrader.run]) *)

(** What the session prints, notifies and reports. *)
Inductive Output : Type :=
  | Print (msg : string)
  | PrintStatus (price : Q) (signals : Signals)
  | PrintSignal (t : ContractType) (rsi : Q)
  | PrintExecuting (t : ContractType) (price stake : Q)
  | PrintContract (id : json)
  | NotifyOpened (t : ContractType) (stake : Q) (id : json)
  | PrintBuyFailed
  | PrintResult (won : bool) (amount : Q)
  | NotifyClosed (t : ContractType) (stake profit : Q)
  | PrintBalance (balance : Q)
  | PrintTimeUp
  | PrintError (msg : string)
  | PrintSummaryHeader (initial final : Q)
  | PrintSummary (pnl : Q) (trades wins losses : nat) (win_rate : option Q).

(** The trader with the locals of [run] and its surroundings:
    [connection] is [self.connection] together with the network behind
    it; [tick_count], [last_action_time] and [start_time] are the locals
    that [tick_callback] shares with [run]; [clock_reads] counts the
    calls of [datetime.now()]. *)
Record Session : Type := {
  self : LiveTrader;
  connection : Client;
  tick_count : nat;
  last_action_time : Q;
  start_time : Q;
  clock_reads : nat;
  stdout : list Output
}.

Definition set_self (t : LiveTrader) (s : Session) : Session :=
  {| self := t; connection := connection s; tick_count := tick_count s;
     last_action_time := last_action_time s; start_time := start_time s;
     clock_reads := clock_reads s; stdout := stdout s |}.
Definition set_connection (c : Client) (s : Session) : Session :=
  {| self := self s; connection := c; tick_count := tick_count s;
     last_action_time := last_action_time s; start_time := start_time s;
     clock_reads := clock_reads s; stdout := stdout s |}.
Definition set_tick_count (n : nat) (s : Session) : Session :=
  {| self := self s; connection := connection s; tick_count := n;
     last_action_time := last_action_time s; start_time := start_time s;
     clock_reads := clock_reads s; stdout := stdout s |}.
Definition set_last_action_time (t : Q) (s : Session) : Session :=
  {| self := self s; connection := connection s; tick_count := tick_count s;
     last_action_time := t; start_time := start_time s;
     clock_reads := clock_reads s; stdout := stdout s |}.
Definition set_start_time (t : Q) (s : Session) : Session :=
  {| self := self s; connection := connection s; tick_count := tick_count s;
     last_action_time := last_action_time s; start_time := t;
     clock_reads := clock_reads s; stdout := stdout s |}.
Definition set_clock_reads (n : nat) (s : Session) : Session :=
  {| self := self s; connection := connection s; tick_count := tick_count s;
     last_action_time := last_action_time s; start_time := start_time s;
     clock_reads := n; stdout := stdout s |}.
Definition print (o : Output) (s : Session) : Session :=
  {| self := self s; connection := connection s; tick_count := tick_count s;
     last_action_time := last_action_time s; start_time := start_time s;
     clock_reads := clock_reads s; stdout := stdout s ++ [o] |}.

(** A method of [self.connection] called from the session. *)
Definition on_connection {A} (m : M Client A) : M Session A :=
  fun s =>
    match m (connection s) with
    | Ret a c => Ret a (set_connection c s)
    | Raise e c => Raise e (set_connection c s)
    | Blocked c => Blocked (set_connection c s)
    end.

(** ** The surroundings of the session *)

(** The computation of the signals from the price window
    ([TechnicalIndicators.get_signals] after [add_price]); [float] on a
    string and on a number, [None] when it raises ([ValueError] on a
    string that is no number, [OverflowError] on an integer beyond the
    floats); [datetime.fromtimestamp] on a number, as seconds on the
    local wall clock, whose offset changes with the date, [None] when it
    raises (a time out of range); and [datetime.now()], in seconds, at
    its successive calls. *)
Variable compute_signals : list Q -> Signals.
Variable parse_float : string -> option Q.
Variable float_of_number : Q -> option Q.
Variable local_time : Q -> option Q.
Variable clock : nat -> Q.

Definition now : M Session Q :=
  fun s => Ret (clock (clock_reads s)) (set_clock_reads (S (clock_reads s)) s).

(** [float(v)]; [None] and containers raise [TypeError]. *)
Definition to_float (v : json) : option Q :=
  match v with
  | JNum q => float_of_number q
  | JBool b => Some (if b then 1 else 0)
  | JStr s => parse_float s
  | _ => None
  end.

(** [datetime.fromtimestamp(v)], a naive local time; anything but a
    number raises [TypeError]. *)
Definition fromtimestamp (v : json) : option Q :=
  match v with
  | JNum q => local_time q
  | JBool b => local_time (if b then 1 else 0)
  | _ => None
  end.

(** [self.indicators.add_price(price)] on the window of at most 50
    prices. *)
Definition add_price (price : Q) (prices : list Q) : list Q :=
  let l := prices ++ [price] in
  skipn (length l - 50) l.

(** Updates of the trader: the price window; the notifier; the
    assignments on a purchase; the account on a settlement of
    [profit_amount]; a row appended to the history file; the reset after
    a settlement. *)
Definition set_indicators (prices : list Q) (t : LiveTrader) : LiveTrader :=
  {| initial_balance := initial_balance t; risk_percent := risk_percent t;
     balance := balance t; position := position t;
     entry_price := entry_price t; entry_time := entry_time t;
     contract_id := contract_id t; total_trades := total_trades t;
     winning_trades := winning_trades t; losing_trades := losing_trades t;
     consecutive_losses := consecutive_losses t; notifier := notifier t;
     indicators := prices; history_file := history_file t;
     current_stake := current_stake t; entry_signals := entry_signals t |}.

Definition set_notifier (b : bool) (t : LiveTrader) : LiveTrader :=
  {| initial_balance := initial_balance t; risk_percent := risk_percent t;
     balance := balance t; position := position t;
     entry_price := entry_price t; entry_time := entry_time t;
     contract_id := contract_id t; total_trades := total_trades t;
     winning_trades := winning_trades t; losing_trades := losing_trades t;
     consecutive_losses := consecutive_losses t; notifier := b;
     indicators := indicators t; history_file := history_file t;
     current_stake := current_stake t; entry_signals := entry_signals t |}.

Definition open_position (contract_type : ContractType)
    (current_price tick_time : Q) (id : json) (stake : Q) (signals : Signals)
    (t : LiveTrader) : LiveTrader :=
  {| initial_balance := initial_balance t; risk_percent := risk_percent t;
     balance := balance t; position := Some contract_type;
     entry_price := current_price; entry_time := Some tick_time;
     contract_id := Some id; total_trades := total_trades t;
     winning_trades := winning_trades t; losing_trades := losing_trades t;
     consecutive_losses := consecutive_losses t; notifier := notifier t;
     indicators := indicators t; history_file := history_file t;
     current_stake := Some stake; entry_signals := Some signals |}.

Definition book_result (profit_amount : Q) (t : LiveTrader) : LiveTrader :=
  let won := Qgtb profit_amount 0 in
  {| initial_balance := initial_balance t; risk_percent := risk_percent t;
     balance := balance t + profit_amount; position := position t;
     entry_price := entry_price t; entry_time := entry_time t;
     contract_id := contract_id t; total_trades := S (total_trades t);
     winning_trades := if won then S (winning_trades t) else winning_trades t;
     losing_trades := if won then losing_trades t else S (losing_trades t);
     consecutive_losses := if won then O else S (consecutive_losses t);
     notifier := notifier t; indicators := indicators t;
     history_file := history_file t; current_stake := current_stake t;
     entry_signals := entry_signals t |}.

Definition _save_trade (row : TradeRecord) (t : LiveTrader) : LiveTrader :=
  {| initial_balance := initial_balance t; risk_percent := risk_percent t;
     balance := balance t; position := position t;
     entry_price := entry_price t; entry_time := entry_time t;
     contract_id := contract_id t; total_trades := total_trades t;
     winning_trades := winning_trades t; losing_trades := losing_trades t;
     consecutive_losses := consecutive_losses t; notifier := notifier t;
     indicators := indicators t; history_file := history_file t ++ [row];
     current_stake := current_stake t; entry_signals := entry_signals t |}.

Definition reset_position (t : LiveTrader) : LiveTrader :=
  {| initial_balance := initial_balance t; risk_percent := risk_percent t;
     balance := balance t; position := None; entry_price := 0;
     entry_time := None; contract_id := None;
     total_trades := total_trades t; winning_trades := winning_trades t;
     losing_trades := losing_trades t;
     consecutive_losses := consecutive_losses t; notifier := notifier t;
     indicators := indicators t; history_file := history_file t;
     current_stake := current_stake t; entry_signals := entry_signals t |}.

Definition on_self (f : LiveTrader -> LiveTrader) (s : Session) : Session :=
  set_self (f (self s)) s.

(** [self.indicators.get_signals(current_price)]. *)
Definition get_signals (current_price : Q) : M Session Signals :=
  fun s =>
    let prices := add_price current_price (indicators (self s)) in
    Ret (compute_signals prices) (on_self (set_indicators prices) s).

(** [if self.notifier: await self.notifier.send_...(...)]: the
    notifier catches its own transport errors, and the consumer is
    suspended while it sends. *)
Definition notify (o : Output) : M Session unit :=
  fun s =>
    if notifier (self s)
    then Ret tt (set_connection (suspend (connection s)) (print o s))
    else Ret tt s.

(** The entry branch of [tick_callback], once a signal has chosen
    [contract_type]. *)
Definition enter (symbol : string) (contract_type : ContractType)
    (current_price tick_time : Q) (signals : Signals) : M Session unit :=
  (stake <- gets (fun s => calculate_stake (self s) (volatility signals) 3) ;;
   modify (print (PrintExecuting contract_type current_price stake)) ;;;
   contract <- on_connection
     (buy_contract symbol (contract_type_str contract_type) stake 15 "s") ;;
   if truthy contract then
     id <- expect "KeyError"
             (match contract with
              | Some d => d !! "contract_id"%string
              | None => None
              end) ;;
     modify (on_self (open_position contract_type current_price tick_time id
                        stake signals)) ;;;
     t <- now ;;
     modify (set_last_action_time t) ;;;
     modify (print (PrintContract id)) ;;;
     notify (NotifyOpened contract_type stake id)
   else modify (print PrintBuyFailed))%monad.

(** The closing branch of [tick_callback], once the position, of type
    [contract_type], has been held for more than 20 seconds.  The
    notifier divides the profit by the stake. *)
Definition settle (contract_type : ContractType) (current_price tick_time : Q)
    : M Session unit :=
  (t <- gets self ;;
   let price_change := current_price - entry_price t in
   let pnl :=
     match contract_type with
     | CALL => price_change
     | PUT => - price_change
     end in
   if Qeq_bool (entry_price t) 0 then raise (Exception "ZeroDivisionError")
   else
     let profit_percent := (pnl / entry_price t) * 100 in
     stake <- expect "AttributeError" (current_stake t) ;;
     let profit_amount :=
       if Qgtb profit_percent 0 then stake * (95 # 100) else - stake in
     let won := Qgtb profit_amount 0 in
     modify (on_self (book_result profit_amount)) ;;;
     modify (print (PrintResult won (Qabs profit_amount))) ;;;
     sig <- expect "AttributeError" (entry_signals t) ;;
     modify (on_self (_save_trade
       {| tr_time := tick_time; tr_type := contract_type;
          tr_entry_price := entry_price t; tr_exit_price := current_price;
          tr_stake := stake; tr_won := won; tr_profit := profit_amount;
          tr_signals := sig; tr_balance := balance t + profit_amount |})) ;;;
     (if Qeq_bool stake 0 && notifier t
      then raise (Exception "ZeroDivisionError")
      else notify (NotifyClosed contract_type stake profit_amount)) ;;;
     modify (on_self reset_position) ;;;
     b <- gets (fun s => balance (self s)) ;;
     modify (print (PrintBalance b)))%monad.

(** The first part of [tick_callback]: the tick is counted and read, the
    signals are computed, and every tenth tick is reported. *)
Definition read_tick (response : Frame) : M Session (Q * Q * Signals) :=
  (modify (fun s => set_tick_count (S (tick_count s)) s) ;;;
   tick <- expect "KeyError" (response !! "tick"%string) ;;
   quote <- expect "KeyError" (subscript tick "quote") ;;
   current_price <- expect "ValueError" (to_float quote) ;;
   epoch <- expect "KeyError" (subscript tick "epoch") ;;
   tick_time <- expect "TypeError" (fromtimestamp epoch) ;;
   signals <- get_signals current_price ;;
   n <- gets tick_count ;;
   (if (n mod 10 =? 0)%nat
    then (_ <- now ;; modify (print (PrintStatus current_price signals)))
    else ret tt) ;;;
   ret (current_price, tick_time, signals))%monad.

(** The trading logic of [tick_callback]: an entry when no position is
    open and the last action is more than 25 seconds old, a settlement
    when the open position is more than 20 seconds old. *)
Definition trade (symbol : string) (current_price tick_time : Q)
    (signals : Signals) : M Session unit :=
  (t <- now ;;
   last <- gets last_action_time ;;
   let time_since_last := t - last in
   pos <- gets (fun s => position (self s)) ;;
   match pos with
   | None =>
       if Qgtb time_since_last 25 then
         let contract_type :=
           if Qltb (rsi signals) 30 then Some CALL
           else if Qgtb (rsi signals) 70 then Some PUT
           else None in
         match contract_type with
         | Some ct =>
             modify (print (PrintSignal ct (rsi signals))) ;;;
             enter symbol ct current_price tick_time signals
         | None => ret tt
         end
       else ret tt
   | Some ty =>
       entry <- gets (fun s => entry_time (self s)) ;;
       entry <- expect "TypeError" entry ;;
       let time_in_trade := tick_time - entry in
       if Qgtb time_in_trade 20 then settle ty current_price tick_time
       else ret tt
   end)%monad.

(** The last part of [tick_callback]: whether the session has lasted
    [duration_minutes]. *)
Definition time_up (duration_minutes : Q) : M Session bool :=
  (t <- now ;;
   start <- gets start_time ;;
   let elapsed_minutes := (t - start) / 60 in
   if Qgeb elapsed_minutes duration_minutes
   then (modify (print PrintTimeUp) ;;; ret true)
   else ret false)%monad.

Definition tick_callback (symbol : string) (duration_minutes : Q)
    (response : Frame) : M Session bool :=
  if negb (truthy (Some response)) || negb (has_key "tick" response)
  then ret false
  else
    (tick <- read_tick response ;;
     let '(current_price, tick_time, signals) := tick in
     trade symbol current_price tick_time signals ;;;
     time_up duration_minutes)%monad.

(** ** The main loop and the final report *)

(** The frames the consumer can still be given: those queued and those
    the transport will deliver. *)
Definition queued (a : DerivAPI) : nat :=
  match _recv_queue a with
  | Some q => length q
  | None => O
  end.

Definition supply (c : Client) : nat :=
  (queued (api c) + length (concat (inbound c)))%nat.

(** [async for response in self.connection.events: ...].  Every turn
    takes a frame off the supply, so [fuel] beyond the supply is never
    used up. *)
Fixpoint events_loop (symbol : string) (duration_minutes : Q) (fuel : nat)
    : M Session unit :=
  match fuel with
  | O => fun s => Blocked s
  | S n =>
      (response <- on_connection _event_generator ;;
       should_stop <- tick_callback symbol duration_minutes response ;;
       if should_stop then ret tt
       else events_loop symbol duration_minutes n)%monad
  end.

(** The report of the [finally] clause. *)
Definition print_summary : M Session unit :=
  fun s =>
    let t := self s in
    let s1 := print (PrintSummaryHeader (initial_balance t) (balance t)) s in
    let pnl := balance t - initial_balance t in
    if Qeq_bool (initial_balance t) 0
    then Raise (Exception "ZeroDivisionError") s1
    else
      let win_rate :=
        if (0 <? total_trades t)%nat
        then Some (inject_Z (Z.of_nat (winning_trades t))
                   / inject_Z (Z.of_nat (total_trades t)) * 100)
        else None in
      Ret tt
        (print (PrintSummary pnl (total_trades t) (winning_trades t)
                  (losing_trades t) win_rate) s1).

(** The body of the [try] of [run]; a [return] in its middle ends it. *)
Definition session_body (symbol : string) (duration_minutes : Q)
    : M Session unit :=
  (ok <- on_connection (subscribe {[ "ticks"%string := JStr symbol ]}) ;;
   if negb ok then
     modify (print (Print "subscription failed")) ;;;
     on_connection close
   else
     t0 <- now ;;
     modify (set_start_time t0) ;;;
     modify (set_tick_count O) ;;;
     t1 <- now ;;
     modify (set_last_action_time t1) ;;;
     ev <- gets (fun s => events (api (connection s))) ;;
     match ev with
     | None =>
         modify (print (Print "events is None")) ;;;
         on_connection close
     | Some _ =>
         s <- gets (fun s => s) ;;
         events_loop symbol duration_minutes (S (supply (connection s)))
     end)%monad.

(** The [try] statement of [run]: the body, the handler that reports an
    exception, and the [finally] clause that closes and reports. *)
Definition guarded_session (symbol : string) (duration_minutes : Q)
    : M Session unit :=
  try_finally
    (try_except (session_body symbol duration_minutes)
       (fun e => modify (print (PrintError e))))
    (on_connection close ;;; print_summary)%monad.

(** [run(symbol, duration_minutes)]: [model_ok] and [telegram_ok] tell
    whether loading the model and creating the notifier succeed, [dial]
    is the transport [websockets.connect] yields. *)
Definition run (symbol : string) (duration_minutes : Q)
    (model_ok telegram_ok : bool) (dial : option WebSocket) : M Session unit :=
  ((if model_ok then ret tt else raise (Exception "FileNotFoundError")) ;;;
  modify (on_self (set_notifier telegram_ok)) ;;;
  modify (fun s =>
    set_connection
      {| api := DerivAPI_init; inbound := inbound (connection s);
         io := io (connection s) |} s) ;;;
  connected <- on_connection (connect dial) ;;
  if negb connected then modify (print (Print "could not connect"))
  else
    authorized <- on_connection authorize ;;
    if negb authorized then
      modify (print (Print "could not authorize")) ;;;
      on_connection close
    else guarded_session symbol duration_minutes)%monad.

(** ** The other methods of the client *)

(** The argument of [subscribe]: a symbol or a request. *)
Inductive Payload : Type :=
  | Symbol (symbol : string)
  | Request (request : Frame).

(** [subscribe(payload)], for both kinds of [payload]. *)
Definition subscribe_payload (payload : Payload) : M Client bool :=
  fun c =>
    match websocket (api c) with
    | None => Ret false c
    | Some _ =>
        try_except
          (let tick_request :=
             match payload with
             | Request request => request
             | Symbol symbol =>
                 <[ "ticks"%string := JStr symbol ]>
                 {[ "subscribe"%string := JNum 1 ]}
             end in
           let tick_request :=
             if has_key "subscribe" tick_request then tick_request
             else <[ "subscribe"%string := JNum 1 ]> tick_request in
           ws_send tick_request ;;; ret true)%monad
          (fun _ => ret false) c
    end.

(** The dict [get_next_tick] makes of a frame. *)
Definition tick_summary (data : Frame) : M Client (option Frame) :=
  match data !! "tick"%string with
  | Some tick =>
      (price <- expect "KeyError" (subscript tick "quote") ;;
       time <- expect "KeyError" (subscript tick "epoch") ;;
       ret (Some (<[ "price"%string := price ]>
                  (<[ "time"%string := time ]>
                  {[ "raw"%string := JDict data ]}))))%monad
  | None => ret (Some {[ "raw"%string := JDict data ]})
  end.

(** [get_next_tick()]. *)
Definition get_next_tick : M Client (option Frame) :=
  try_except
    (fun c =>
       match _recv_queue (api c), websocket (api c) with
       | Some _, _ => (data <- queue_get ;; tick_summary data)%monad c
       | None, None => Ret None c
       | None, Some _ =>
           (response <- ws_recv ;;
            data <- expect "JSONDecodeError" (json_loads response) ;;
            tick_summary data)%monad c
       end)
    (fun _ => ret None).

(** What [get_ticks] and [test_connection] print: a tick, with its
    number, quote and epoch, or the message on which one of the two
    ends, without the sign in front of it.  The two headings of
    [test_connection] and the lines that the methods of the client
    print themselves are left out. *)
Inductive Line : Type :=
  | TickLine (i : nat) (quote epoch : json)
  | Said (msg : string).

(** The client with the lines printed. *)
Record Console : Type := {
  client : Client;
  lines : list Line
}.

Definition on_client {A} (m : M Client A) : M Console A :=
  fun s =>
    match m (client s) with
    | Ret a c => Ret a {| client := c; lines := lines s |}
    | Raise e c => Raise e {| client := c; lines := lines s |}
    | Blocked c => Blocked {| client := c; lines := lines s |}
    end.

Definition say (l : Line) : M Console unit :=
  modify (fun s => {| client := client s; lines := lines s ++ [l] |}).

(** The loop of [get_ticks], at its turn [i] with [n] turns to go: a
    frame from the queue, or from the transport when there is no queue;
    a tick is printed with the number of the turn. *)
Fixpoint ticks_loop (i n : nat) : M Console unit :=
  match n with
  | O => ret tt
  | S n' =>
      (c <- gets client ;;
       match _recv_queue (api c), websocket (api c) with
       | None, None => say (Said "WebSocket no inicializado en get_ticks()")
       | queue, _ =>
           data <- on_client
                     match queue with
                     | Some _ => queue_get
                     | None =>
                         response <- ws_recv ;;
                         expect "JSONDecodeError" (json_loads response)
                     end ;;
           match data !! "tick"%string with
           | Some tick =>
               quote <- expect "KeyError" (subscript tick "quote") ;;
               epoch <- expect "KeyError" (subscript tick "epoch") ;;
               say (TickLine (S i) quote epoch)
           | None => ret tt
           end ;;;
           ticks_loop (S i) n'
       end)%monad
  end.

(** [get_ticks(symbol)]. *)
Definition get_ticks (symbol : string) : M Console unit :=
  try_except
    (ok <- on_client (subscribe_payload (Symbol symbol)) ;;
     if negb ok then ret tt else ticks_loop 0 5)%monad
    (fun e => say (Said ("Error obteniendo ticks: " ++ e))).

(** [test_connection()]; [dial] as for [connect]. *)
Definition test_connection (dial : option WebSocket) : M Console unit :=
  (modify (fun s =>
     {| client := {| api := DerivAPI_init; inbound := inbound (client s);
                     io := io (client s) |};
        lines := lines s |}) ;;;
   connected <- on_client (connect dial) ;;
   if negb connected then say (Said "No se pudo conectar")
   else
     authorized <- on_client authorize ;;
     if negb authorized then say (Said "No se pudo autorizar")
     else
       get_ticks "R_75" ;;;
       on_client close ;;;
       say (Said "Prueba completada exitosamente!"))%monad.

(** ** The indicators ([indicators.TechnicalIndicators])

    The object is its window of prices, [self.prices], a [deque] of at
    most [window_size] = 50 items, to which [add_price] above appends.
    Each method is a function of that window. *)

(** [np.sqrt], on which [np.std] rests; the rationals have no square
    roots, so it is kept as it comes. *)
Variable np_sqrt : Q -> Q.

(** [np.diff(a)]. *)
Fixpoint np_diff (a : list Q) : list Q :=
  match a with
  | x :: ((y :: _) as rest) => (y - x) :: np_diff rest
  | _ => []
  end.

(** [np.mean(a)] and [np.std(a)], on an array that is not empty; of an
    empty one numpy gives [nan]. *)
Definition np_sum (a : list Q) : Q := fold_right Qplus 0 a.

Definition np_mean (a : list Q) : Q :=
  np_sum a / inject_Z (Z.of_nat (length a)).

Definition np_std (a : list Q) : Q :=
  let mean := np_mean a in
  np_sqrt (np_mean (map (fun x => (x - mean) * (x - mean)) a)).

(** [a[-n:]]: the last [n] items, all of them when there are fewer;
    [a[-0:]] is [a]. *)
Definition py_last {A} (n : nat) (a : list A) : list A :=
  match n with
  | O => a
  | _ => skipn (length a - n) a
  end.

(** [calculate_rsi(period)]. *)
Definition calculate_rsi (prices : list Q) (period : nat) : Q :=
  if (length prices <? period + 1)%nat then 50
  else
    let deltas := np_diff prices in
    let gains := map (fun d => if Qgtb d 0 then d else 0) deltas in
    let losses := map (fun d => if Qltb d 0 then - d else 0) deltas in
    let avg_gain := np_mean (py_last period gains) in
    let avg_loss := np_mean (py_last period losses) in
    if Qeq_bool avg_loss 0 then 100
    else
      let rs := avg_gain / avg_loss in
      100 - 100 / (1 + rs).

(** [_calculate_ema(data, period)]. *)
Definition _calculate_ema (data : list Q) (period : nat) : Q :=
  if (length data <? period)%nat then np_mean data
  else
    let multiplier := 2 / inject_Z (Z.of_nat (period + 1)) in
    fold_left (fun ema price => (price - ema) * multiplier + ema)
      (skipn period data) (np_mean (firstn period data)).

(** [calculate_macd(fast, slow, signal)]: the line, the signal line and
    the histogram. *)
Definition calculate_macd (prices : list Q) (fast slow signal : nat)
    : Q * Q * Q :=
  if (length prices <? slow)%nat then (0, 0, 0)
  else
    let ema_fast := _calculate_ema prices fast in
    let ema_slow := _calculate_ema prices slow in
    let macd_line := ema_fast - ema_slow in
    let signal_line := 0 in
    let histogram := macd_line - signal_line in
    (macd_line, signal_line, histogram).

(** [calculate_bollinger_bands(period, std_dev)]: the middle, the upper
    and the lower band. *)
Definition calculate_bollinger_bands (prices : list Q) (period : nat)
    (std_dev : Q) : Q * Q * Q :=
  if (length prices <? period)%nat then
    let current_price := List.last prices 0 in
    (current_price, current_price, current_price)
  else
    let prices_array := py_last period prices in
    let middle_band := np_mean prices_array in
    let std := np_std prices_array in
    let upper_band := middle_band + std_dev * std in
    let lower_band := middle_band - std_dev * std in
    (middle_band, upper_band, lower_band).

(** [calculate_volatility(period)], on prices other than zero. *)
Definition calculate_volatility (prices : list Q) (period : nat) : Q :=
  if (length prices <? period)%nat then 0
  else
    let prices_array := py_last period prices in
    let returns :=
      zip_with Qdiv (np_diff prices_array) (removelast prices_array) in
    np_std returns * 100.

(** The dict that [get_signals] returns. *)
Record SignalsDict : Type := {
  d_rsi : Q;
  d_rsi_signal : string;
  d_macd : Q;
  d_macd_signal : string;
  d_bb_position : string;
  d_bb_signal : string;
  d_volatility : Q;
  d_bb_middle : Q;
  d_bb_upper : Q;
  d_bb_lower : Q;
  d_combined_signal : string;
  d_signal_strength : Z
}.

(** [get_signals(current_price)], after its [add_price]: [prices] is the
    window that holds [current_price] already. *)
Definition signals_dict (current_price : Q) (prices : list Q) : SignalsDict :=
  let rsi := calculate_rsi prices 14 in
  let '(macd_line, signal_line, histogram) := calculate_macd prices 12 26 9 in
  let '(middle_bb, upper_bb, lower_bb) :=
    calculate_bollinger_bands prices 20 2 in
  let volatility := calculate_volatility prices 20 in
  {| d_rsi := rsi;
     d_rsi_signal :=
       if Qltb rsi 35 then "CALL" else if Qgtb rsi 65 then "PUT" else "NEUTRAL";
     d_macd := histogram;
     d_macd_signal :=
       if Qgtb histogram 0 then "CALL"
       else if Qltb histogram 0 then "PUT" else "NEUTRAL";
     d_bb_position :=
       if Qle_bool current_price lower_bb then "LOWER"
       else if Qgeb current_price upper_bb then "UPPER" else "MIDDLE";
     d_bb_signal :=
       if Qle_bool current_price lower_bb then "CALL"
       else if Qgeb current_price upper_bb then "PUT" else "NEUTRAL";
     d_volatility := volatility;
     d_bb_middle := middle_bb;
     d_bb_upper := upper_bb;
     d_bb_lower := lower_bb;
     d_combined_signal := "NEUTRAL";
     d_signal_strength := 0 |}.

(** [get_signals(current_price)] on the window [prices]: the dict and
    the window it leaves. *)
Definition TechnicalIndicators_get_signals (current_price : Q)
    (prices : list Q) : SignalsDict * list Q :=
  let prices' := add_price current_price prices in
  (signals_dict current_price prices', prices').

(** The entries that the trader reads. *)
Definition read_signals (d : SignalsDict) : Signals :=
  {| rsi := d_rsi d; macd := d_macd d; bb_position := d_bb_position d;
     volatility := d_volatility d; combined_signal := d_combined_signal d;
     signal_strength := d_signal_strength d |}.

(** The signals of the session when its indicators are those of
    [indicators.py]: the price just added is the last of the window. *)
Definition indicator_signals (prices : list Q) : Signals :=
  read_signals (signals_dict (List.last prices 0) prices).

(** ** The training environment ([trading_env.TradingEnv])

    Of the data frame the environment reads the column ['price'] only:
    [df] is that column.  The fields that the trader has too take the
    prefix [env_]. *)

Record TradingEnv : Type := {
  df : list Q;
  env_initial_balance : Q;
  stake_amount : Q;
  current_step : nat;
  env_balance : Q;
  env_position : option ContractType;
  env_entry_price : Q;
  position_steps : nat;
  env_total_trades : nat;
  env_winning_trades : nat;
  env_losing_trades : nat;
  total_profit : Q;
  consecutive_wins : nat;
  env_consecutive_losses : nat
}.

(** [TradingEnv(df, initial_balance, stake_amount)]. *)
Definition TradingEnv_init (df : list Q) (initial_balance stake_amount : Q)
    : TradingEnv :=
  {| df := df; env_initial_balance := initial_balance;
     stake_amount := stake_amount; current_step := 0;
     env_balance := initial_balance; env_position := None;
     env_entry_price := 0; position_steps := 0; env_total_trades := 0;
     env_winning_trades := 0; env_losing_trades := 0; total_profit := 0;
     consecutive_wins := 0; env_consecutive_losses := 0 |}.

(** The observation: the price, the balance, whether a position is
    open, the entry price, the steps in the position. *)
Definition Observation : Type := Q * Q * Q * Q * Q.

(** The conversion of [np.array(..., dtype=np.float32)]: the nearest
    number of single precision. *)
Variable np_float32 : Q -> Q.

(** [_get_observation()]; [df.iloc[i]] raises [IndexError] beyond the
    last row. *)
Definition _get_observation : M TradingEnv Observation :=
  fun e =>
    match df e !! current_step e with
    | None => Raise (Exception "IndexError") e
    | Some current_price =>
        Ret (np_float32 current_price, np_float32 (env_balance e),
             np_float32 match env_position e with Some _ => 1 | None => 0 end,
             np_float32 (env_entry_price e),
             np_float32 (inject_Z (Z.of_nat (position_steps e)))) e
    end.

(** [reset()]. *)
Definition reset : M TradingEnv Observation :=
  (modify (fun e =>
     TradingEnv_init (df e) (env_initial_balance e) (stake_amount e)) ;;;
   _get_observation)%monad.

(** The updates of [step]: a step more in the position; the closing of
    the trade with its [profit_amount]; the opening of a position; the
    step counter. *)
Definition hold (e : TradingEnv) : TradingEnv :=
  {| df := df e; env_initial_balance := env_initial_balance e;
     stake_amount := stake_amount e; current_step := current_step e;
     env_balance := env_balance e; env_position := env_position e;
     env_entry_price := env_entry_price e;
     position_steps := S (position_steps e);
     env_total_trades := env_total_trades e;
     env_winning_trades := env_winning_trades e;
     env_losing_trades := env_losing_trades e;
     total_profit := total_profit e;
     consecutive_wins := consecutive_wins e;
     env_consecutive_losses := env_consecutive_losses e |}.

Definition close_trade (profit_amount : Q) (e : TradingEnv) : TradingEnv :=
  let won := Qgtb profit_amount 0 in
  {| df := df e; env_initial_balance := env_initial_balance e;
     stake_amount := stake_amount e; current_step := current_step e;
     env_balance := env_balance e + profit_amount; env_position := None;
     env_entry_price := 0; position_steps := 0;
     env_total_trades := S (env_total_trades e);
     env_winning_trades :=
       if won then S (env_winning_trades e) else env_winning_trades e;
     env_losing_trades :=
       if won then env_losing_trades e else S (env_losing_trades e);
     total_profit := total_profit e + profit_amount;
     consecutive_wins := if won then S (consecutive_wins e) else O;
     env_consecutive_losses :=
       if won then O else S (env_consecutive_losses e) |}.

Definition open_trade (position : ContractType) (current_price : Q)
    (e : TradingEnv) : TradingEnv :=
  {| df := df e; env_initial_balance := env_initial_balance e;
     stake_amount := stake_amount e; current_step := current_step e;
     env_balance := env_balance e; env_position := Some position;
     env_entry_price := current_price; position_steps := 0;
     env_total_trades := env_total_trades e;
     env_winning_trades := env_winning_trades e;
     env_losing_trades := env_losing_trades e;
     total_profit := total_profit e;
     consecutive_wins := consecutive_wins e;
     env_consecutive_losses := env_consecutive_losses e |}.

Definition advance (e : TradingEnv) : TradingEnv :=
  {| df := df e; env_initial_balance := env_initial_balance e;
     stake_amount := stake_amount e; current_step := S (current_step e);
     env_balance := env_balance e; env_position := env_position e;
     env_entry_price := env_entry_price e;
     position_steps := position_steps e;
     env_total_trades := env_total_trades e;
     env_winning_trades := env_winning_trades e;
     env_losing_trades := env_losing_trades e;
     total_profit := total_profit e;
     consecutive_wins := consecutive_wins e;
     env_consecutive_losses := env_consecutive_losses e |}.

(** The dict [info] that [step] returns. *)
Record Info : Type := {
  info_balance : Q;
  info_total_trades : nat;
  info_winning_trades : nat;
  info_win_rate : Q
}.

(** The reward of a closed trade, from the amount and the percentage of
    its profit and the streaks after it. *)
Definition closing_reward (profit_amount profit_percent : Q)
    (e : TradingEnv) : Q :=
  if Qgtb profit_amount 0 then
    let reward := 10 + profit_amount * 2 in
    let reward :=
      if (3 <=? consecutive_wins e)%nat then reward + 20 else reward in
    let reward :=
      if (5 <=? consecutive_wins e)%nat then reward + 50 else reward in
    if Qgtb profit_percent 8 then reward + 30 else reward
  else
    let reward := - (15) + profit_amount * 3 in
    let reward :=
      if (3 <=? env_consecutive_losses e)%nat then reward - 25 else reward in
    let reward :=
      if (5 <=? env_consecutive_losses e)%nat then reward - 50 else reward in
    if Qltb profit_percent (- (8)) then reward - 40 else reward.

(** What the end of the episode adds to the reward. *)
Definition final_reward (reward : Q) (e : TradingEnv) : Q :=
  if (0 <? env_total_trades e)%nat then
    let win_rate :=
      inject_Z (Z.of_nat (env_winning_trades e))
      / inject_Z (Z.of_nat (env_total_trades e)) in
    let reward :=
      if Qgtb win_rate (6 # 10) then reward + 100
      else if Qgtb win_rate (5 # 10) then reward + 50
      else if Qltb win_rate (4 # 10) then reward - 50
      else reward in
    if Qgtb (total_profit e) 0 then reward + total_profit e * (5 # 10)
    else reward + total_profit e * (8 # 10)
  else reward - 100.

(** [step(action)].  [close_threshold] is what
    [np.random.randint(5, 16)] draws, read only while a position is
    open.  The division by the entry price is that of the rationals:
    what is said of amounts is said for entry prices other than zero,
    where numpy gives [inf] or [nan]. *)
Definition step (action : Z) (close_threshold : nat)
    : M TradingEnv (Observation * Q * bool * Info) :=
  fun e =>
    match df e !! current_step e with
    | None => Raise (Exception "IndexError") e
    | Some current_price =>
        let '(e1, reward) :=
          match env_position e with
          | Some position =>
              let e' := hold e in
              let price_change := current_price - env_entry_price e' in
              let pnl :=
                match position with
                | CALL => price_change
                | PUT => - price_change
                end in
              if (close_threshold <=? position_steps e')%nat then
                let profit_percent := (pnl / env_entry_price e') * 100 in
                let profit_amount :=
                  stake_amount e' * (profit_percent / 100) in
                let e'' := close_trade profit_amount e' in
                (e'', closing_reward profit_amount profit_percent e'')
              else (e', 0)
          | None =>
              if (action =? 1)%Z then (open_trade CALL current_price e, 2)
              else if (action =? 2)%Z then (open_trade PUT current_price e, 2)
              else
                (e, if (50 <? current_step e)%nat
                       && (env_total_trades e =? 0)%nat
                    then - (5 # 10) else - (1 # 10))
          end in
        let e2 := advance e1 in
        let ended :=
          (Z.of_nat (length (df e2)) - 1 <=? Z.of_nat (current_step e2))%Z in
        let reward := if ended then final_reward reward e2 else reward in
        let ruined :=
          Qltb (env_balance e2) (env_initial_balance e2 * (5 # 10)) in
        let done := ended || ruined in
        let reward := if ruined then reward - 200 else reward in
        let info :=
          {| info_balance := env_balance e2;
             info_total_trades := env_total_trades e2;
             info_winning_trades := env_winning_trades e2;
             info_win_rate :=
               if (0 <? env_total_trades e2)%nat
               then inject_Z (Z.of_nat (env_winning_trades e2))
                    / inject_Z (Z.of_nat (env_total_trades e2))
               else 0 |} in
        (observation <- _get_observation ;;
         ret (observation, reward, done, info))%monad e2
    end.

(** ** What the claims speak of *)

(** The frames that the reader puts in the queue over the batches [bs]
    of transport events, one batch at each suspension of the consumer,
    from the state [a] of the client: what [run_reader] leaves in a
    queue that was empty, batch after batch. *)
Fixpoint delivered (bs : list (list RecvEvent)) (a : DerivAPI) : list Frame :=
  match bs with
  | [] => []
  | b :: bs' =>
      let a' := run_reader b (set_recv_queue (Some []) a) in
      default [] (_recv_queue a') ++ delivered bs' a'
  end.

(** The fields of the account. *)
Definition account (t : LiveTrader) : Q * nat * nat * nat * nat :=
  (balance t, total_trades t, winning_trades t, losing_trades t,
   consecutive_losses t).

(** Whether a position is open. *)
Definition is_open (s : Session) : bool :=
  match position (self s) with Some _ => true | None => false end.

(** Reading the output of a session as the life of its positions: an
    order is announced by [PrintExecuting], a position is opened at
    [PrintContract] and closed at [PrintResult].  The reading fails
    ([None]) when an order is announced or a position opened while one is
    open, or a result is printed while none is; otherwise it tells
    whether a position is open at the end. *)
Definition trace_step (st : option bool) (o : Output) : option bool :=
  match st, o with
  | Some false, PrintExecuting _ _ _ => Some false
  | Some true, PrintExecuting _ _ _ => None
  | Some false, PrintContract _ => Some true
  | Some true, PrintContract _ => None
  | Some true, PrintResult _ _ => Some false
  | Some false, PrintResult _ _ => None
  | st, _ => st
  end.

Definition position_trace (out : list Output) : option bool :=
  fold_left trace_step out (Some false).

(** The sum of the signed amounts of the rows of the ledger. *)
Definition ledger_sum (rows : list TradeRecord) : Q :=
  fold_right (fun r acc => tr_profit r + acc) 0 rows.

(** The number of final reports in the output. *)
Definition summaries (out : list Output) : nat :=
  length (List.filter
            (fun o => match o with PrintSummary _ _ _ _ _ => true | _ => false end)
            out).

(** The direction of a position: [+1] for CALL, [-1] for PUT. *)
Definition sign (t : ContractType) : Q :=
  match t with CALL => 1 | PUT => - (1) end.

(** The signed amount of a settlement as [settle] computes it, from the
    type of the position, its entry price, the price at the close and
    the stake. *)
Definition settlement_amount (contract_type : ContractType)
    (entry_price current_price stake : Q) : Q :=
  let price_change := current_price - entry_price in
  let pnl :=
    match contract_type with
    | CALL => price_change
    | PUT => - price_change
    end in
  let profit_percent := (pnl / entry_price) * 100 in
  if Qgtb profit_percent 0 then stake * (95 # 100) else - stake.

(** The state of a session as the claims need it kept: the output reads
    as a well-sequenced life of positions, open at the end exactly when
    [position] is set; an open position has its entry snapshot and a
    stake of at least [minStake]; the balance is the initial balance
    plus the signed amounts of the ledger, which has one row per settled
    trade, each with the amount and the outcome of its settlement. *)
Definition row_settled (r : TradeRecord) : Prop :=
  tr_profit r
  = settlement_amount (tr_type r) (tr_entry_price r) (tr_exit_price r)
      (tr_stake r)
  /\ tr_won r = Qgtb (tr_profit r) 0.

Definition consistent (s : Session) : Prop :=
  position_trace (stdout s) = Some (is_open s)
  /\ (is_open s = true ->
      (exists sig, entry_signals (self s) = Some sig)
      /\ exists stake, current_stake (self s) = Some stake /\ 10 <= stake)
  /\ balance (self s)
     == initial_balance (self s) + ledger_sum (history_file (self s))
  /\ total_trades (self s) = length (history_file (self s))
  /\ (winning_trades (self s) + losing_trades (self s))%nat
     = total_trades (self s)
  /\ Forall row_settled (history_file (self s)).

(** Output other than the final report. *)
Definition quiet (o : Output) : Prop :=
  match o with
  | PrintSummary _ _ _ _ _ => False
  | _ => True
  end.

(** Output that says nothing of orders and positions. *)
Definition silent (o : Output) : Prop :=
  match o with
  | PrintExecuting _ _ _ | PrintContract _ | PrintResult _ _ => False
  | _ => True
  end.

(** [s] has the trader of [s0], but for its price window, and the time
    of the last action of [s0]: nothing of the account or of the
    position has changed. *)
Definition same_books (s0 s : Session) : Prop :=
  set_indicators [] (self s) = set_indicators [] (self s0)
  /\ last_action_time s = last_action_time s0.

(** A computation preserves [I] when every state it can end in, by
    returning, raising or blocking, satisfies [I] if the state it
    started in did. *)
Definition preserves {S A} (I : S -> Prop) (m : M S A) : Prop :=
  forall s, I s -> I (final (m s)).

(** A computation of the client that never adds to the supply of
    frames. *)
Definition shrinks {A} (m : M Client A) : Prop :=
  forall n, preserves (fun c => (supply c <= n)%nat) m.

(** ** What the further properties speak of *)

(** The price and the time that [tick_callback] reads off a frame, the
    time as [datetime.fromtimestamp] gives it: [None] when one of its
    subscripts or conversions raises. *)
Definition tick_fields (response : Frame) : option (Q * Q) :=
  match response !! "tick"%string with
  | None => None
  | Some tick =>
      match subscript tick "quote", subscript tick "epoch" with
      | Some quote, Some epoch =>
          match to_float quote, fromtimestamp epoch with
          | Some current_price, Some tick_time => Some (current_price, tick_time)
          | _, _ => None
          end
      | _, _ => None
      end
  end.

(** The number of clock readings that [tick_callback] makes before it
    reads the time since the last action: one on every tenth tick. *)
Definition status_reads (s : Session) : nat :=
  if (S (tick_count s) mod 10 =? 0)%nat then 1%nat else 0%nat.

(** The losing rows at the end of the ledger. *)
Definition streak (rows : list TradeRecord) : nat :=
  fold_left (fun n r => if tr_won r then O else S n) rows O.

(** The counters of the trader are those of its ledger. *)
Definition tallied (s : Session) : Prop :=
  winning_trades (self s)
  = length (List.filter tr_won (history_file (self s)))
  /\ losing_trades (self s)
     = length (List.filter (fun r => negb (tr_won r)) (history_file (self s)))
  /\ consecutive_losses (self s) = streak (history_file (self s)).

(** A computation from which no [Exception] escapes. *)
Definition contained {S A} (m : M S A) : Prop :=
  forall s msg s', m s <> Raise (Exception msg) s'.

(** A computation that is never cancelled. *)
Definition uncancelled {S A} (m : M S A) : Prop :=
  forall s s', m s <> Raise CancelledError s'.

(** The books of the training environment: every trade is a win or a
    loss; the balance is the initial balance plus the profit made; one
    of the two streaks is zero, and neither is longer than its count;
    with no position open the entry price and the steps are zero, and
    the entry price of an open position is a price of the series. *)
Definition env_books (e : TradingEnv) : Prop :=
  env_total_trades e = (env_winning_trades e + env_losing_trades e)%nat
  /\ env_balance e == env_initial_balance e + total_profit e
  /\ (consecutive_wins e = O \/ env_consecutive_losses e = O)
  /\ (consecutive_wins e <= env_winning_trades e)%nat
  /\ (env_consecutive_losses e <= env_losing_trades e)%nat
  /\ match env_position e with
     | None => env_entry_price e = 0 /\ position_steps e = O
     | Some _ => In (env_entry_price e) (df e)
     end.

(** A frame whose tick, if it has one, has a quote and an epoch. *)
Definition readable (data : Frame) : bool :=
  match data !! "tick"%string with
  | None => true
  | Some tick =>
      match subscript tick "quote", subscript tick "epoch" with
      | Some _, Some _ => true
      | _, _ => false
      end
  end.

(** The lines that [get_ticks] prints for the frames of its turns from
    [i] on: one for each frame that has a tick, numbered by its turn. *)
Fixpoint tick_lines (i : nat) (frames : list Frame) : list Line :=
  match frames with
  | [] => []
  | data :: rest =>
      match data !! "tick"%string with
      | Some tick =>
          match subscript tick "quote", subscript tick "epoch" with
          | Some quote, Some epoch => [TickLine (S i) quote epoch]
          | _, _ => []
          end
      | None => []
      end ++ tick_lines (S i) rest
  end.

(** The state that [step] leaves, whether the observation at its end
    can be made or not. *)
Definition stepped (action : Z) (close_threshold : nat) (current_price : Q)
    (e : TradingEnv) : TradingEnv :=
  advance
    match env_position e with
    | Some position =>
        if (close_threshold <=? S (position_steps e))%nat then
          let price_change := current_price - env_entry_price e in
          let pnl :=
            match position with
            | CALL => price_change
            | PUT => - price_change
            end in
          close_trade
            (stake_amount e * (pnl / env_entry_price e * 100 / 100)) (hold e)
        else hold e
    | None =>
        if (action =? 1)%Z then open_trade CALL current_price e
        else if (action =? 2)%Z then open_trade PUT current_price e
        else e
    end.

(** ** Sample data

    Frames, a decoder, surroundings and states on which the theorems
    are exercised. *)

Definition tick_frame (quote epoch : Q) : Frame :=
  {[ "tick"%string :=
       JDict (<[ "quote"%string := JNum quote ]>
              {[ "epoch"%string := JNum epoch ]}) ]}.

Definition proposal_frame : Frame :=
  {[ "proposal"%string := JDict {[ "id"%string := JStr "p-1" ]} ]}.

Definition rejected_frame : Frame :=
  <[ "error"%string := JDict {[ "code"%string := JStr "InvalidStake" ]} ]>
  proposal_frame.

Definition error_frame : Frame :=
  {[ "error"%string := JDict {[ "code"%string := JStr "RateLimit" ]} ]}.

Definition auth_frame : Frame :=
  {[ "authorize"%string := JDict {[ "currency"%string := JStr "USD" ]} ]}.

Definition sample_loads (raw : string) : option Frame :=
  if String.eqb raw "auth" then Some auth_frame
  else if String.eqb raw "proposal" then Some proposal_frame
  else if String.eqb raw "tick" then Some (tick_frame 100 1)
  else None.

Definition sample_signals (prices : list Q) : Signals :=
  {| rsi := 50; macd := 0; bb_position := "MIDDLE"; volatility := 0;
     combined_signal := "NEUTRAL"; signal_strength := 0 |}.

(** Signals with a low RSI, which call for a CALL. *)
Definition oversold_signals (prices : list Q) : Signals :=
  {| rsi := 25; macd := 0; bb_position := "LOWER"; volatility := 0;
     combined_signal := "NEUTRAL"; signal_strength := 0 |}.

Definition sample_float (s : string) : option Q := None.

(** Numbers within the floats; a machine on UTC; Python's own rule for
    a tie that is a float, to the even neighbour; and a coarse single
    precision, the nearest multiple of 1/1024 below. *)
Definition sample_number (q : Q) : option Q := Some q.
Definition utc_time (q : Q) : option Q := Some q.
Definition half_even (f : Z) : bool := Z.odd f.
Definition sample_float32 (x : Q) : Q := inject_Z (Qfloor (x * 1024)) / 1024.

(** Ten ticks. *)
Definition ten_ticks : list Frame :=
  map (fun n => tick_frame (inject_Z n) (inject_Z n))
    [1; 2; 3; 4; 5; 6; 7; 8; 9; 10]%Z.

(** A clock that has run past every waiting time. *)
Definition late_clock (n : nat) : Q := 100.

(** The reply to a purchase. *)
Definition buy_frame : Frame :=
  {[ "buy"%string :=
       JDict (<[ "contract_id"%string := JNum 7 ]>
              (<[ "buy_price"%string := JNum 130 ]>
              (<[ "payout"%string := JNum 253 ]>
              {[ "start_time"%string := JNum 1 ]}))) ]}.

Definition sample_clock (n : nat) : Q := 0.

(** An authorized client with the reader running, the queue holding [q]
    and the transport about to deliver [inb]. *)
Definition sample_client (q : list Frame) (inb : list (list RecvEvent))
    : Client :=
  {| api := {| websocket := Some {| ws_open := true |}; authorized := true;
               _recv_queue := Some q; events := Some GenStarted;
               _reader_task := Some TaskPending |};
     inbound := inb; io := [] |}.

(** A new trader on a connection. *)
Definition sample_session (c : Client) : Session :=
  {| self := LiveTrader_init 10000 1; connection := c; tick_count := 0;
     last_action_time := 0; start_time := 0; clock_reads := 0;
     stdout := [] |}.

(** A session holding a CALL entered at 100 with a stake of 10. *)
Definition sample_open_session : Session :=
  on_self (open_position CALL 100 0 (JStr "c-1") 10 (sample_signals []))
    (sample_session (sample_client [] [])).

(** A square root to two decimals, from the integer one. *)
Definition sample_sqrt (x : Q) : Q :=
  inject_Z (Z.sqrt (Qfloor (x * 10000))) / 100.

(** Windows of prices: one that moves both ways, one that only rises,
    and a flat one of 14 prices. *)
Definition sample_prices : list Q := [100; 102; 101; 103; 105].
Definition rising_prices : list Q := [100; 101; 102; 103; 104].
Definition flat_prices : list Q := repeat 100 14.

(** A client just connected, with the transport about to deliver
    [inb]. *)
Definition connected_client (inb : list (list RecvEvent)) : Client :=
  {| api := set_websocket (Some {| ws_open := true |}) DerivAPI_init;
     inbound := inb; io := [] |}.

(** A console on a client. *)
Definition sample_console (c : Client) : Console :=
  {| client := c; lines := [] |}.

(** A frame that is no tick, and a tick without a quote. *)
Definition pong_frame : Frame := {[ "ping"%string := JStr "pong" ]}.
Definition broken_tick : Frame :=
  {[ "tick"%string := JDict {[ "epoch"%string := JNum 1 ]} ]}.

(** A session whose window holds 14 prices of 100. *)
Definition flat_session (c : Client) : Session :=
  on_self (set_indicators flat_prices) (sample_session c).

(** An environment on a series of four prices, and the same with a
    CALL just entered at 100. *)
Definition sample_env : TradingEnv := TradingEnv_init [100; 101; 99; 102] 10000 10.
Definition sample_env_open : TradingEnv := open_trade CALL 100 sample_env.

(* ================================================================== *)
(** * Part II: theorems                                                *)
(* ================================================================== *)

(** ** Comparisons, [min], [max] and rounding *)

Lemma Qgtb_true (a b : Q) : Qgtb a b = true <-> b < a.
Proof.
  unfold Qgtb. rewrite negb_true_iff, <- not_true_iff_false, Qle_bool_iff.
  split; [apply Qnot_le_lt | apply Qlt_not_le].
Qed.

Lemma Qgtb_false (a b : Q) : Qgtb a b = false <-> a <= b.
Proof. unfold Qgtb. rewrite negb_false_iff. apply Qle_bool_iff. Qed.

Lemma Qltb_true (a b : Q) : Qltb a b = true <-> a < b.
Proof. apply Qgtb_true. Qed.

Lemma Qltb_false (a b : Q) : Qltb a b = false <-> b <= a.
Proof. apply Qgtb_false. Qed.

Lemma Qgeb_true (a b : Q) : Qgeb a b = true <-> b <= a.
Proof. apply Qle_bool_iff. Qed.

(** Case analysis on a comparison, leaving its meaning as a hypothesis. *)
Ltac case_cmp :=
  match goal with
  | |- context [Qgtb ?a ?b] =>
      let H := fresh "Hcmp" in
      destruct (Qgtb a b) eqn:H;
      [apply Qgtb_true in H | apply Qgtb_false in H]
  | |- context [Qltb ?a ?b] =>
      let H := fresh "Hcmp" in
      destruct (Qltb a b) eqn:H;
      [apply Qltb_true in H | apply Qltb_false in H]
  end.

Lemma py_max_lower (a b : Q) : a <= py_max a b.
Proof. unfold py_max. case_cmp; lra. Qed.

Lemma py_max_floor (a b : Q) : b <= a -> py_max a b = a.
Proof.
  intros H. unfold py_max. case_cmp; [lra | reflexivity].
Qed.

Lemma py_min_upper (a b : Q) : py_min a b <= b.
Proof. unfold py_min. case_cmp; lra. Qed.

Lemma round_nearest_floor (x : Q) : (Qfloor x <= round_nearest x)%Z.
Proof.
  unfold round_nearest.
  destruct (Qcompare _ _); try lia.
  destruct (tie_rounds_up _); lia.
Qed.

Lemma round_nearest_comp (x y : Q) :
  x == y -> round_nearest x = round_nearest y.
Proof.
  intros H. unfold round_nearest.
  rewrite (Qfloor_comp _ _ H).
  assert (E : x - inject_Z (Qfloor y) == y - inject_Z (Qfloor y))
    by (rewrite H; reflexivity).
  rewrite (Qcompare_comp _ _ E _ _ (Qeq_refl _)). reflexivity.
Qed.

Lemma round2_comp (x y : Q) : x == y -> round2 x = round2 y.
Proof.
  intros H. unfold round2.
  rewrite (round_nearest_comp (x * 100) (y * 100)); [reflexivity |].
  rewrite H. reflexivity.
Qed.

Lemma round2_lower (x : Q) : 10 <= x -> 10 <= round2 x.
Proof.
  intros H. unfold round2.
  assert (F : (1000 <= round_nearest (x * 100))%Z).
  { etransitivity; [| apply round_nearest_floor].
    change 1000%Z with (Qfloor (inject_Z 1000)).
    apply Qfloor_resp_le. unfold inject_Z. lra. }
  apply Qle_shift_div_l; [reflexivity |].
  change (10 * 100) with (inject_Z 1000).
  rewrite <- Zle_Qle. exact F.
Qed.

(** ** Stake sizing *)

Lemma clamp_py (lo hi x : Q) :
  lo <= hi -> py_max lo (py_min x hi) == clamp lo hi x.
Proof.
  intros H. unfold py_max, py_min, clamp.
  repeat case_cmp; lra.
Qed.

Lemma loss_tier_code (n : nat) :
  (if (3 <=? n)%nat then 5 # 10 else if (2 <=? n)%nat then 7 # 10 else 1)
  = loss_tier n.
Proof. destruct n as [| [| [| n]]]; reflexivity. Qed.

Lemma calculate_stake_unfold (self : LiveTrader) (volatility : Q)
    (signal_strength : Z) :
  calculate_stake self volatility signal_strength
  = round2 (py_max 10 (py_min (raw_stake self volatility signal_strength)
                         (balance self * (5 # 100)))).
Proof.
  unfold calculate_stake, raw_stake. rewrite loss_tier_code. reflexivity.
Qed.

(** What [round(x, 2)] returns is [x] rounded to 2 decimal places,
    whichever way a tie goes. *)
Lemma round2_rounded (x : Q) : rounded_to_cents x (round2 x).
Proof.
  unfold rounded_to_cents, round2, round_nearest.
  split; [eexists; reflexivity |].
  pose proof (Qfloor_le (x * 100)) as Hlo.
  pose proof (Qlt_floor (x * 100)) as Hhi.
  rewrite inject_Z_plus in Hhi. change (inject_Z 1) with 1 in Hhi.
  set (f := Qfloor (x * 100)) in *.
  apply Qabs_Qle_condition. unfold Qdiv. change (/ 100) with (1 # 100).
  destruct (Qcompare (x * 100 - inject_Z f) (1 # 2)) eqn:C.
  - apply Qeq_alt in C.
    destruct (tie_rounds_up f).
    + rewrite inject_Z_plus. change (inject_Z 1) with 1. split; lra.
    + split; lra.
  - apply Qlt_alt in C. split; lra.
  - apply Qgt_alt in C.
    rewrite inject_Z_plus. change (inject_Z 1) with 1. split; lra.
Qed.

Lemma clamp_bounds (lo hi x : Q) : lo <= hi -> lo <= clamp lo hi x <= hi.
Proof.
  intros H. unfold clamp. repeat case_cmp; lra.
Qed.

(** C5. [calculate_stake] is the sizing policy: the base
    [balance * riskPercent] (the percentage as a fraction) times the
    volatility, signal-strength and consecutive-loss tiers, clamped to
    [[minStake, balance * maxStakeFraction]], and what it returns is
    that amount rounded to 2 decimal places, whichever way [round]
    takes a tie; when that interval is empty the result is
    [minStake]. *)
Theorem calculate_stake_policy (self : LiveTrader) (volatility : Q)
    (signal_strength : Z) :
  let cap := balance self * maxStakeFraction in
  let stake := calculate_stake self volatility signal_strength in
  let amount :=
    stake_policy (balance self) (risk_percent self / 100) volatility
      (3 <=? signal_strength)%Z (consecutive_losses self) in
  (minStake <= cap ->
   minStake <= amount <= cap /\ rounded_to_cents amount stake)
  /\ (cap < minStake -> stake == minStake).
Proof.
  cbv zeta. rewrite calculate_stake_unfold. split; intros H.
  - split; [apply clamp_bounds; exact H |].
    pose proof (clamp_py minStake (balance self * maxStakeFraction)
                  (raw_stake self volatility signal_strength) H) as E.
    destruct (round2_rounded
                (py_max 10 (py_min (raw_stake self volatility signal_strength)
                              (balance self * (5 # 100))))) as [Hk Hd].
    split; [exact Hk |].
    unfold stake_policy. fold (raw_stake self volatility signal_strength).
    change minStake with 10 in E |- *.
    change maxStakeFraction with (5 # 100) in E |- *.
    rewrite <- E. exact Hd.
  - assert (E : py_max 10 (py_min (raw_stake self volatility signal_strength)
                             (balance self * (5 # 100))) = 10).
    { apply py_max_floor.
      unfold minStake, maxStakeFraction in H.
      pose proof (py_min_upper (raw_stake self volatility signal_strength)
                    (balance self * (5 # 100))).
      lra. }
    rewrite E. reflexivity.
Qed.

Lemma calculate_stake_lower (self : LiveTrader) (volatility : Q)
    (signal_strength : Z) :
  10 <= calculate_stake self volatility signal_strength.
Proof.
  rewrite calculate_stake_unfold. apply round2_lower, py_max_lower.
Qed.

(** C10. [calculate_stake] never returns less than [minStake] = 10: the
    floor is applied after the cap, so with [balance * 0.05 < 10] the
    stake is 10 and exceeds the cap. *)
Theorem calculate_stake_floor (self : LiveTrader) (volatility : Q)
    (signal_strength : Z) :
  let stake := calculate_stake self volatility signal_strength in
  10 <= stake
  /\ (balance self * (5 # 100) < 10 ->
      stake == 10 /\ balance self * (5 # 100) < stake).
Proof.
  cbv zeta. split; [apply calculate_stake_lower |].
  rewrite calculate_stake_unfold. intros H.
  pose proof (py_min_upper (raw_stake self volatility signal_strength)
                  (balance self * (5 # 100))) as U.
    rewrite py_max_floor by lra.
    split; [reflexivity |].
    assert (E : round2 10 == 10) by reflexivity.
    rewrite E. exact H.
Qed.

(** ** The background reader *)

Lemma put_if_queue_websocket (data : Frame) (a : DerivAPI) :
  websocket (put_if_queue data a) = websocket a.
Proof. unfold put_if_queue. destruct (_recv_queue a); reflexivity. Qed.

Lemma put_if_queue_task (data : Frame) (a : DerivAPI) :
  _reader_task (put_if_queue data a) = _reader_task a.
Proof. unfold put_if_queue. destruct (_recv_queue a); reflexivity. Qed.

Lemma put_if_queue_some (data : Frame) (a : DerivAPI) (q : list Frame) :
  _recv_queue a = Some q ->
  put_if_queue data a = set_recv_queue (Some (q ++ [data])) a.
Proof. intros H. unfold put_if_queue. rewrite H. reflexivity. Qed.

(** A run of messages: each is decoded and put, in order, and the reader
    goes on with what follows. *)
Lemma _read_loop_messages (raws : list string) (evs : list RecvEvent)
    (a : DerivAPI) (q : list Frame) :
  websocket a <> None ->
  _recv_queue a = Some q ->
  _read_loop (map Message raws ++ evs) a
  = _read_loop evs (set_recv_queue (Some (q ++ map decode raws)) a).
Proof.
  revert a q. induction raws as [| raw raws IH]; intros a q Hw Hq.
  - simpl. rewrite app_nil_r.
    replace (set_recv_queue (Some q) a) with a; [reflexivity |].
    destruct a; simpl in *; subst; reflexivity.
  - simpl. destruct (websocket a) eqn:E; [| congruence].
    rewrite (put_if_queue_some _ _ _ Hq).
    rewrite (IH _ (q ++ [decode raw])); [| simpl; congruence | reflexivity].
    rewrite <- app_assoc. reflexivity.
Qed.

(** C4, as the code has it.  A message that does not decode becomes the
    frame [{"raw": raw}], which has no ["error"] key, and is put on the
    queue like every other message, the reader going on; on a transport
    failure exactly one frame [{"error": str(e)}] follows the frames of
    the messages received so far, and the reader is done. *)
Theorem read_loop_decode_and_failure (raws : list string) (reason : string)
    (rest : list RecvEvent) (a : DerivAPI) (ws : WebSocket) (q : list Frame) :
  websocket a = Some ws ->
  _recv_queue a = Some q ->
  (forall raw, json_loads raw = None ->
     decode raw = {[ "raw"%string := JStr raw ]}
     /\ has_key "error" (decode raw) = false)
  /\ (let (a', t) := _read_loop (map Message raws) a in
      t = TaskPending /\ _recv_queue a' = Some (q ++ map decode raws))
  /\ (let (a', t) := _read_loop (map Message raws ++ Failure reason :: rest) a in
      t = TaskDone
      /\ _recv_queue a'
         = Some (q ++ map decode raws ++ [{[ "error"%string := JStr reason ]}])).
Proof.
  intros Hw Hq. split; [| split].
  - intros raw H. unfold decode. rewrite H. split; reflexivity.
  - rewrite <- (app_nil_r (map Message raws)).
    rewrite (_read_loop_messages raws [] a q); [| congruence | exact Hq].
    simpl. rewrite Hw. split; reflexivity.
  - rewrite (_read_loop_messages raws _ a q); [| congruence | exact Hq].
    simpl. rewrite Hw. split; [reflexivity |].
    simpl. rewrite <- app_assoc. reflexivity.
Qed.

(** ** Closing *)

Lemma close_returns (c : Client) :
  exists c1, close c = Ret tt c1 /\ api c1 = DerivAPI_init.
Proof. unfold close. eexists. split; reflexivity. Qed.

(** What [close()] does to the outside: with a transport it cancels the
    reader task, if there is one, then closes the transport; without a
    transport it does nothing. *)
Lemma close_effects (c : Client) :
  io (final (close c))
  = io c ++ match websocket (api c), _reader_task (api c) with
            | Some _, Some _ => [CancelTask; CloseSocket]
            | Some _, None => [CloseSocket]
            | None, _ => []
            end.
Proof.
  unfold close. simpl.
  destruct (websocket (api c)); [destruct (_reader_task (api c)) |]; simpl;
    rewrite <- ?app_assoc, ?app_nil_r; reflexivity.
Qed.

Lemma close_closed (c : Client) :
  api c = DerivAPI_init -> close c = Ret tt c.
Proof.
  intros H. unfold close. rewrite H. simpl.
  destruct c as [a i l]. simpl in H. subst a. reflexivity.
Qed.

(** C3. From any state of the client, [close()] returns without error
    and leaves the attributes at their values before [connect()]; a
    second [close()] returns without error too, does nothing to the
    outside and changes nothing: twice is the same as once. *)
Theorem close_idempotent (c : Client) :
  exists c1,
    close c = Ret tt c1
    /\ api c1 = DerivAPI_init
    /\ io c1 = io c ++ match websocket (api c), _reader_task (api c) with
                       | Some _, Some _ => [CancelTask; CloseSocket]
                       | Some _, None => [CloseSocket]
                       | None, _ => []
                       end
    /\ close c1 = Ret tt c1
    /\ (close ;;; close)%monad c = close c.
Proof.
  destruct (close_returns c) as [c1 [H1 H2]].
  pose proof (close_effects c) as H3. rewrite H1 in H3.
  exists c1. split; [exact H1 | split; [exact H2 | split; [exact H3 | split]]].
  - apply close_closed, H2.
  - unfold bind. rewrite H1. apply close_closed, H2.
Qed.

(** ** The queue under the reader and the consumer *)

Lemma _read_loop_queue (evs : list RecvEvent) (a : DerivAPI) (q : list Frame) :
  _recv_queue a = Some q ->
  exists arr, _recv_queue (fst (_read_loop evs a)) = Some (q ++ arr).
Proof.
  revert a q. induction evs as [| ev evs IH]; intros a q Hq; simpl.
  - exists []. rewrite app_nil_r. destruct (websocket a); exact Hq.
  - destruct (websocket a) eqn:Hw.
    2: { exists []. rewrite app_nil_r. exact Hq. }
    destruct ev as [raw | reason |]; simpl.
    + destruct (IH (put_if_queue (decode raw) a) (q ++ [decode raw]))
        as [arr Harr].
      { rewrite (put_if_queue_some _ _ _ Hq). reflexivity. }
      exists (decode raw :: arr). rewrite Harr, <- app_assoc. reflexivity.
    + exists [{[ "error"%string := JStr reason ]}].
      unfold put_if_queue. simpl. rewrite Hq. reflexivity.
    + exists []. rewrite app_nil_r. exact Hq.
Qed.

Lemma run_reader_queue (b : list RecvEvent) (a : DerivAPI) (q : list Frame) :
  _recv_queue a = Some q ->
  exists arr, _recv_queue (run_reader b a) = Some (q ++ arr).
Proof.
  intros Hq. unfold run_reader.
  destruct (_reader_task a) as [[|] |];
    try (exists []; rewrite app_nil_r; exact Hq).
  destruct (_read_loop_queue b a q Hq) as [arr Harr].
  destruct (_read_loop b a) as [a' t]. exists arr. exact Harr.
Qed.

Lemma suspend_io (c : Client) : io (suspend c) = io c.
Proof.
  unfold suspend.
  destruct (_reader_task (api c)) as [[|] |], (inbound c); reflexivity.
Qed.

Lemma suspend_idle (c : Client) : inbound c = [] -> suspend c = c.
Proof.
  intros H. unfold suspend. rewrite H.
  destruct (_reader_task (api c)) as [[|] |]; reflexivity.
Qed.

Lemma suspend_inbound_nil (c : Client) :
  inbound c = [] -> inbound (suspend c) = [].
Proof. intros H. rewrite (suspend_idle c H). exact H. Qed.

Lemma suspend_queue (c : Client) (q : list Frame) :
  _recv_queue (api c) = Some q ->
  exists arr, _recv_queue (api (suspend c)) = Some (q ++ arr)
              /\ (inbound c = [] -> arr = []).
Proof.
  intros Hq. unfold suspend.
  destruct (_reader_task (api c)) as [[|] |], (inbound c) as [| b rest];
    try (exists []; rewrite app_nil_r; split; [exact Hq | reflexivity]).
  destruct (run_reader_queue b (api c) q Hq) as [arr Harr].
  exists arr. split; [exact Harr | discriminate].
Qed.

(** With an item queued, [get()] returns it at once. *)
Lemma queue_get_head (c : Client) (data : Frame) (q : list Frame) :
  _recv_queue (api c) = Some (data :: q) ->
  queue_get c
  = Ret data {| api := set_recv_queue (Some q) (api c);
                inbound := inbound c; io := io c ++ [Get data] |}.
Proof.
  intros H. unfold queue_get. destruct (inbound c); simpl; rewrite H;
    reflexivity.
Qed.

(** Whatever [get()] does, it logs the item it returns and nothing
    else, and it returns only from a queue. *)
Lemma wait_get_spec (inb : list (list RecvEvent)) (a : DerivAPI)
    (l : list IOEvent) :
  match wait_get inb a l with
  | Ret data c' =>
      io c' = l ++ [Get data] /\ exists q, _recv_queue (api c') = Some q
  | Raise _ c' | Blocked c' => io c' = l
  end.
Proof.
  revert a. induction inb as [| b inb IH]; intros a; simpl.
  - destruct (_recv_queue a) as [[| data q] |]; simpl; eauto.
  - destruct (_recv_queue a) as [[| data q] |]; simpl; eauto.
    destruct (_reader_task a) as [[|] |]; simpl; auto; apply IH.
Qed.

Lemma queue_get_spec (c : Client) :
  match queue_get c with
  | Ret data c' =>
      io c' = io c ++ [Get data] /\ exists q, _recv_queue (api c') = Some q
  | Raise _ c' | Blocked c' => io c' = io c
  end.
Proof. apply wait_get_spec. Qed.

Lemma popped_app (l1 l2 : list IOEvent) :
  popped (l1 ++ l2) = popped l1 ++ popped l2.
Proof. apply omap_app. Qed.

Lemma requeued_app (l1 l2 : list IOEvent) :
  requeued (l1 ++ l2) = requeued l1 ++ requeued l2.
Proof. apply omap_app. Qed.

Lemma sent_app (l1 l2 : list IOEvent) : sent (l1 ++ l2) = sent l1 ++ sent l2.
Proof. apply omap_app. Qed.

(** ** The wait for a reply *)

(** What [await_key] does, for every queue and every schedule of the
    reader: it pops at most [attempts] frames; it returns the first
    popped frame that has the key, having popped only frames without it
    before; it returns [None] only after [attempts] frames without the
    key; and the frames it puts back are the popped frames that lack the
    key and have ["tick"], in the order they were popped. *)
Lemma await_key_S (key : string) (n : nat) (c : Client) :
  await_key key (S n) c
  = match queue_get c with
    | Ret data c1 =>
        if has_key key data then Ret (Some data) c1
        else if has_key "tick" data then
          match queue_put data c1 with
          | Ret _ c2 => await_key key n (suspend (log Sleep c2))
          | Raise e c2 => Raise e c2
          | Blocked c2 => Blocked c2
          end
        else await_key key n c1
    | Raise e c1 => Raise e c1
    | Blocked c1 => Blocked c1
    end.
Proof.
  simpl. unfold bind. destruct (queue_get c) as [data c1 | |]; try reflexivity.
  destruct (has_key key data); [reflexivity |].
  destruct (has_key "tick" data); [| reflexivity].
  destruct (queue_put data c1); reflexivity.
Qed.

Lemma await_key_spec (key : string) (attempts : nat) (c : Client) :
  exists ops,
    io (final (await_key key attempts c)) = io c ++ ops
    /\ (length (popped ops) <= attempts)%nat
    /\ sent ops = []
    /\ requeued ops = List.filter (put_back key) (popped ops)
    /\ match await_key key attempts c with
       | Ret (Some data) _ =>
           has_key key data = true
           /\ exists before,
                popped ops = before ++ [data] /\ Forall (lacks key) before
       | Ret None _ =>
           length (popped ops) = attempts /\ Forall (lacks key) (popped ops)
       | Raise _ _ | Blocked _ =>
           (length (popped ops) < attempts)%nat
           /\ Forall (lacks key) (popped ops)
       end.
Proof.
  revert c. induction attempts as [| n IH]; intros c.
  - exists []. simpl. rewrite app_nil_r. repeat split; auto.
  - rewrite await_key_S.
    pose proof (queue_get_spec c) as G.
    destruct (queue_get c) as [data c1 | e c1 | c1].
    2, 3: exists []; simpl; rewrite app_nil_r; repeat split; auto; lia.
    destruct G as [Gio [q Gq]].
    destruct (has_key key data) eqn:Hk.
    + exists [Get data]. simpl. unfold put_back. rewrite Hk. simpl.
      split; [exact Gio |]. split; [lia |]. split; [reflexivity |].
      split; [reflexivity |]. split; [reflexivity |].
      exists []. split; [reflexivity | constructor].
    + destruct (has_key "tick" data) eqn:Ht.
      * unfold queue_put. rewrite Gq.
        set (c2 := suspend _).
        destruct (IH c2) as [ops (Hio & Hlen & Hsent & Hput & Hres)].
        exists (Get data :: Put data :: Sleep :: ops).
        assert (E : io c2 = io c ++ [Get data; Put data; Sleep]).
        { unfold c2. rewrite suspend_io. simpl. rewrite Gio.
          rewrite <- !app_assoc. reflexivity. }
        rewrite Hio, E, <- app_assoc. simpl.
        unfold put_back at 1. rewrite Hk, Ht. simpl.
        split; [reflexivity |]. split; [lia |]. split; [exact Hsent |].
        split; [f_equal; exact Hput |].
        destruct (await_key key n c2) as [[found |] c3 | e c3 | c3].
        -- destruct Hres as [Hf [before [Hb Hall]]]. split; [exact Hf |].
           exists (data :: before). split; [rewrite Hb; reflexivity |].
           constructor; assumption.
        -- destruct Hres as [Hl Hall]. split; [lia | constructor; assumption].
        -- destruct Hres as [Hl Hall]. split; [lia | constructor; assumption].
        -- destruct Hres as [Hl Hall]. split; [lia | constructor; assumption].
      * destruct (IH c1) as [ops (Hio & Hlen & Hsent & Hput & Hres)].
        exists (Get data :: ops).
        rewrite Hio, Gio, <- app_assoc. simpl.
        unfold put_back at 1. rewrite Hk, Ht. simpl.
        split; [reflexivity |]. split; [lia |]. split; [exact Hsent |].
        split; [exact Hput |].
        destruct (await_key key n c1) as [[found |] c3 | e c3 | c3].
        -- destruct Hres as [Hf [before [Hb Hall]]]. split; [exact Hf |].
           exists (data :: before). split; [rewrite Hb; reflexivity |].
           constructor; assumption.
        -- destruct Hres as [Hl Hall]. split; [lia | constructor; assumption].
        -- destruct Hres as [Hl Hall]. split; [lia | constructor; assumption].
        -- destruct Hres as [Hl Hall]. split; [lia | constructor; assumption].
Qed.

(** When the awaited frame is already queued behind fewer than
    [attempts] frames, each of these is popped once: the wait returns
    the awaited frame, and the queue is left holding the frames behind
    it, followed by the tick frames that were in front of it, in their
    order, with whatever the reader added meanwhile among them. *)
Lemma await_key_found (before : list Frame) :
  forall (key : string) (attempts : nat) (c : Client) (data : Frame)
         (behind : list Frame),
    _recv_queue (api c) = Some (before ++ data :: behind) ->
    Forall (lacks key) before ->
    has_key key data = true ->
    (length before < attempts)%nat ->
    exists c' tail,
      await_key key attempts c = Ret (Some data) c'
      /\ _recv_queue (api c') = Some (behind ++ tail)
      /\ sublist (List.filter (has_key "tick") before) tail
      /\ (inbound c = [] -> tail = List.filter (has_key "tick") before).
Proof.
  induction before as [| x before IH];
    intros key attempts c data behind Hq Hall Hk Hlen;
    (destruct attempts as [| n]; [simpl in Hlen; lia |]);
    rewrite await_key_S; simpl in Hq; rewrite (queue_get_head _ _ _ Hq).
  - rewrite Hk. eexists _, []. simpl. rewrite app_nil_r.
    split; [reflexivity |]. split; [reflexivity |].
    split; [constructor | reflexivity].
  - inversion Hall as [| ? ? Hx Hall']; subst. unfold lacks in Hx.
    rewrite Hx. simpl in Hlen.
    destruct (has_key "tick" x) eqn:Ht.
    + unfold queue_put. simpl.
      set (c1 := log Sleep _).
      assert (Hq1 : _recv_queue (api c1)
                    = Some (before ++ data :: (behind ++ [x]))).
      { unfold c1. simpl. rewrite <- app_assoc. reflexivity. }
      destruct (suspend_queue c1 _ Hq1) as [arr [Hq2 Harr]].
      rewrite <- app_assoc in Hq2. simpl in Hq2.
      destruct (IH key n (suspend c1) data ((behind ++ [x]) ++ arr)
                  Hq2 Hall' Hk ltac:(lia))
        as [c' [tail (Hr & Hq' & Hsub & Hidle)]].
      exists c', (x :: arr ++ tail).
      split; [exact Hr |]. split.
      { rewrite Hq'. rewrite <- !app_assoc. reflexivity. }
      simpl. rewrite Ht. split.
      * apply sublist_skip. apply sublist_inserts_l. exact Hsub.
      * intros Hin.
        assert (Hin1 : inbound c1 = []) by exact Hin.
        rewrite (Harr Hin1). simpl.
        rewrite Hidle; [reflexivity |].
        apply suspend_inbound_nil. exact Hin1.
    + set (c1 := Build_Client _ _ _).
      destruct (IH key n c1 data behind eq_refl Hall' Hk ltac:(lia))
        as [c' [tail (Hr & Hq' & Hsub & Hidle)]].
      exists c', tail. simpl. rewrite Ht.
      repeat split; assumption.
Qed.

(** *** What the reader delivers

    The reader does the same whatever the queue holds: it appends to
    it.  So what it puts over some batches is what it would leave in an
    empty queue. *)

Lemma delivered_set_queue (bs : list (list RecvEvent))
    (x : option (list Frame)) (a : DerivAPI) :
  delivered bs (set_recv_queue x a) = delivered bs a.
Proof. destruct bs; reflexivity. Qed.

Lemma set_recv_queue_same (a : DerivAPI) (q : list Frame) :
  _recv_queue a = Some q -> set_recv_queue (Some q) a = a.
Proof. intros H. destruct a. simpl in H. subst. reflexivity. Qed.

Lemma _read_loop_shift (evs : list RecvEvent) :
  forall (a : DerivAPI) (p q : list Frame),
    _recv_queue a = Some p ->
    exists arr,
      _recv_queue (fst (_read_loop evs a)) = Some (p ++ arr)
      /\ _read_loop evs (set_recv_queue (Some (q ++ p)) a)
         = (set_recv_queue (Some (q ++ p ++ arr)) (fst (_read_loop evs a)),
            snd (_read_loop evs a)).
Proof.
  induction evs as [| ev evs IH]; intros a p q Hq.
  - exists []. rewrite app_nil_r. simpl.
    destruct (websocket a); simpl; split; (exact Hq || reflexivity).
  - simpl. destruct (websocket a) eqn:Hw.
    2: { exists []. rewrite app_nil_r. simpl. split; [exact Hq | reflexivity]. }
    destruct ev as [raw | reason |].
    + destruct (IH (set_recv_queue (Some (p ++ [decode raw])) a)
                  (p ++ [decode raw]) q eq_refl) as [arr [H1 H2]].
      exists (decode raw :: arr).
      rewrite (put_if_queue_some _ _ _ Hq).
      split; [rewrite H1, <- app_assoc; reflexivity |].
      unfold put_if_queue at 1. cbn [_recv_queue set_recv_queue].
      change (set_recv_queue (Some ((q ++ p) ++ [decode raw]))
                (set_recv_queue (Some (q ++ p)) a))
        with (set_recv_queue (Some ((q ++ p) ++ [decode raw]))
                (set_recv_queue (Some (p ++ [decode raw])) a)).
      rewrite <- (app_assoc q p), H2, <- (app_assoc p). reflexivity.
    + exists [{[ "error"%string := JStr reason ]}].
      unfold put_if_queue. cbn. rewrite Hq. cbn.
      rewrite app_assoc. split; reflexivity.
    + exists []. rewrite app_nil_r. cbn. split; [exact Hq | reflexivity].
Qed.

Lemma run_reader_shift (b : list RecvEvent) (a : DerivAPI) (q : list Frame) :
  _recv_queue a = Some q ->
  exists d,
    _recv_queue (run_reader b (set_recv_queue (Some []) a)) = Some d
    /\ run_reader b a
       = set_recv_queue (Some (q ++ d))
           (run_reader b (set_recv_queue (Some []) a)).
Proof.
  intros Hq. unfold run_reader. cbn [_reader_task set_recv_queue].
  destruct (_reader_task a) as [[|] |] eqn:Ht.
  2-3: exists []; rewrite app_nil_r; split; [reflexivity |];
       symmetry; apply (set_recv_queue_same a q Hq).
  destruct (_read_loop_shift b (set_recv_queue (Some []) a) [] q eq_refl)
    as [arr [H1 H2]].
  rewrite app_nil_r in H2. simpl in H1, H2.
  change (set_recv_queue (Some q) (set_recv_queue (Some []) a))
    with (set_recv_queue (Some q) a) in H2.
  rewrite (set_recv_queue_same a q Hq) in H2. rewrite H2.
  destruct (_read_loop b (set_recv_queue (Some []) a)) as [a1 t].
  simpl in H1 |- *. exists arr. split; [exact H1 | reflexivity].
Qed.

(** One turn of the reader appends what it delivers, and the turns
    after it deliver what they would have. *)
Lemma delivered_cons (b : list RecvEvent) (a : DerivAPI) (q : list Frame) :
  _recv_queue a = Some q ->
  exists d,
    _recv_queue (run_reader b a) = Some (q ++ d)
    /\ forall bs, delivered (b :: bs) a = d ++ delivered bs (run_reader b a).
Proof.
  intros Hq. destruct (run_reader_shift b a q Hq) as [d [H1 H2]].
  exists d. split; [rewrite H2; reflexivity |].
  intros bs. cbn [delivered]. rewrite H1, H2, delivered_set_queue.
  reflexivity.
Qed.

Lemma suspend_delivered (c : Client) (q : list Frame) :
  _recv_queue (api c) = Some q ->
  exists bs d,
    inbound c = bs ++ inbound (suspend c)
    /\ _recv_queue (api (suspend c)) = Some (q ++ d)
    /\ forall bs', delivered (bs ++ bs') (api c)
                   = d ++ delivered bs' (api (suspend c)).
Proof.
  intros Hq. unfold suspend.
  destruct (_reader_task (api c)) as [[|] |] eqn:Ht,
    (inbound c) as [| b rest] eqn:Hi.
  2: { destruct (delivered_cons b (api c) q Hq) as [d [H1 H2]].
       exists [b], d. split; [reflexivity |]. split; [exact H1 | exact H2]. }
  all: exists [], [];
    (split; [first [symmetry; exact Hi | reflexivity] |]);
    split; [rewrite app_nil_r; exact Hq | reflexivity].
Qed.

Lemma wait_get_delivered (inb : list (list RecvEvent)) :
  forall (a : DerivAPI) (l : list IOEvent) (q : list Frame),
    _recv_queue a = Some q ->
    exists bs d,
      inb = bs ++ inbound (final (wait_get inb a l))
      /\ (forall bs', delivered (bs ++ bs') a
                      = d ++ delivered bs' (api (final (wait_get inb a l))))
      /\ match wait_get inb a l with
         | Ret data c' =>
             exists q1, _recv_queue (api c') = Some q1 /\ q ++ d = data :: q1
         | Blocked c' =>
             _recv_queue (api c') = Some [] /\ q ++ d = []
             /\ (inbound c' = [] \/ _reader_task (api c') <> Some TaskPending)
         | Raise _ _ => False
         end.
Proof.
  induction inb as [| b inb IH]; intros a l q Hq; simpl; rewrite Hq.
  - exists [], []. rewrite app_nil_r.
    destruct q as [| data q]; simpl.
    + repeat split; auto.
    + split; [reflexivity |]. split.
      * intros bs'. symmetry. apply delivered_set_queue.
      * eauto.
  - destruct q as [| data q]; simpl.
    2: { exists [], []. rewrite app_nil_r. split; [reflexivity |]. split.
         - intros bs'. symmetry. apply delivered_set_queue.
         - eauto. }
    destruct (_reader_task a) as [[|] |] eqn:Ht; simpl;
      try (exists [], []; repeat split; auto; right; rewrite Ht; discriminate).
    destruct (delivered_cons b a [] Hq) as [d [H1 H2]]. simpl in H1.
    destruct (IH (run_reader b a) l d H1) as (bs & d' & Hin & Hd & Hres).
    exists (b :: bs), (d ++ d'). split; [simpl; rewrite <- Hin; reflexivity |].
    split.
    + intros bs'. simpl app. rewrite H2, Hd, app_assoc. reflexivity.
    + exact Hres.
Qed.

Lemma delivered_all (bs : list (list RecvEvent)) (a a' : DerivAPI)
    (d : list Frame) :
  (forall bs', delivered (bs ++ bs') a = d ++ delivered bs' a') ->
  d = delivered bs a.
Proof.
  intros H. specialize (H []). rewrite !app_nil_r in H. symmetry. exact H.
Qed.

(** The frames of the queue, with those the reader delivers over the
    batches that the wait consumes, are afterwards in the queue or among
    the popped frames that were not put back.  The wait raises nothing,
    and it is blocked only on an empty queue, the reader gone or nothing
    more arriving. *)
Lemma await_key_delivered (key : string) (attempts : nat) :
  forall (c : Client) (q : list Frame),
    _recv_queue (api c) = Some q ->
    exists ops bs q',
      io (final (await_key key attempts c)) = io c ++ ops
      /\ inbound c = bs ++ inbound (final (await_key key attempts c))
      /\ _recv_queue (api (final (await_key key attempts c))) = Some q'
      /\ Permutation (q ++ delivered bs (api c))
           (q' ++ List.filter (fun data => negb (put_back key data))
                    (popped ops))
      /\ (forall bs',
             delivered (bs ++ bs') (api c)
             = delivered bs (api c)
               ++ delivered bs' (api (final (await_key key attempts c))))
      /\ match await_key key attempts c with
         | Ret _ _ => True
         | Raise _ _ => False
         | Blocked c' =>
             q' = []
             /\ (inbound c' = [] \/ _reader_task (api c') <> Some TaskPending)
         end.
Proof.
  induction attempts as [| n IH]; intros c q Hq.
  - exists [], [], q. simpl. rewrite !app_nil_r. repeat split; auto.
  - rewrite await_key_S.
    destruct (wait_get_delivered (inbound c) (api c) (io c) q Hq)
      as (bs1 & d1 & Hin1 & Hd1 & G).
    pose proof (delivered_all _ _ _ _ Hd1) as E1.
    pose proof (queue_get_spec c) as Gio.
    fold (queue_get c) in Hin1, Hd1, G.
    destruct (queue_get c) as [data c1 | e c1 | c1]; [| contradiction |].
    2: { destruct G as (Hq1 & Hnil & Hblock). simpl in Hin1, Hd1.
         exists [], bs1, []. simpl. rewrite app_nil_r, <- E1, Hnil.
         split; [exact Gio |]. split; [exact Hin1 |]. split; [exact Hq1 |].
         split; [reflexivity |]. split; [| split; [reflexivity | exact Hblock]].
         intros bs'. rewrite Hd1, E1. reflexivity. }
    destruct G as (q1 & Hq1 & E). destruct Gio as [Gio _].
    simpl in Hin1, Hd1.
    destruct (has_key key data) eqn:Hk.
    { exists [Get data], bs1, q1. simpl. unfold put_back. rewrite Hk. simpl.
      split; [exact Gio |]. split; [exact Hin1 |]. split; [exact Hq1 |].
      split; [| split; [| exact I]].
      - rewrite <- E1, E. apply Permutation_cons_append.
      - intros bs'. rewrite Hd1, E1. reflexivity. }
    destruct (has_key "tick" data) eqn:Ht.
    + unfold queue_put. rewrite Hq1.
      set (c2 := log Sleep _).
      assert (Hq2 : _recv_queue (api c2) = Some (q1 ++ [data])) by reflexivity.
      assert (Ha2 : forall bs', delivered bs' (api c2) = delivered bs' (api c1))
        by (intros bs'; apply delivered_set_queue).
      destruct (suspend_delivered c2 _ Hq2) as (bs2 & d2 & Hin2 & Hq3 & Hd2).
      pose proof (delivered_all _ _ _ _ Hd2) as E2.
      destruct (IH (suspend c2) _ Hq3)
        as (ops & bs3 & q' & Hio & Hin3 & Hq' & HP & Hd3 & Hres).
      exists (Get data :: Put data :: Sleep :: ops), (bs1 ++ bs2 ++ bs3), q'.
      assert (Hall : forall bs',
                 delivered ((bs1 ++ bs2 ++ bs3) ++ bs') (api c)
                 = d1 ++ d2 ++ delivered bs3 (api (suspend c2))
                   ++ delivered bs'
                        (api (final (await_key key n (suspend c2))))).
      { intros bs'. rewrite <- !app_assoc, Hd1, <- Ha2, Hd2, Hd3.
        reflexivity. }
      split.
      { rewrite Hio, suspend_io. unfold c2. simpl. rewrite Gio.
        rewrite <- !app_assoc. reflexivity. }
      split.
      { rewrite <- !app_assoc, <- Hin3, <- Hin2. exact Hin1. }
      split; [exact Hq' |].
      pose proof (Hall []) as Hall0. rewrite !app_nil_r in Hall0.
      split; [| split; [| exact Hres]].
      * change (popped (Get data :: Put data :: Sleep :: ops))
          with (data :: popped ops).
        simpl List.filter. unfold put_back at 1. rewrite Hk, Ht. simpl negb.
        cbv iota. rewrite <- HP, Hall0.
        rewrite !app_assoc, E. rewrite <- !app_assoc. simpl.
        apply Permutation_middle.
      * intros bs'. rewrite Hall, Hall0, <- !app_assoc. reflexivity.
    + destruct (IH c1 q1 Hq1)
        as (ops & bs3 & q' & Hio & Hin3 & Hq' & HP & Hd3 & Hres).
      exists (Get data :: ops), (bs1 ++ bs3), q'.
      assert (Hall : forall bs',
                 delivered ((bs1 ++ bs3) ++ bs') (api c)
                 = d1 ++ delivered bs3 (api c1)
                   ++ delivered bs' (api (final (await_key key n c1)))).
      { intros bs'. rewrite <- !app_assoc, Hd1, Hd3. reflexivity. }
      split; [rewrite Hio, Gio, <- app_assoc; reflexivity |].
      split; [rewrite <- app_assoc, <- Hin3; exact Hin1 |].
      split; [exact Hq' |].
      pose proof (Hall []) as Hall0. rewrite !app_nil_r in Hall0.
      split; [| split; [| exact Hres]].
      * change (popped (Get data :: ops)) with (data :: popped ops).
        simpl List.filter. unfold put_back at 1. rewrite Hk, Ht. simpl negb.
        cbv iota. rewrite Hall0, app_assoc, E. simpl.
        rewrite <- Permutation_middle. apply perm_skip. exact HP.
      * intros bs'. rewrite Hall, Hall0, <- !app_assoc. reflexivity.
Qed.

(** When the queue holds [attempts] frames or more and none of the
    first [attempts] has the awaited key, the wait pops exactly these
    and gives up, whatever the reader adds meanwhile. *)
Lemma await_key_exhausts (front : list Frame) :
  forall (key : string) (c : Client) (rest : list Frame),
    _recv_queue (api c) = Some (front ++ rest) ->
    Forall (lacks key) front ->
    exists c' ops,
      await_key key (length front) c = Ret None c'
      /\ io c' = io c ++ ops
      /\ popped ops = front
      /\ sent ops = [].
Proof.
  induction front as [| x front IH]; intros key c rest Hq Hall.
  - exists c, []. simpl. rewrite app_nil_r. auto.
  - inversion Hall as [| ? ? Hx Hall']; subst. unfold lacks in Hx.
    cbn [length]. rewrite await_key_S. simpl in Hq.
    rewrite (queue_get_head _ _ _ Hq), Hx.
    destruct (has_key "tick" x) eqn:Ht.
    + unfold queue_put. simpl.
      set (c1 := log Sleep _).
      assert (Hq1 : _recv_queue (api c1) = Some (front ++ (rest ++ [x]))).
      { unfold c1. simpl. rewrite <- app_assoc. reflexivity. }
      destruct (suspend_queue c1 _ Hq1) as [arr [Hq2 _]].
      rewrite <- app_assoc in Hq2.
      destruct (IH key (suspend c1) _ Hq2 Hall') as (c' & ops & E & Hio & Hp & Hs).
      exists c', (Get x :: Put x :: Sleep :: ops).
      split; [exact E |]. split.
      { rewrite Hio, suspend_io. unfold c1. simpl.
        rewrite <- !app_assoc. reflexivity. }
      split; [simpl; f_equal; exact Hp | exact Hs].
    + set (c1 := Build_Client _ _ _).
      destruct (IH key c1 rest eq_refl Hall') as (c' & ops & E & Hio & Hp & Hs).
      exists c', (Get x :: ops).
      split; [exact E |]. split.
      { rewrite Hio. unfold c1. simpl. rewrite <- app_assoc. reflexivity. }
      split; [simpl; f_equal; exact Hp | exact Hs].
Qed.

(** C1, as the code has it.  For every queue and every schedule of the
    reader, the wait pops at most [attempts] frames and ends in one of
    three ways: it returns the first popped frame that has the awaited
    key, the last it popped; or it gives up, having popped [attempts]
    frames without the key; or it stays blocked (or, without a queue,
    raises), having popped fewer, none with the key.  So a popped frame
    that has the key is returned.  The frames it puts back at the tail
    are exactly the popped frames that lack the key and have ["tick"],
    in the order they were popped; a popped frame with neither key is
    not put back.  So the frames of the queue, with those the reader
    delivers over the batches that the wait consumes, are afterwards
    either in the queue or among the popped frames that were not put
    back: the returned one and those with neither key; with a queue the
    wait raises nothing, and it is blocked only on an empty queue, the
    reader gone or nothing more arriving.  When the awaited frame is
    already queued behind fewer than [attempts] frames, the queue is
    left with the frames behind it followed by the tick frames that
    were in front of it, in their original order. *)
Theorem await_key_first_match (key : string) (attempts : nat) (c : Client) :
  (exists ops,
     io (final (await_key key attempts c)) = io c ++ ops
     /\ (length (popped ops) <= attempts)%nat
     /\ requeued ops = List.filter (put_back key) (popped ops)
     /\ match await_key key attempts c with
        | Ret (Some data) _ =>
            has_key key data = true
            /\ exists before,
                 popped ops = before ++ [data] /\ Forall (lacks key) before
        | Ret None _ =>
            length (popped ops) = attempts /\ Forall (lacks key) (popped ops)
        | Raise _ _ | Blocked _ =>
            (length (popped ops) < attempts)%nat
            /\ Forall (lacks key) (popped ops)
        end
     /\ forall data,
          In data (popped ops) ->
          has_key key data = true ->
          exists c', await_key key attempts c = Ret (Some data) c')
  /\ (forall q,
         _recv_queue (api c) = Some q ->
         exists ops bs q',
           io (final (await_key key attempts c)) = io c ++ ops
           /\ inbound c = bs ++ inbound (final (await_key key attempts c))
           /\ _recv_queue (api (final (await_key key attempts c))) = Some q'
           /\ Permutation (q ++ delivered bs (api c))
                (q' ++ List.filter (fun data => negb (put_back key data))
                         (popped ops))
           /\ match await_key key attempts c with
              | Ret _ _ => True
              | Raise _ _ => False
              | Blocked c' =>
                  q' = []
                  /\ (inbound c' = []
                      \/ _reader_task (api c') <> Some TaskPending)
              end)
  /\ forall before data behind,
       _recv_queue (api c) = Some (before ++ data :: behind) ->
       Forall (lacks key) before ->
       has_key key data = true ->
       (length before < attempts)%nat ->
       exists c' tail,
         await_key key attempts c = Ret (Some data) c'
         /\ _recv_queue (api c') = Some (behind ++ tail)
         /\ sublist (List.filter (has_key "tick") before) tail
         /\ (inbound c = [] -> tail = List.filter (has_key "tick") before).
Proof.
  split; [| split].
  - destruct (await_key_spec key attempts c)
      as [ops (Hio & Hlen & _ & Hput & Hres)].
    exists ops. split; [exact Hio |]. split; [exact Hlen |].
    split; [exact Hput |]. split; [exact Hres |].
    intros data Hin Hk.
    destruct (await_key key attempts c) as [[found |] c' | e c' | c'].
    + destruct Hres as (_ & before & Hp & Hall).
      rewrite Hp in Hin. apply in_app_or in Hin.
      destruct Hin as [Hin | [-> | []]]; [| eauto].
      rewrite List.Forall_forall in Hall. specialize (Hall data Hin).
      unfold lacks in Hall. congruence.
    + destruct Hres as [_ Hall]. rewrite List.Forall_forall in Hall.
      specialize (Hall data Hin). unfold lacks in Hall. congruence.
    + destruct Hres as [_ Hall]. rewrite List.Forall_forall in Hall.
      specialize (Hall data Hin). unfold lacks in Hall. congruence.
    + destruct Hres as [_ Hall]. rewrite List.Forall_forall in Hall.
      specialize (Hall data Hin). unfold lacks in Hall. congruence.
  - intros q Hq.
    destruct (await_key_delivered key attempts c q Hq)
      as (ops & bs & q' & Hio & Hin & Hq' & HP & _ & Hres).
    exists ops, bs, q'. auto.
  - intros before data behind. apply await_key_found.
Qed.

(** ** Placing an order *)

Lemma ws_send_spec (request : Frame) (c : Client) :
  match ws_send request c with
  | Ret _ c' => io c' = io c ++ [Send request]
  | Raise _ c' | Blocked c' => c' = c
  end.
Proof.
  unfold ws_send. destruct (websocket (api c)) as [[[|]] |]; try reflexivity.
  apply suspend_io.
Qed.

(** A phase sends its one request and then only waits: what it sends
    is that request, and it pops at most [maxAttempts] frames. *)
Lemma phase_spec (request : Frame) (key : string) (c : Client) :
  let r := (ws_send request ;;; await_key key maxAttempts)%monad c in
  exists ops,
    io (final r) = io c ++ ops
    /\ (length (popped ops) <= maxAttempts)%nat
    /\ (sent ops = [request] \/ sent ops = [])
    /\ ((exists o c', r = Ret o c') -> sent ops = [request])
    /\ (forall c', r = Ret None c' ->
        length (popped ops) = maxAttempts /\ Forall (lacks key) (popped ops)).
Proof.
  cbv zeta. unfold bind.
  pose proof (ws_send_spec request c) as S.
  destruct (ws_send request c) as [[] c1 | e c1 | c1].
  2, 3: subst c1; exists []; simpl; rewrite app_nil_r;
        (split; [reflexivity |]); (split; [lia |]); (split; [by right |]);
        split; [intros (o & c' & E); discriminate | intros c' E; discriminate].
  destruct (await_key_spec key maxAttempts c1)
    as [ops (Hio & Hlen & Hsent & _ & Hres)].
  exists (Send request :: ops).
  rewrite Hio, S, <- app_assoc.
  change ([Send request] ++ ops) with (Send request :: ops).
  change (popped (Send request :: ops)) with (popped ops).
  change (sent (Send request :: ops)) with (request :: sent ops).
  rewrite Hsent.
  split; [reflexivity |]. split; [exact Hlen |]. split; [by left |].
  split; [reflexivity |].
  intros c' E. rewrite E in Hres. exact Hres.
Qed.

Lemma buy_contract_quote (symbol contract_type : string) (amount : Q)
    (c : Client) (ws : WebSocket) (q : list Frame) :
  websocket (api c) = Some ws ->
  _recv_queue (api c) = Some q ->
  buy_contract symbol contract_type amount 15 "s" c
  = match quote symbol contract_type amount 15 "s" c with
    | Ret None c' => Ret None c'
    | Ret (Some proposal) c' =>
        if has_key "error" proposal then Ret None c'
        else if negb (has_key "proposal" proposal) then Ret None c'
        else try_except (confirm proposal amount) (fun _ => ret None) c'
    | Raise (Exception _) c' => Ret None c'
    | r => r
    end.
Proof.
  intros Hw Hq. unfold buy_contract. rewrite Hw, Hq.
  unfold try_except, bind.
  destruct (quote symbol contract_type amount 15 "s" c)
    as [[proposal |] c' | [msg |] c' | c']; try reflexivity.
  destruct (has_key "error" proposal); [reflexivity |].
  destruct (has_key "proposal" proposal); reflexivity.
Qed.

(** The attempt budget of phase 1 exhausted: the order fails. *)
Lemma buy_contract_quote_timeout (symbol contract_type : string) (amount : Q)
    (c c' : Client) :
  websocket (api c) <> None ->
  _recv_queue (api c) <> None ->
  quote symbol contract_type amount 15 "s" c = Ret None c' ->
  buy_contract symbol contract_type amount 15 "s" c = Ret None c'.
Proof.
  intros Hw Hq E.
  destruct (websocket (api c)) as [ws |] eqn:Ew; [| congruence].
  destruct (_recv_queue (api c)) as [q |] eqn:Eq; [| congruence].
  rewrite (buy_contract_quote _ _ _ _ ws q Ew Eq), E. reflexivity.
Qed.

(** The reply of phase 1 carries an error: the order fails there. *)
Lemma buy_contract_quote_error (symbol contract_type : string) (amount : Q)
    (c c' : Client) (proposal : Frame) :
  websocket (api c) <> None ->
  _recv_queue (api c) <> None ->
  quote symbol contract_type amount 15 "s" c = Ret (Some proposal) c' ->
  has_key "error" proposal = true ->
  buy_contract symbol contract_type amount 15 "s" c = Ret None c'.
Proof.
  intros Hw Hq E He.
  destruct (websocket (api c)) as [ws |] eqn:Ew; [| congruence].
  destruct (_recv_queue (api c)) as [q |] eqn:Eq; [| congruence].
  rewrite (buy_contract_quote _ _ _ _ ws q Ew Eq), E, He. reflexivity.
Qed.

(** The attempt budget of phase 2 exhausted: the order fails. *)
Lemma buy_contract_purchase_timeout (symbol contract_type : string)
    (amount : Q) (c c1 c2 : Client) (proposal : Frame) (v id : json) :
  websocket (api c) <> None ->
  _recv_queue (api c) <> None ->
  quote symbol contract_type amount 15 "s" c = Ret (Some proposal) c1 ->
  has_key "error" proposal = false ->
  proposal !! "proposal"%string = Some v ->
  subscript v "id" = Some id ->
  purchase id amount c1 = Ret None c2 ->
  buy_contract symbol contract_type amount 15 "s" c = Ret None c2.
Proof.
  intros Hw Hq E He Hp Hid E2.
  destruct (websocket (api c)) as [ws |] eqn:Ew; [| congruence].
  destruct (_recv_queue (api c)) as [q |] eqn:Eq; [| congruence].
  rewrite (buy_contract_quote _ _ _ _ ws q Ew Eq), E, He.
  unfold has_key. rewrite Hp. simpl.
  unfold try_except, confirm, bind. rewrite Hp, Hid. simpl.
  rewrite E2. reflexivity.
Qed.

(** *** The budget exhausted *)

(** A phase whose request goes out with [maxAttempts] frames without
    the awaited key at the head of the queue gives up after popping
    these, whatever the reader adds behind them. *)
Lemma phase_exhausts (request : Frame) (key : string) (c : Client)
    (ws : WebSocket) (front rest : list Frame) :
  websocket (api c) = Some ws -> ws_open ws = true ->
  _recv_queue (api c) = Some (front ++ rest) ->
  length front = maxAttempts ->
  Forall (lacks key) front ->
  exists c' ops,
    (ws_send request ;;; await_key key maxAttempts)%monad c = Ret None c'
    /\ io c' = io c ++ Send request :: ops
    /\ popped ops = front
    /\ sent ops = [].
Proof.
  intros Hw Ho Hq Hlen Hall. unfold bind, ws_send. rewrite Hw, Ho.
  destruct (suspend_queue (log (Send request) c) _ Hq) as [arr [Hq1 _]].
  rewrite <- app_assoc in Hq1.
  destruct (await_key_exhausts front key _ _ Hq1 Hall)
    as (c' & ops & E & Hio & Hp & Hs).
  rewrite <- Hlen, E. exists c', ops.
  split; [reflexivity |]. split; [| split; assumption].
  rewrite Hio, suspend_io. simpl. rewrite <- app_assoc. reflexivity.
Qed.

(** Whatever the queue and the reader, a phase that has popped
    [maxAttempts] frames, none with the awaited key, returns [None]. *)
Lemma phase_gives_up (request : Frame) (key : string) (c : Client)
    (ops : list IOEvent) :
  let r := (ws_send request ;;; await_key key maxAttempts)%monad c in
  io (final r) = io c ++ ops ->
  length (popped ops) = maxAttempts ->
  Forall (lacks key) (popped ops) ->
  r = Ret None (final r).
Proof.
  cbv zeta. unfold bind.
  pose proof (ws_send_spec request c) as S.
  destruct (ws_send request c) as [[] c1 | e c1 | c1]; cbv beta iota.
  2, 3: subst c1; cbn [final]; intros Hio Hlen _; exfalso;
        rewrite <- (app_nil_r (io c)) in Hio at 1;
        apply app_inv_head in Hio; subst ops; discriminate Hlen.
  destruct (await_key_spec key maxAttempts c1)
    as [ops1 (Hio1 & _ & _ & _ & Hres)].
  intros Hio Hlen Hall.
  rewrite Hio1, S, <- app_assoc in Hio. apply app_inv_head in Hio.
  subst ops. change (popped ([Send request] ++ ops1)) with (popped ops1) in *.
  destruct (await_key key maxAttempts c1) as [[data |] c2 | e c2 | c2].
  - exfalso. destruct Hres as (Hk & before & Hp & _).
    rewrite Hp in Hall. apply Forall_app in Hall. destruct Hall as [_ Hall].
    inversion Hall as [| ? ? Hd _]; subst. unfold lacks in Hd. congruence.
  - reflexivity.
  - exfalso. destruct Hres as [Hlt _]. lia.
  - exfalso. destruct Hres as [Hlt _]. lia.
Qed.

(** With [maxAttempts] frames without ["proposal"] at the head of the
    queue, the order fails: in phase 1, or at once when there is no
    transport or the transport is closed. *)
Lemma buy_contract_exhausts_quote (symbol contract_type : string) (amount : Q)
    (c : Client) (front rest : list Frame) :
  _recv_queue (api c) = Some (front ++ rest) ->
  length front = maxAttempts ->
  Forall (lacks "proposal") front ->
  exists c', buy_contract symbol contract_type amount 15 "s" c = Ret None c'.
Proof.
  intros Hq Hlen Hall.
  destruct (websocket (api c)) as [ws |] eqn:Hw.
  2: { unfold buy_contract. rewrite Hw. eauto. }
  rewrite (buy_contract_quote _ _ _ _ ws _ Hw Hq).
  destruct (ws_open ws) eqn:Ho.
  - destruct (phase_exhausts
                (proposal_request symbol contract_type amount 15 "s")
                "proposal" c ws front rest Hw Ho Hq Hlen Hall)
      as (c' & ops & E & _).
    change (quote symbol contract_type amount 15 "s" c = Ret None c') in E.
    rewrite E. eauto.
  - unfold quote, bind, ws_send. rewrite Hw, Ho. eauto.
Qed.

(** With the reply to the proposal at the head of the queue and
    [maxAttempts] frames without ["buy"] behind it, the order fails:
    in phase 2, or before when the transport is lost. *)
Lemma buy_contract_exhausts_purchase (symbol contract_type : string)
    (amount : Q) (c : Client) (proposal : Frame) (v id : json)
    (front rest : list Frame) :
  _recv_queue (api c) = Some (proposal :: front ++ rest) ->
  has_key "error" proposal = false ->
  proposal !! "proposal"%string = Some v ->
  subscript v "id" = Some id ->
  length front = maxAttempts ->
  Forall (lacks "buy") front ->
  exists c', buy_contract symbol contract_type amount 15 "s" c = Ret None c'.
Proof.
  intros Hq He Hp Hid Hlen Hall.
  destruct (websocket (api c)) as [ws |] eqn:Hw.
  2: { unfold buy_contract. rewrite Hw. eauto. }
  rewrite (buy_contract_quote _ _ _ _ ws _ Hw Hq).
  destruct (ws_open ws) eqn:Ho.
  2: { unfold quote, bind, ws_send. rewrite Hw, Ho. eauto. }
  unfold quote, bind at 1, ws_send. rewrite Hw, Ho.
  destruct (suspend_queue
              (log (Send (proposal_request symbol contract_type amount 15 "s"))
                 c) _ Hq) as [arr [Hq1 _]].
  set (c1 := suspend _) in *. simpl in Hq1.
  assert (Hk : has_key "proposal" proposal = true)
    by (unfold has_key; rewrite Hp; reflexivity).
  unfold maxAttempts at 1. rewrite await_key_S.
  rewrite (queue_get_head _ _ _ Hq1), Hk. cbv beta iota.
  rewrite He, Hk. simpl negb. cbv iota.
  set (c2 := Build_Client _ _ _).
  assert (Hq2 : _recv_queue (api c2) = Some (front ++ (rest ++ arr))).
  { unfold c2. simpl. rewrite <- app_assoc. reflexivity. }
  unfold try_except, confirm, bind at 1. rewrite Hp, Hid. simpl expect.
  unfold ret at 1. unfold bind at 1.
  destruct (websocket (api c2)) as [ws2 |] eqn:Hw2.
  2: { unfold purchase, bind, ws_send. rewrite Hw2. eauto. }
  destruct (ws_open ws2) eqn:Ho2.
  2: { unfold purchase, bind, ws_send. rewrite Hw2, Ho2. eauto. }
  destruct (phase_exhausts (buy_request id amount) "buy" c2 ws2 front
              (rest ++ arr) Hw2 Ho2 Hq2 Hlen Hall) as (c3 & ops & E & _).
  change (purchase id amount c2 = Ret None c3) in E.
  rewrite E. eauto.
Qed.

(** ** The session keeps its books *)

Lemma position_trace_snoc (out : list Output) (o : Output) :
  position_trace (out ++ [o]) = trace_step (position_trace out) o.
Proof. unfold position_trace. rewrite fold_left_app. reflexivity. Qed.

Lemma ledger_sum_snoc (rows : list TradeRecord) (r : TradeRecord) :
  ledger_sum (rows ++ [r]) == ledger_sum rows + tr_profit r.
Proof.
  induction rows as [| x rows IH]; simpl.
  - lra.
  - rewrite IH. lra.
Qed.

(** *** Preservation through the constructs of the monad *)

Lemma preserves_ret {S A} (I : S -> Prop) (a : A) : preserves I (ret a).
Proof. intros s H. exact H. Qed.

Lemma preserves_raise {S A} (I : S -> Prop) (e : exn) :
  preserves I (@raise S A e).
Proof. intros s H. exact H. Qed.

Lemma preserves_expect {S A} (I : S -> Prop) (msg : string) (o : option A) :
  preserves I (@expect S A msg o).
Proof. destruct o; intros s H; exact H. Qed.

Lemma preserves_gets {S A} (I : S -> Prop) (f : S -> A) :
  preserves I (gets f).
Proof. intros s H. exact H. Qed.

Lemma preserves_modify {S} (I : S -> Prop) (f : S -> S) :
  (forall s, I s -> I (f s)) -> preserves I (modify f).
Proof. intros Hf s H. apply Hf, H. Qed.

Lemma final_bind {S A B} (m : M S A) (k : A -> M S B) (s : S) :
  final (bind m k s)
  = match m s with
    | Ret a s' => final (k a s')
    | Raise _ s' | Blocked s' => s'
    end.
Proof. unfold bind. destruct (m s); reflexivity. Qed.

Lemma preserves_bind {S A B} (I : S -> Prop) (m : M S A) (k : A -> M S B) :
  preserves I m -> (forall a, preserves I (k a)) -> preserves I (bind m k).
Proof.
  intros Hm Hk s H. rewrite final_bind. specialize (Hm s H).
  destruct (m s); simpl in Hm; auto. apply Hk, Hm.
Qed.

(** The same at one state, when what [m] does there is known. *)
Lemma preserves_bind_at {S A B} (I : S -> Prop) (m : M S A) (k : A -> M S B)
    (s : S) :
  I (final (m s)) -> (forall a, preserves I (k a)) -> I (final (bind m k s)).
Proof.
  intros Hm Hk. rewrite final_bind.
  destruct (m s); simpl in Hm; auto. apply Hk, Hm.
Qed.

(** Reading the state and going on with what was read. *)
Lemma preserves_bind_gets {S A B} (I : S -> Prop) (f : S -> A)
    (k : A -> M S B) :
  (forall s, I s -> I (final (k (f s) s))) -> preserves I (bind (gets f) k).
Proof. intros Hk s H. apply Hk, H. Qed.

Lemma preserves_try_except {S A} (I : S -> Prop) (m : M S A)
    (h : string -> M S A) :
  preserves I m -> (forall e, preserves I (h e)) -> preserves I (try_except m h).
Proof.
  intros Hm Hh s H. unfold try_except. specialize (Hm s H).
  destruct (m s) as [a s' | [msg |] s' | s']; simpl in *; auto.
  apply Hh, Hm.
Qed.

Lemma preserves_try_finally {S A} (I : S -> Prop) (m : M S A) (h : M S unit) :
  preserves I m -> preserves I h -> preserves I (try_finally m h).
Proof.
  intros Hm Hh s H. unfold try_finally. specialize (Hm s H).
  destruct (m s) as [a s' | e s' | s']; simpl in *; auto.
  - apply (preserves_bind I h (fun _ => ret a)); auto using preserves_ret.
  - apply (preserves_bind I h (fun _ => raise e)); auto using preserves_raise.
Qed.

(** A call on the connection preserves what does not depend on it. *)
Lemma preserves_on_connection {A} (I : Session -> Prop) (m : M Client A) :
  (forall s c, I s -> I (set_connection c s)) ->
  preserves I (on_connection m).
Proof.
  intros Hc s H. unfold on_connection.
  destruct (m (connection s)); simpl; apply Hc, H.
Qed.

(** *** The supply of frames

    The consumer takes frames off the supply and puts back only frames
    it has taken; the reader turns arriving messages into queued frames.
    So no method of the client adds to the supply, and the feed takes
    one frame off it at each pull. *)

Lemma put_if_queue_queued (data : Frame) (a : DerivAPI) :
  (queued (put_if_queue data a) <= S (queued a))%nat.
Proof.
  unfold put_if_queue, queued.
  destruct (_recv_queue a) eqn:E; simpl; rewrite ?E, ?length_app; simpl; lia.
Qed.

Lemma _read_loop_queued (evs : list RecvEvent) (a : DerivAPI) :
  (queued (fst (_read_loop evs a)) <= queued a + length evs)%nat.
Proof.
  revert a. induction evs as [| ev evs IH]; intros a; simpl.
  - destruct (websocket a); simpl; lia.
  - destruct (websocket a); [| simpl; lia].
    destruct ev as [raw | reason |]; simpl.
    + specialize (IH (put_if_queue (decode raw) a)).
      pose proof (put_if_queue_queued (decode raw) a). lia.
    + pose proof (put_if_queue_queued {[ "error"%string := JStr reason ]}
                    (set_websocket (Some {| ws_open := false |}) a)) as P.
      change (queued (set_websocket (Some {| ws_open := false |}) a))
        with (queued a) in P. lia.
    + lia.
Qed.

Lemma run_reader_queued (b : list RecvEvent) (a : DerivAPI) :
  (queued (run_reader b a) <= queued a + length b)%nat.
Proof.
  unfold run_reader. destruct (_reader_task a) as [[|] |]; try lia.
  pose proof (_read_loop_queued b a) as H.
  destruct (_read_loop b a) as [a' t]. exact H.
Qed.

Lemma suspend_supply (c : Client) : (supply (suspend c) <= supply c)%nat.
Proof.
  unfold suspend.
  destruct (inbound c) as [| b rest] eqn:Hi;
    destruct (_reader_task (api c)) as [[|] |];
    unfold supply; simpl; rewrite ?Hi; simpl; try lia.
  pose proof (run_reader_queued b (api c)). rewrite length_app. lia.
Qed.

Lemma wait_get_supply (inb : list (list RecvEvent)) (a : DerivAPI)
    (l : list IOEvent) :
  match wait_get inb a l with
  | Ret _ c' => (S (supply c') <= queued a + length (concat inb))%nat
  | Raise _ c' | Blocked c' =>
      (supply c' <= queued a + length (concat inb))%nat
  end.
Proof.
  revert a. induction inb as [| b inb IH]; intros a; simpl.
  - destruct (_recv_queue a) as [[| data q] |] eqn:Hq; simpl;
      unfold supply, queued; simpl; rewrite ?Hq; simpl; lia.
  - destruct (_recv_queue a) as [[| data q] |] eqn:Hq.
    + destruct (_reader_task a) as [[|] |] eqn:Ht.
      * specialize (IH (run_reader b a)).
        pose proof (run_reader_queued b a) as R.
        rewrite length_app.
        destruct (wait_get inb (run_reader b a) l); lia.
      * unfold supply, queued; simpl; rewrite ?Hq; simpl; lia.
      * unfold supply, queued; simpl; rewrite ?Hq; simpl; lia.
    + unfold supply, queued; simpl; rewrite ?Hq; simpl; lia.
    + unfold supply, queued; simpl; rewrite ?Hq; simpl; lia.
Qed.

Lemma queue_get_supply (c : Client) :
  match queue_get c with
  | Ret _ c' => (S (supply c') <= supply c)%nat
  | Raise _ c' | Blocked c' => (supply c' <= supply c)%nat
  end.
Proof. apply wait_get_supply. Qed.

Lemma queue_put_supply (data : Frame) (c : Client) :
  (supply (final (queue_put data c)) <= S (supply c))%nat.
Proof.
  unfold queue_put. destruct (_recv_queue (api c)) eqn:Hq; simpl; [| lia].
  unfold supply, queued. simpl. rewrite Hq, length_app. simpl. lia.
Qed.

Lemma await_key_supply (key : string) (attempts : nat) (c : Client) :
  (supply (final (await_key key attempts c)) <= supply c)%nat.
Proof.
  revert c. induction attempts as [| n IH]; intros c; [simpl; lia |].
  rewrite await_key_S.
  pose proof (queue_get_supply c) as G.
  destruct (queue_get c) as [data c1 | e c1 | c1]; simpl; try lia.
  destruct (has_key key data); [simpl; lia |].
  destruct (has_key "tick" data).
  - pose proof (queue_put_supply data c1) as P.
    destruct (queue_put data c1) as [[] c2 | e c2 | c2]; simpl in *; try lia.
    specialize (IH (suspend (log Sleep c2))).
    pose proof (suspend_supply (log Sleep c2)) as S.
    change (supply (log Sleep c2)) with (supply c2) in S. lia.
  - specialize (IH c1). lia.
Qed.

Lemma shrinks_await_key (key : string) (attempts : nat) :
  shrinks (await_key key attempts).
Proof.
  intros n c H. pose proof (await_key_supply key attempts c). simpl in *. lia.
Qed.

Lemma shrinks_ws_send (request : Frame) : shrinks (ws_send request).
Proof.
  intros n c H. unfold ws_send.
  destruct (websocket (api c)) as [[[|]] |]; simpl; try exact H.
  pose proof (suspend_supply (log (Send request) c)) as S.
  change (supply (log (Send request) c)) with (supply c) in S. lia.
Qed.

(** Structural steps of a proof that a method of the client does not
    add to the supply. *)
Ltac shrinks_steps :=
  repeat match goal with
  | |- shrinks _ => intros ?
  | |- preserves _ (bind _ _) => apply preserves_bind; [| intros ?]
  | |- preserves _ (ret _) => apply preserves_ret
  | |- preserves _ (raise _) => apply preserves_raise
  | |- preserves _ (expect _ _) => apply preserves_expect
  | |- preserves _ (gets _) => apply preserves_gets
  | |- preserves _ (ws_send _) => apply shrinks_ws_send
  | |- preserves _ (await_key _ _) => apply shrinks_await_key
  | |- preserves _ (try_except _ _) => apply preserves_try_except; [| intros ?]
  | |- preserves _ (if ?b then _ else _) => destruct b
  | |- preserves _ (match ?x with _ => _ end) => destruct x
  end.

Lemma shrinks_quote (symbol contract_type : string) (amount duration : Q)
    (duration_unit : string) :
  shrinks (quote symbol contract_type amount duration duration_unit).
Proof. unfold quote. shrinks_steps. Qed.

Lemma shrinks_purchase (id : json) (amount : Q) : shrinks (purchase id amount).
Proof. unfold purchase. shrinks_steps. Qed.

Lemma shrinks_contract_info (contract : json) : shrinks (contract_info contract).
Proof. unfold contract_info. shrinks_steps. Qed.

Lemma shrinks_confirm (proposal : Frame) (amount : Q) :
  shrinks (confirm proposal amount).
Proof.
  unfold confirm. intros n.
  apply preserves_bind; [apply preserves_expect |]. intros id.
  apply preserves_bind; [apply shrinks_purchase |]. intros [reply |].
  - destruct (has_key "error" reply); [apply preserves_ret |].
    destruct (reply !! "buy"%string); [| apply preserves_ret].
    apply preserves_bind; [apply shrinks_contract_info |].
    intros; apply preserves_ret.
  - apply preserves_ret.
Qed.

Lemma shrinks_buy_contract (symbol contract_type : string)
    (amount duration : Q) (duration_unit : string) :
  shrinks (buy_contract symbol contract_type amount duration duration_unit).
Proof.
  intros n c H. unfold buy_contract.
  destruct (websocket (api c)); [| exact H].
  destruct (_recv_queue (api c)); [| exact H].
  revert c H.
  apply (preserves_try_except (fun c => (supply c <= n)%nat));
    [| intros; apply preserves_ret].
  apply preserves_bind; [apply shrinks_quote |]. intros [proposal |].
  - destruct (has_key "error" proposal); [apply preserves_ret |].
    destruct (negb _); [apply preserves_ret | apply shrinks_confirm].
  - apply preserves_ret.
Qed.

Lemma shrinks_subscribe (payload : Frame) : shrinks (subscribe payload).
Proof.
  intros n c H. unfold subscribe.
  destruct (websocket (api c)); [| exact H].
  revert c H.
  apply (preserves_try_except (fun c => (supply c <= n)%nat));
    [| intros; apply preserves_ret].
  apply preserves_bind; [apply shrinks_ws_send |].
  intros; apply preserves_ret.
Qed.

Lemma shrinks_close : shrinks close.
Proof.
  intros n c H. unfold close, supply, queued in *. simpl.
  destruct (websocket (api c)); [destruct (_reader_task (api c)) |];
    simpl; lia.
Qed.

(** A pull of the feed that returns has taken a frame off the supply. *)
Lemma _event_generator_supply (c : Client) :
  match _event_generator c with
  | Ret _ c' => (S (supply c') <= supply c)%nat
  | Raise _ c' | Blocked c' => (supply c' <= supply c)%nat
  end.
Proof.
  unfold _event_generator.
  destruct (events (api c)) as [[|] |]; simpl; try lia.
  - set (c1 := on_api _ c).
    assert (E : supply c1 = supply c).
    { unfold c1, supply, queued. simpl.
      destruct (_recv_queue (api c)) eqn:Hq; simpl; rewrite ?Hq; reflexivity. }
    pose proof (queue_get_supply c1) as G. rewrite E in G. exact G.
  - apply queue_get_supply.
Qed.

Lemma shrinks_event_generator : shrinks _event_generator.
Proof.
  intros n c H. pose proof (_event_generator_supply c) as G.
  destruct (_event_generator c); simpl in *; lia.
Qed.

(** *** The books *)

Lemma consistent_ext (s s' : Session) :
  position (self s') = position (self s) ->
  entry_signals (self s') = entry_signals (self s) ->
  current_stake (self s') = current_stake (self s) ->
  balance (self s') = balance (self s) ->
  initial_balance (self s') = initial_balance (self s) ->
  history_file (self s') = history_file (self s) ->
  total_trades (self s') = total_trades (self s) ->
  winning_trades (self s') = winning_trades (self s) ->
  losing_trades (self s') = losing_trades (self s) ->
  position_trace (stdout s') = position_trace (stdout s) ->
  consistent s -> consistent s'.
Proof.
  unfold consistent, is_open.
  intros -> -> -> -> -> -> -> -> -> ->. auto.
Qed.

(** A change that leaves the trader's books and the output alone. *)
Ltac books_unchanged :=
  intros; eapply consistent_ext; [.. | eassumption]; reflexivity.

Lemma consistent_set_connection (s : Session) (c : Client) :
  consistent s -> consistent (set_connection c s).
Proof. books_unchanged. Qed.

Lemma consistent_set_tick_count (s : Session) (n : nat) :
  consistent s -> consistent (set_tick_count n s).
Proof. books_unchanged. Qed.

Lemma consistent_set_last_action_time (s : Session) (t : Q) :
  consistent s -> consistent (set_last_action_time t s).
Proof. books_unchanged. Qed.

Lemma consistent_set_start_time (s : Session) (t : Q) :
  consistent s -> consistent (set_start_time t s).
Proof. books_unchanged. Qed.

Lemma trace_step_silent (st : option bool) (o : Output) :
  silent o -> trace_step st o = st.
Proof.
  destruct st as [[|] |], o; simpl; intros H; try reflexivity; contradiction.
Qed.

Lemma consistent_print (s : Session) (o : Output) :
  silent o -> consistent s -> consistent (print o s).
Proof.
  intros Ho. eapply consistent_ext; try reflexivity.
  simpl. rewrite position_trace_snoc. apply trace_step_silent, Ho.
Qed.

Lemma preserves_now : preserves consistent now.
Proof. intros s. books_unchanged. Qed.

Lemma preserves_get_signals (price : Q) : preserves consistent (get_signals price).
Proof. intros s. books_unchanged. Qed.

Lemma preserves_notify (o : Output) :
  silent o -> preserves consistent (notify o).
Proof.
  intros Ho s H. unfold notify. destruct (notifier (self s)); [| exact H].
  simpl. apply consistent_set_connection, consistent_print; assumption.
Qed.

(** Announcing an order while no position is open. *)
Lemma consistent_executing (s : Session) (t : ContractType) (price stake : Q) :
  position (self s) = None -> consistent s ->
  consistent (print (PrintExecuting t price stake) s).
Proof.
  intros Hp H.
  eapply consistent_ext; [.. | exact H]; try reflexivity.
  simpl. rewrite position_trace_snoc.
  destruct H as [Ht _]. rewrite Ht. unfold is_open. rewrite Hp. reflexivity.
Qed.

Lemma enter_consistent (symbol : string) (t : ContractType)
    (price time : Q) (signals : Signals) (s : Session) :
  consistent s -> position (self s) = None ->
  consistent (final (enter symbol t price time signals s)).
Proof.
  intros H Hp. unfold enter.
  unfold bind, gets, modify, on_connection. simpl.
  set (stake := calculate_stake (self s) (volatility signals) 3).
  pose proof (consistent_executing s t price stake Hp H) as H1.
  set (s1 := print (PrintExecuting t price stake) s) in *.
  destruct (buy_contract _ _ _ _ _ _) as [contract c | e c | c]; simpl;
    try (apply consistent_set_connection; exact H1).
  destruct (truthy contract).
  2: { simpl. apply consistent_print; [exact I |].
       apply consistent_set_connection; exact H1. }
  destruct (match contract with Some d => d !! "contract_id"%string | None => None end)
    as [id |]; simpl.
  2: { apply consistent_set_connection; exact H1. }
  apply preserves_notify; [exact I |].
  destruct H1 as (Ht & _ & Hb & Hn & Hw & Hrows).
  unfold consistent, is_open in *. simpl in *.
  rewrite Hp in Ht.
  rewrite position_trace_snoc, Ht. simpl.
  split; [reflexivity |]. split.
  { intros _. split; [eexists; reflexivity |].
    exists stake. split; [reflexivity |].
    apply calculate_stake_lower. }
  auto.
Qed.

(** What a settlement does when nothing is missing: the account moves
    by the signed amount, one row joins the ledger, the position is
    cleared. *)
Lemma settle_returns (ty : ContractType) (price time : Q) (s : Session)
    (stake : Q) (sig : Signals) :
  current_stake (self s) = Some stake ->
  ~ stake == 0 ->
  entry_signals (self s) = Some sig ->
  ~ entry_price (self s) == 0 ->
  let profit := settlement_amount ty (entry_price (self s)) price stake in
  let won := Qgtb profit 0 in
  exists s',
    settle ty price time s = Ret tt s'
    /\ position (self s') = None
    /\ balance (self s') = balance (self s) + profit
    /\ initial_balance (self s') = initial_balance (self s)
    /\ total_trades (self s') = S (total_trades (self s))
    /\ winning_trades (self s')
       = (if won then S (winning_trades (self s)) else winning_trades (self s))
    /\ losing_trades (self s')
       = (if won then losing_trades (self s) else S (losing_trades (self s)))
    /\ consecutive_losses (self s')
       = (if won then O else S (consecutive_losses (self s)))
    /\ history_file (self s')
       = history_file (self s)
         ++ [{| tr_time := time; tr_type := ty;
                tr_entry_price := entry_price (self s);
                tr_exit_price := price; tr_stake := stake; tr_won := won;
                tr_profit := profit; tr_signals := sig;
                tr_balance := balance (self s) + profit |}]
    /\ stdout s'
       = stdout s ++ PrintResult won (Qabs profit)
           :: (if notifier (self s) then [NotifyClosed ty stake profit] else [])
           ++ [PrintBalance (balance (self s) + profit)].
Proof.
  intros Hs Hs0 Hsig He. cbv zeta.
  unfold settle, bind, gets. rewrite Hs, Hsig.
  destruct (Qeq_bool (entry_price (self s)) 0) eqn:E0.
  { apply Qeq_bool_iff in E0. contradiction. }
  destruct (Qeq_bool stake 0) eqn:E1.
  { apply Qeq_bool_iff in E1. contradiction. }
  unfold settlement_amount. cbv zeta. simpl.
  rewrite ?E0, ?E1. unfold notify. simpl.
  destruct (notifier (self s)); simpl; eexists;
    (split; [reflexivity |]); simpl; rewrite <- ?app_assoc;
    repeat split; reflexivity.
Qed.

Lemma position_trace_app (out out' : list Output) :
  position_trace (out ++ out') = fold_left trace_step out' (position_trace out).
Proof. unfold position_trace. apply fold_left_app. Qed.

Lemma settle_consistent (ty : ContractType) (price time : Q) (s : Session) :
  consistent s -> position (self s) = Some ty ->
  consistent (final (settle ty price time s)).
Proof.
  intros H Hp. pose proof H as Hall.
  destruct H as (Ht & Hopen & Hb & Hn & Hw & Hrows).
  assert (Ho : is_open s = true) by (unfold is_open; rewrite Hp; reflexivity).
  destruct (Hopen Ho) as [[sig Hsig] [stake [Hs Hge]]].
  destruct (Qeq_bool (entry_price (self s)) 0) eqn:E0.
  { unfold settle, bind, gets. rewrite E0. exact Hall. }
  assert (He : ~ entry_price (self s) == 0).
  { intros E. apply Qeq_bool_iff in E. congruence. }
  assert (Hs0 : ~ stake == 0) by lra.
  destruct (settle_returns ty price time s stake sig Hs Hs0 Hsig He)
    as [s' (E & Ep & Ebal & Eini & Etot & Ewin & Elos & _ & Ehist & Eout)].
  rewrite E. simpl.
  unfold consistent, is_open.
  rewrite Ep, Ebal, Eini, Etot, Ewin, Elos, Ehist, Eout.
  split; [| split; [discriminate | split; [| split; [| split]]]].
  - rewrite position_trace_app, Ht, Ho.
    destruct (notifier (self s)); reflexivity.
  - rewrite ledger_sum_snoc. simpl. rewrite Hb. ring.
  - rewrite length_app. simpl. lia.
  - destruct (Qgtb _ 0); lia.
  - apply Forall_app. split; [exact Hrows |].
    constructor; [| constructor]. split; reflexivity.
Qed.

Lemma preserves_print_consistent (o : Output) :
  silent o -> preserves consistent (modify (print o)).
Proof. intros Ho. apply preserves_modify. intros. now apply consistent_print. Qed.

Lemma read_tick_consistent (response : Frame) :
  preserves consistent (read_tick response).
Proof.
  unfold read_tick.
  apply preserves_bind.
  { apply preserves_modify. intros. now apply consistent_set_tick_count. }
  intros _.
  repeat (apply preserves_bind; [apply preserves_expect |]; intros ?).
  apply preserves_bind; [apply preserves_get_signals |]. intros signals.
  apply preserves_bind; [apply preserves_gets |]. intros n.
  apply preserves_bind; [| intros; apply preserves_ret].
  destruct (_ =? _)%nat; [| apply preserves_ret].
  apply preserves_bind; [apply preserves_now |]. intros _.
  now apply preserves_print_consistent.
Qed.

Lemma trade_consistent (symbol : string) (price time : Q) (signals : Signals) :
  preserves consistent (trade symbol price time signals).
Proof.
  unfold trade.
  apply preserves_bind; [apply preserves_now |]. intros t.
  apply preserves_bind; [apply preserves_gets |]. intros last.
  apply preserves_bind_gets. intros s H.
  destruct (position (self s)) as [ty |] eqn:Hp.
  - rewrite final_bind. simpl. rewrite final_bind.
    destruct (entry_time (self s)); simpl; [| exact H].
    destruct (Qgtb _ 20); [| exact H].
    apply settle_consistent; assumption.
  - destruct (Qgtb _ 25); [| exact H].
    destruct (if Qltb _ 30 then _ else _) as [ct |]; [| exact H].
    rewrite final_bind. simpl.
    apply enter_consistent; [| exact Hp].
    apply consistent_print; [exact I | exact H].
Qed.

Lemma time_up_consistent (duration_minutes : Q) :
  preserves consistent (time_up duration_minutes).
Proof.
  unfold time_up.
  apply preserves_bind; [apply preserves_now |]. intros t.
  apply preserves_bind; [apply preserves_gets |]. intros start.
  destruct (Qgeb _ _); [| apply preserves_ret].
  apply preserves_bind; [| intros; apply preserves_ret].
  now apply preserves_print_consistent.
Qed.

Lemma tick_callback_consistent (symbol : string) (duration_minutes : Q)
    (response : Frame) :
  preserves consistent (tick_callback symbol duration_minutes response).
Proof.
  unfold tick_callback.
  destruct (negb _ || negb _); [apply preserves_ret |].
  apply preserves_bind; [apply read_tick_consistent |].
  intros [[price time] signals].
  apply preserves_bind; [apply trade_consistent |].
  intros _. apply time_up_consistent.
Qed.

Lemma preserves_on_connection_consistent {A} (m : M Client A) :
  preserves consistent (on_connection m).
Proof.
  apply preserves_on_connection. intros. now apply consistent_set_connection.
Qed.

Lemma events_loop_consistent (symbol : string) (duration_minutes : Q)
    (fuel : nat) :
  preserves consistent (events_loop symbol duration_minutes fuel).
Proof.
  induction fuel as [| n IH]; simpl.
  - intros s H. exact H.
  - apply preserves_bind; [apply preserves_on_connection_consistent |].
    intros response.
    apply preserves_bind; [apply tick_callback_consistent |].
    intros [|]; [apply preserves_ret | exact IH].
Qed.

Lemma print_summary_consistent : preserves consistent print_summary.
Proof.
  intros s H. unfold print_summary.
  destruct (Qeq_bool _ 0); simpl;
    repeat (apply consistent_print; [exact I |]); exact H.
Qed.

Lemma session_body_consistent (symbol : string) (duration_minutes : Q) :
  preserves consistent (session_body symbol duration_minutes).
Proof.
  unfold session_body.
  apply preserves_bind; [apply preserves_on_connection_consistent |].
  intros ok. destruct (negb ok).
  { apply preserves_bind; [now apply preserves_print_consistent |].
    intros _. apply preserves_on_connection_consistent. }
  apply preserves_bind; [apply preserves_now |]. intros t0.
  apply preserves_bind.
  { apply preserves_modify. intros. now apply consistent_set_start_time. }
  intros _. apply preserves_bind.
  { apply preserves_modify. intros. now apply consistent_set_tick_count. }
  intros _. apply preserves_bind; [apply preserves_now |]. intros t1.
  apply preserves_bind.
  { apply preserves_modify. intros. now apply consistent_set_last_action_time. }
  intros _. apply preserves_bind; [apply preserves_gets |]. intros [g |].
  - apply preserves_bind; [apply preserves_gets |]. intros s0.
    apply events_loop_consistent.
  - apply preserves_bind; [now apply preserves_print_consistent |].
    intros _. apply preserves_on_connection_consistent.
Qed.

Lemma run_consistent (symbol : string) (duration_minutes : Q)
    (model_ok telegram_ok : bool) (dial : option WebSocket) :
  preserves consistent
    (run symbol duration_minutes model_ok telegram_ok dial).
Proof.
  unfold run.
  apply preserves_bind.
  { destruct model_ok; [apply preserves_ret | apply preserves_raise]. }
  intros _. apply preserves_bind.
  { apply preserves_modify. books_unchanged. }
  intros _. apply preserves_bind.
  { apply preserves_modify. intros. now apply consistent_set_connection. }
  intros _. apply preserves_bind; [apply preserves_on_connection_consistent |].
  intros connected. destruct (negb connected).
  { now apply preserves_print_consistent. }
  apply preserves_bind; [apply preserves_on_connection_consistent |].
  intros authorized. destruct (negb authorized).
  { apply preserves_bind; [now apply preserves_print_consistent |].
    intros _. apply preserves_on_connection_consistent. }
  unfold guarded_session. apply preserves_try_finally.
  - apply preserves_try_except; [apply session_body_consistent |].
    intros e. now apply preserves_print_consistent.
  - apply preserves_bind; [apply preserves_on_connection_consistent |].
    intros _. apply print_summary_consistent.
Qed.

(** *** What [read_tick] and [time_up] leave alone *)

(** Structural steps of a preservation proof; what is left are the
    primitive changes of the state. *)
Ltac preserves_steps :=
  repeat match goal with
  | |- preserves _ (bind _ _) => apply preserves_bind; [| intros ?]
  | |- preserves _ (ret _) => apply preserves_ret
  | |- preserves _ (raise _) => apply preserves_raise
  | |- preserves _ (expect _ _) => apply preserves_expect
  | |- preserves _ (gets _) => apply preserves_gets
  | |- preserves _ (modify _) => apply preserves_modify; intros ? ?
  | |- preserves _ (on_connection _) =>
      apply preserves_on_connection; intros ? ? ?
  | |- preserves _ (if ?b then _ else _) => destruct b
  | |- preserves _ (match ?x with _ => _ end) => destruct x
  end.

Lemma read_tick_connection (response : Frame) (c : Client) :
  preserves (fun s => connection s = c) (read_tick response).
Proof.
  unfold read_tick. preserves_steps; try assumption;
    intros s H; exact H.
Qed.

Lemma read_tick_same_books (response : Frame) (s0 : Session) :
  preserves (same_books s0) (read_tick response).
Proof.
  unfold read_tick. preserves_steps; try assumption;
    intros s H; exact H.
Qed.

Lemma time_up_same_books (duration_minutes : Q) (s0 : Session) :
  preserves (same_books s0) (time_up duration_minutes).
Proof.
  unfold time_up. preserves_steps; try assumption;
    intros s H; exact H.
Qed.

Lemma same_books_refl (s : Session) : same_books s s.
Proof. split; reflexivity. Qed.

Lemma same_books_fields (s0 s : Session) :
  same_books s0 s ->
  account (self s) = account (self s0)
  /\ position (self s) = position (self s0)
  /\ entry_price (self s) = entry_price (self s0)
  /\ contract_id (self s) = contract_id (self s0)
  /\ current_stake (self s) = current_stake (self s0)
  /\ history_file (self s) = history_file (self s0)
  /\ last_action_time s = last_action_time s0.
Proof.
  intros [H Hl]. unfold account, set_indicators in *.
  destruct (self s), (self s0). simpl in *.
  inversion H; subst. repeat split; assumption.
Qed.

(** *** An order that fails *)

Lemma enter_order_fails (symbol : string) (ct : ContractType) (price time : Q)
    (signals : Signals) (s : Session) (c' : Client) :
  buy_contract symbol (contract_type_str ct)
    (calculate_stake (self s) (volatility signals) 3) 15 "s" (connection s)
  = Ret None c' ->
  exists s',
    enter symbol ct price time signals s = Ret tt s'
    /\ self s' = self s
    /\ last_action_time s' = last_action_time s
    /\ connection s' = c'.
Proof.
  intros E. unfold enter, bind, gets, modify, on_connection. simpl.
  rewrite E. simpl. eexists. split; [reflexivity |]. repeat split.
Qed.

Lemma trade_order_fails (symbol : string) (price time : Q) (signals : Signals)
    (s : Session) :
  position (self s) = None ->
  (forall ct stake, exists c',
     buy_contract symbol ct stake 15 "s" (connection s) = Ret None c') ->
  exists s',
    trade symbol price time signals s = Ret tt s'
    /\ self s' = self s
    /\ last_action_time s' = last_action_time s.
Proof.
  intros Hp Hbuy. unfold trade, bind, gets, now. simpl. rewrite Hp.
  destruct (Qgtb _ 25); [| eexists; repeat split; reflexivity].
  destruct (if Qltb _ 30 then _ else _) as [ct |];
    [| eexists; repeat split; reflexivity].
  set (s1 := print _ _).
  destruct (Hbuy (contract_type_str ct)
              (calculate_stake (self s1) (volatility signals) 3)) as [c' E].
  destruct (enter_order_fails symbol ct price time signals s1 c' E)
    as [s' (E' & Hs & Hl & _)].
  exists s'. split; [exact E' |]. split; [exact Hs | exact Hl].
Qed.

Lemma tick_callback_order_fails (symbol : string) (duration_minutes : Q)
    (response : Frame) (s : Session) :
  position (self s) = None ->
  (forall ct stake, exists c',
     buy_contract symbol ct stake 15 "s" (connection s) = Ret None c') ->
  same_books s (final (tick_callback symbol duration_minutes response s))
  /\ forall tick s1,
       read_tick response s = Ret tick s1 ->
       exists stop s',
         tick_callback symbol duration_minutes response s = Ret stop s'.
Proof.
  intros Hp Hbuy. unfold tick_callback.
  destruct (negb _ || negb _).
  { split; [apply same_books_refl |]. intros; eexists _, _; reflexivity. }
  pose proof (read_tick_same_books response s s (same_books_refl s)) as Hb.
  pose proof (read_tick_connection response (connection s) s eq_refl) as Hc.
  unfold bind at 1 3.
  destruct (read_tick response s) as [[[price time] signals] s1 | e s1 | s1];
    simpl in Hb, Hc; [| split; [exact Hb | discriminate] ..].
  destruct (same_books_fields s s1 Hb) as (_ & Hp1 & _).
  destruct (trade_order_fails symbol price time signals s1) as [s2 (E & Hs & Hl)].
  { rewrite Hp1. exact Hp. }
  { rewrite Hc. exact Hbuy. }
  unfold bind. rewrite E.
  assert (Hb2 : same_books s s2).
  { unfold same_books. rewrite Hs, Hl. exact Hb. }
  split.
  - apply (time_up_same_books duration_minutes s s2 Hb2).
  - intros _ _ _. unfold time_up, bind, now, gets. simpl.
    destruct (Qgeb _ _); eexists _, _; reflexivity.
Qed.

(** *** Invariants that no step of the session can break

    An invariant that the methods of the connection and the suspensions
    of the notifier preserve, that does not depend on the counters and
    the times, that any update of the trader keeping its initial balance
    preserves, and that printing anything but the final report
    preserves, holds throughout the body of the session. *)
Section Simple.

Variable Inv : Session -> Prop.
Hypothesis Inv_buy_contract :
  forall symbol contract_type amount,
    preserves Inv
      (on_connection (buy_contract symbol contract_type amount 15 "s")).
Hypothesis Inv_event_generator : preserves Inv (on_connection _event_generator).
Hypothesis Inv_subscribe :
  forall payload, preserves Inv (on_connection (subscribe payload)).
Hypothesis Inv_close : preserves Inv (on_connection close).
Hypothesis Inv_suspend :
  forall s, Inv s -> Inv (set_connection (suspend (connection s)) s).
Hypothesis Inv_tick_count : forall s n, Inv s -> Inv (set_tick_count n s).
Hypothesis Inv_last_action_time :
  forall s t, Inv s -> Inv (set_last_action_time t s).
Hypothesis Inv_start_time : forall s t, Inv s -> Inv (set_start_time t s).
Hypothesis Inv_clock_reads : forall s n, Inv s -> Inv (set_clock_reads n s).
Hypothesis Inv_self :
  forall s t, initial_balance t = initial_balance (self s) ->
              Inv s -> Inv (set_self t s).
Hypothesis Inv_print : forall s o, quiet o -> Inv s -> Inv (print o s).

Ltac simple_steps :=
  repeat match goal with
  | |- preserves _ (bind _ _) => apply preserves_bind; [| intros ?]
  | |- preserves _ (ret _) => apply preserves_ret
  | |- preserves _ (raise _) => apply preserves_raise
  | |- preserves _ (expect _ _) => apply preserves_expect
  | |- preserves _ (gets _) => apply preserves_gets
  | |- preserves _ (modify (print _)) =>
      apply preserves_modify; intros ? ?; apply Inv_print; [exact I | assumption]
  | |- preserves _ (modify (on_self _)) =>
      apply preserves_modify; intros ? ?; apply Inv_self; [reflexivity | assumption]
  | |- preserves _ (modify _) => apply preserves_modify; intros ? ?; auto
  | |- preserves _ (on_connection (buy_contract _ _ _ _ _)) =>
      apply Inv_buy_contract
  | |- preserves _ (on_connection (subscribe _)) => apply Inv_subscribe
  | |- preserves _ (on_connection close) => apply Inv_close
  | |- preserves _ (on_connection _event_generator) =>
      apply Inv_event_generator
  | |- preserves _ (if ?b then _ else _) => destruct b
  | |- preserves _ (match ?x with _ => _ end) => destruct x
  end.

Lemma simple_now : preserves Inv now.
Proof. intros s H. apply Inv_clock_reads, H. Qed.

Lemma simple_get_signals (price : Q) : preserves Inv (get_signals price).
Proof. intros s H. simpl. apply Inv_self; [reflexivity | exact H]. Qed.

Lemma simple_notify (o : Output) : quiet o -> preserves Inv (notify o).
Proof.
  intros Ho s H. unfold notify. destruct (notifier (self s)); [| exact H].
  simpl. apply (Inv_suspend (print o s)), Inv_print; assumption.
Qed.

Lemma simple_enter (symbol : string) (ct : ContractType) (price time : Q)
    (signals : Signals) :
  preserves Inv (enter symbol ct price time signals).
Proof.
  unfold enter. simple_steps;
    first [apply simple_now | apply simple_notify; exact I].
Qed.

Lemma simple_settle (ct : ContractType) (price time : Q) :
  preserves Inv (settle ct price time).
Proof.
  unfold settle. simple_steps; apply simple_notify; exact I.
Qed.

Lemma simple_read_tick (response : Frame) : preserves Inv (read_tick response).
Proof.
  unfold read_tick. simple_steps;
    first [apply simple_now | apply simple_get_signals].
Qed.

Lemma simple_trade (symbol : string) (price time : Q) (signals : Signals) :
  preserves Inv (trade symbol price time signals).
Proof.
  unfold trade. simple_steps;
    first [apply simple_now | apply simple_enter | apply simple_settle].
Qed.

Lemma simple_time_up (duration_minutes : Q) :
  preserves Inv (time_up duration_minutes).
Proof. unfold time_up. simple_steps; apply simple_now. Qed.

Lemma simple_tick_callback (symbol : string) (duration_minutes : Q)
    (response : Frame) :
  preserves Inv (tick_callback symbol duration_minutes response).
Proof.
  unfold tick_callback. destruct (negb _ || negb _); [apply preserves_ret |].
  apply preserves_bind; [apply simple_read_tick |].
  intros [[price time] signals].
  apply preserves_bind; [apply simple_trade |].
  intros _. apply simple_time_up.
Qed.

Lemma simple_events_loop (symbol : string) (duration_minutes : Q) (fuel : nat) :
  preserves Inv (events_loop symbol duration_minutes fuel).
Proof.
  induction fuel as [| n IH]; simpl.
  - intros s H. exact H.
  - apply preserves_bind; [apply Inv_event_generator |].
    intros response.
    apply preserves_bind; [apply simple_tick_callback |].
    intros [|]; [apply preserves_ret | exact IH].
Qed.

Lemma simple_session_body (symbol : string) (duration_minutes : Q) :
  preserves Inv (session_body symbol duration_minutes).
Proof.
  unfold session_body. simple_steps;
    first [apply simple_now | apply simple_events_loop].
Qed.

(** The body with its exception handler. *)
Lemma simple_handled_body (symbol : string) (duration_minutes : Q) :
  preserves Inv
    (try_except (session_body symbol duration_minutes)
       (fun e => modify (print (PrintError e)))).
Proof.
  apply preserves_try_except; [apply simple_session_body |].
  intros e. simple_steps.
Qed.

End Simple.

(** *** The loop never runs out of fuel *)

Lemma on_connection_shrinks {A} (m : M Client A) (n : nat) :
  shrinks m ->
  preserves (fun s => (supply (connection s) <= n)%nat) (on_connection m).
Proof.
  intros Hm s H. unfold on_connection.
  specialize (Hm n (connection s) H).
  destruct (m (connection s)); exact Hm.
Qed.

Lemma tick_callback_supply (symbol : string) (duration_minutes : Q)
    (response : Frame) (s : Session) :
  (supply (connection (final (tick_callback symbol duration_minutes response s)))
   <= supply (connection s))%nat.
Proof.
  apply (simple_tick_callback
           (fun s' => (supply (connection s') <= supply (connection s))%nat));
    try (intros; assumption).
  - intros. apply on_connection_shrinks, shrinks_buy_contract.
  - apply on_connection_shrinks, shrinks_event_generator.
  - intros. apply on_connection_shrinks, shrinks_subscribe.
  - apply on_connection_shrinks, shrinks_close.
  - intros s' H. simpl. pose proof (suspend_supply (connection s')). lia.
  - lia.
Qed.

(** From any state, all amounts of fuel beyond the supply of frames give
    the same run of the loop: the amount [session_body] passes is never
    used up. *)
Lemma events_loop_enough_fuel (symbol : string) (duration_minutes : Q) :
  forall (n m : nat) (s : Session),
    (supply (connection s) < n)%nat ->
    (supply (connection s) < m)%nat ->
    events_loop symbol duration_minutes n s
    = events_loop symbol duration_minutes m s.
Proof.
  induction n as [| n IH]; intros [| m] s Hn Hm; try lia.
  simpl. unfold bind at 1 3. unfold on_connection.
  pose proof (_event_generator_supply (connection s)) as G.
  destruct (_event_generator (connection s)) as [response c1 | e c1 | c1];
    try reflexivity.
  unfold bind.
  pose proof (tick_callback_supply symbol duration_minutes response
                (set_connection c1 s)) as T.
  destruct (tick_callback symbol duration_minutes response
              (set_connection c1 s)) as [[|] s2 | e s2 | s2];
    try reflexivity.
  simpl in T. apply IH; lia.
Qed.

(** ** Settlement and the balance *)

Lemma percent_positive (pnl entry : Q) :
  0 < entry -> (Qgtb (pnl / entry * 100) 0 = true <-> 0 < pnl).
Proof.
  intros He. rewrite Qgtb_true. split; intros H.
  - destruct (Qlt_le_dec 0 pnl) as [Hp | Hp]; [exact Hp |].
    assert (pnl / entry <= 0).
    { apply Qle_shift_div_r; [exact He | lra]. }
    lra.
  - assert (0 < pnl / entry).
    { apply Qlt_shift_div_l; [exact He | lra]. }
    lra.
Qed.

(** With a positive entry price the amount of a settlement is decided by
    the directional price change. *)
Lemma settlement_amount_sign (ty : ContractType) (entry price stake : Q) :
  0 < entry ->
  (0 < sign ty * (price - entry) ->
   settlement_amount ty entry price stake = stake * (95 # 100))
  /\ (sign ty * (price - entry) <= 0 ->
      settlement_amount ty entry price stake = - stake).
Proof.
  intros He. unfold settlement_amount. cbv zeta.
  set (pnl := match ty with CALL => price - entry | PUT => - (price - entry) end).
  assert (E : pnl == sign ty * (price - entry)).
  { unfold pnl, sign. destruct ty; ring. }
  pose proof (percent_positive pnl entry He) as P.
  destruct (Qgtb (pnl / entry * 100) 0).
  - split; [reflexivity |]. intros H.
    assert (0 < pnl) by (apply P; reflexivity). lra.
  - split; [| reflexivity]. intros H.
    assert (true = false -> False) by discriminate.
    assert (false = true) by (apply P; lra). discriminate.
Qed.

(** C6. At a settlement of a position entered at a positive price with a
    positive stake, the trade is a win exactly when
    [sign(direction) * (currentPrice - entryPrice) > 0]; a win adds 0.95
    of the stake to the balance and a loss takes the stake off it; and
    after any run of the session the balance is the initial balance plus
    the sum of the signed amounts of the settled trades, one ledger row
    per trade. *)
Theorem settlement_and_balance :
  (forall (ty : ContractType) (price time : Q) (s : Session) (stake : Q)
          (sig : Signals),
      current_stake (self s) = Some stake ->
      0 < stake ->
      entry_signals (self s) = Some sig ->
      0 < entry_price (self s) ->
      let pnl := sign ty * (price - entry_price (self s)) in
      exists s',
        settle ty price time s = Ret tt s'
        /\ total_trades (self s') = S (total_trades (self s))
        /\ (0 < pnl ->
            balance (self s') == balance (self s) + (95 # 100) * stake
            /\ winning_trades (self s') = S (winning_trades (self s))
            /\ losing_trades (self s') = losing_trades (self s))
        /\ (pnl <= 0 ->
            balance (self s') == balance (self s) - stake
            /\ winning_trades (self s') = winning_trades (self s)
            /\ losing_trades (self s') = S (losing_trades (self s))))
  /\ (forall (symbol : string) (duration_minutes : Q)
             (model_ok telegram_ok : bool) (dial : option WebSocket)
             (s : Session),
        consistent s ->
        let s' := final (run symbol duration_minutes model_ok telegram_ok
                           dial s) in
        balance (self s')
        == initial_balance (self s') + ledger_sum (history_file (self s'))
        /\ total_trades (self s') = length (history_file (self s'))
        /\ Forall row_settled (history_file (self s'))).
Proof.
  split.
  - intros ty price time s stake sig Hs Hpos Hsig He. cbv zeta.
    destruct (settle_returns ty price time s stake sig Hs) as
      [s' (E & _ & Ebal & _ & Etot & Ewin & Elos & _)]; auto; try lra.
    exists s'. split; [exact E |]. split; [exact Etot |].
    destruct (settlement_amount_sign ty (entry_price (self s)) price stake He)
      as [Hwin Hloss].
    rewrite Ebal, Ewin, Elos. split; intros H.
    + rewrite (Hwin H).
      assert (G : Qgtb (stake * (95 # 100)) 0 = true) by (apply Qgtb_true; lra).
      rewrite G. repeat split; ring.
    + rewrite (Hloss H).
      assert (G : Qgtb (- stake) 0 = false) by (apply Qgtb_false; lra).
      rewrite G. repeat split; ring.
  - intros symbol duration_minutes model_ok telegram_ok dial s H. cbv zeta.
    destruct (run_consistent symbol duration_minutes model_ok telegram_ok
                dial s H) as (_ & _ & Hb & Hn & _ & Hrows).
    auto.
Qed.

(** ** One position at a time *)

(** A position is set only after a purchase that returned a contract. *)
Lemma enter_opens_on_success (symbol : string) (ct : ContractType)
    (price time : Q) (signals : Signals) (s : Session) :
  position (self s) = None ->
  position (self (final (enter symbol ct price time signals s))) <> None ->
  exists contract c',
    buy_contract symbol (contract_type_str ct)
      (calculate_stake (self s) (volatility signals) 3) 15 "s" (connection s)
    = Ret (Some contract) c'.
Proof.
  intros Hp. unfold enter, bind, gets, modify, on_connection. simpl.
  destruct (buy_contract _ _ _ _ _ _) as [[contract |] c | e c | c]; simpl;
    try congruence.
  intros _. eauto.
Qed.

(** C8. For every run of the session, from a consistent state, the
    output reads as a well-sequenced life of positions: an order is
    announced only while no position is open, a position is opened only
    while none is open and closed only while one is, and a position is
    open at the end exactly when [position] is set; and the entry branch
    sets [position] only when the purchase returned a contract. *)
Theorem one_position_at_a_time :
  (forall (symbol : string) (duration_minutes : Q)
          (model_ok telegram_ok : bool) (dial : option WebSocket)
          (s : Session),
      consistent s ->
      let s' := final (run symbol duration_minutes model_ok telegram_ok
                         dial s) in
      position_trace (stdout s') = Some (is_open s'))
  /\ (forall (symbol : string) (duration_minutes : Q) (response : Frame)
             (s : Session),
        consistent s ->
        let s' := final (tick_callback symbol duration_minutes response s) in
        position_trace (stdout s') = Some (is_open s'))
  /\ (forall (symbol : string) (ct : ContractType) (price time : Q)
             (signals : Signals) (s : Session),
        position (self s) = None ->
        position (self (final (enter symbol ct price time signals s)))
        <> None ->
        exists contract c',
          buy_contract symbol (contract_type_str ct)
            (calculate_stake (self s) (volatility signals) 3) 15 "s"
            (connection s)
          = Ret (Some contract) c').
Proof.
  split; [| split].
  - intros symbol duration_minutes model_ok telegram_ok dial s H.
    apply (run_consistent symbol duration_minutes model_ok telegram_ok dial s H).
  - intros symbol duration_minutes response s H.
    apply (tick_callback_consistent symbol duration_minutes response s H).
  - apply enter_opens_on_success.
Qed.

(** ** Orders that fail *)

(** C2. Each phase of [buy_contract], the quote and the purchase, pops
    at most [maxAttempts] = 10 frames, whatever the queue holds; a phase
    that has popped 10 frames, none with the key it awaits, returns
    [None], and it returns [None] in that case only; when either phase
    gives up, [buy_contract] returns [None].  So it does when the queue
    holds 10 frames without ["proposal"] at its head, or the reply to
    the proposal followed by 10 frames without ["buy"], whatever the
    reader adds behind them; and a tick that meets such a queue, no
    position being open, leaves the account, the position and the time
    of the last action as they were, the callback returning as on any
    other tick. *)
Theorem buy_contract_timeout (symbol contract_type : string) (amount : Q)
    (c : Client) :
  (exists ops,
      io (final (quote symbol contract_type amount 15 "s" c)) = io c ++ ops
      /\ (length (popped ops) <= 10)%nat
      /\ (length (popped ops) = 10%nat ->
          Forall (lacks "proposal") (popped ops) ->
          quote symbol contract_type amount 15 "s" c
          = Ret None (final (quote symbol contract_type amount 15 "s" c)))
      /\ forall c', quote symbol contract_type amount 15 "s" c = Ret None c' ->
                    length (popped ops) = 10%nat
                    /\ Forall (lacks "proposal") (popped ops))
  /\ (forall id c1, exists ops,
         io (final (purchase id amount c1)) = io c1 ++ ops
         /\ (length (popped ops) <= 10)%nat
         /\ (length (popped ops) = 10%nat ->
             Forall (lacks "buy") (popped ops) ->
             purchase id amount c1 = Ret None (final (purchase id amount c1)))
         /\ forall c2, purchase id amount c1 = Ret None c2 ->
                       length (popped ops) = 10%nat
                       /\ Forall (lacks "buy") (popped ops))
  /\ (websocket (api c) <> None -> _recv_queue (api c) <> None ->
      (forall c',
          quote symbol contract_type amount 15 "s" c = Ret None c' ->
          buy_contract symbol contract_type amount 15 "s" c = Ret None c')
      /\ (forall proposal v id c1 c2,
             quote symbol contract_type amount 15 "s" c
             = Ret (Some proposal) c1 ->
             has_key "error" proposal = false ->
             proposal !! "proposal"%string = Some v ->
             subscript v "id" = Some id ->
             purchase id amount c1 = Ret None c2 ->
             buy_contract symbol contract_type amount 15 "s" c = Ret None c2))
  /\ (forall front rest,
         _recv_queue (api c) = Some (front ++ rest) ->
         length front = 10%nat ->
         Forall (lacks "proposal") front ->
         exists c',
           buy_contract symbol contract_type amount 15 "s" c = Ret None c')
  /\ (forall proposal v id front rest,
         _recv_queue (api c) = Some (proposal :: front ++ rest) ->
         has_key "error" proposal = false ->
         proposal !! "proposal"%string = Some v ->
         subscript v "id" = Some id ->
         length front = 10%nat ->
         Forall (lacks "buy") front ->
         exists c',
           buy_contract symbol contract_type amount 15 "s" c = Ret None c')
  /\ (forall duration_minutes response s,
         connection s = c ->
         position (self s) = None ->
         (exists front rest,
             _recv_queue (api c) = Some (front ++ rest)
             /\ length front = 10%nat
             /\ Forall (lacks "proposal") front)
         \/ (exists proposal v id front rest,
                _recv_queue (api c) = Some (proposal :: front ++ rest)
                /\ has_key "error" proposal = false
                /\ proposal !! "proposal"%string = Some v
                /\ subscript v "id" = Some id
                /\ length front = 10%nat
                /\ Forall (lacks "buy") front) ->
         let r := tick_callback symbol duration_minutes response s in
         account (self (final r)) = account (self s)
         /\ position (self (final r)) = None
         /\ last_action_time (final r) = last_action_time s
         /\ forall tick s1,
              read_tick response s = Ret tick s1 ->
              exists stop s', r = Ret stop s').
Proof.
  split; [| split; [| split; [| split; [| split]]]].
  - destruct (phase_spec (proposal_request symbol contract_type amount 15 "s")
                "proposal" c) as [ops (Hio & Hlen & _ & _ & Hres)].
    exists ops. split; [exact Hio |]. split; [exact Hlen |].
    split; [| exact Hres].
    apply (phase_gives_up
             (proposal_request symbol contract_type amount 15 "s")
             "proposal" c ops Hio).
  - intros id c1.
    destruct (phase_spec (buy_request id amount) "buy" c1)
      as [ops (Hio & Hlen & _ & _ & Hres)].
    exists ops. split; [exact Hio |]. split; [exact Hlen |].
    split; [| exact Hres].
    apply (phase_gives_up (buy_request id amount) "buy" c1 ops Hio).
  - intros Hw Hq. split.
    + intros c'. apply buy_contract_quote_timeout; assumption.
    + intros proposal v id c1 c2.
      apply buy_contract_purchase_timeout; assumption.
  - intros front rest. apply buy_contract_exhausts_quote.
  - intros proposal v id front rest.
    apply buy_contract_exhausts_purchase.
  - intros duration_minutes response s Hc Hp Hqueue. cbv zeta.
    subst c.
    assert (Hbuy : forall ct stake, exists c',
               buy_contract symbol ct stake 15 "s" (connection s)
               = Ret None c').
    { intros ct stake.
      destruct Hqueue as [(front & rest & Hq & Hlen & Hall)
                         | (proposal & v & id & front & rest
                            & Hq & He & Hv & Hid & Hlen & Hall)].
      - apply (buy_contract_exhausts_quote symbol ct stake (connection s)
                 front rest Hq Hlen Hall).
      - apply (buy_contract_exhausts_purchase symbol ct stake (connection s)
                 proposal v id front rest Hq He Hv Hid Hlen Hall). }
    destruct (tick_callback_order_fails symbol duration_minutes response s
                Hp Hbuy) as [Hb Hret].
    destruct (same_books_fields _ _ Hb) as (Ha & Hp' & _ & _ & _ & _ & Hl).
    split; [exact Ha |]. split; [congruence |]. split; [exact Hl | exact Hret].
Qed.

(** *** What an order sends *)

Lemma final_try_except_ret {S A} (m : M S A) (a : A) (s : S) :
  final (try_except m (fun _ => ret a) s) = final (m s).
Proof. unfold try_except. destruct (m s) as [| [|] |]; reflexivity. Qed.

Lemma contract_info_io (contract : json) (c : Client) :
  final (contract_info contract c) = c.
Proof.
  unfold contract_info, bind, expect.
  repeat (destruct (subscript contract _); simpl; [| reflexivity]).
  reflexivity.
Qed.

Lemma confirm_sends (proposal : Frame) (amount : Q) (c : Client) :
  exists ops,
    io (final (confirm proposal amount c)) = io c ++ ops
    /\ (sent ops = []
        \/ exists v id,
             proposal !! "proposal"%string = Some v
             /\ subscript v "id" = Some id
             /\ sent ops = [buy_request id amount]).
Proof.
  unfold confirm. rewrite final_bind.
  destruct (proposal !! "proposal"%string) as [v |] eqn:Hp; simpl.
  2: { exists []. rewrite app_nil_r. auto. }
  destruct (subscript v "id") as [id |] eqn:Hid; simpl.
  2: { exists []. rewrite app_nil_r. auto. }
  rewrite final_bind.
  destruct (phase_spec (buy_request id amount) "buy" c)
    as [ops (Hio & _ & Hsent & _)].
  cbv zeta in Hio. fold (purchase id amount) in Hio.
  exists ops. split.
  - destruct (purchase id amount c) as [[reply |] c1 | e c1 | c1];
      simpl in *; try exact Hio.
    destruct (has_key "error" reply); simpl; [exact Hio |].
    destruct (reply !! "buy"%string) as [contract |]; simpl; [| exact Hio].
    rewrite final_bind.
    pose proof (contract_info_io contract c1) as E.
    destruct (contract_info contract c1); simpl in *; subst; exact Hio.
  - destruct Hsent as [-> | ->]; [right; eauto | left; reflexivity].
Qed.

(** Whatever the queue holds, [buy_contract] sends at most the proposal
    request followed by one purchase request, and it sends a purchase
    request only after the wait of phase 1 returned a frame that has
    ["proposal"] and has no ["error"]. *)
Lemma buy_contract_sends (symbol contract_type : string) (amount : Q)
    (c : Client) :
  exists ops,
    io (final (buy_contract symbol contract_type amount 15 "s" c))
    = io c ++ ops
    /\ (sent ops = []
        \/ sent ops = [proposal_request symbol contract_type amount 15 "s"]
        \/ exists proposal c1 v id,
             quote symbol contract_type amount 15 "s" c
             = Ret (Some proposal) c1
             /\ has_key "error" proposal = false
             /\ proposal !! "proposal"%string = Some v
             /\ subscript v "id" = Some id
             /\ sent ops = [proposal_request symbol contract_type amount 15 "s";
                            buy_request id amount]).
Proof.
  unfold buy_contract.
  destruct (websocket (api c)); [| exists []; rewrite app_nil_r; auto].
  destruct (_recv_queue (api c)); [| exists []; rewrite app_nil_r; auto].
  rewrite final_try_except_ret, final_bind.
  destruct (phase_spec (proposal_request symbol contract_type amount 15 "s")
              "proposal" c) as [ops (Hio & _ & Hsent & Hret & _)].
  cbv zeta in Hio, Hret.
  fold (quote symbol contract_type amount 15 "s") in Hio, Hret.
  destruct (quote symbol contract_type amount 15 "s" c)
    as [[proposal |] c1 | e c1 | c1] eqn:Eq; simpl in Hio;
    try (exists ops; split; [exact Hio | destruct Hsent as [Hs | Hs]; auto]).
  assert (Hs : sent ops = [proposal_request symbol contract_type amount 15 "s"])
    by (apply Hret; eauto).
  destruct (has_key "error" proposal) eqn:He;
    [exists ops; split; [exact Hio | auto] |].
  destruct (negb (has_key "proposal" proposal));
    [exists ops; split; [exact Hio | auto] |].
  destruct (confirm_sends proposal amount c1) as [ops2 [Hio2 Hsent2]].
  exists (ops ++ ops2). rewrite Hio2, Hio, app_assoc, sent_app, Hs.
  split; [reflexivity |].
  destruct Hsent2 as [-> | (v & id & Hp & Hid & ->)].
  - right. left. reflexivity.
  - right. right. exists proposal, c1, v, id. auto.
Qed.

(** A frame that has ["error"] but neither the awaited key nor ["tick"],
    as the venue's error replies are, is popped by the wait and not put
    back; the wait goes on with one attempt less. *)
Lemma await_key_skips_error_only (key : string) (n : nat) (c : Client)
    (data : Frame) (q : list Frame) :
  _recv_queue (api c) = Some (data :: q) ->
  has_key key data = false ->
  has_key "tick" data = false ->
  await_key key (S n) c
  = await_key key n
      {| api := set_recv_queue (Some q) (api c); inbound := inbound c;
         io := io c ++ [Get data] |}.
Proof.
  intros Hq Hk Ht. rewrite await_key_S, (queue_get_head _ _ _ Hq), Hk, Ht.
  reflexivity.
Qed.

(** Whatever the queue holds, [buy_contract] sends a purchase request
    only after the wait of phase 1 returned a frame that has
    ["proposal"] and no ["error"].  When the wait of phase 1 returns a
    frame that carries an error, which must have ["proposal"] too,
    [buy_contract] returns [None] having sent the proposal request and
    nothing else; and on a tick where no position is open the session
    keeps no position and the account is unchanged. *)
Lemma quote_rejected (symbol : string) (c : Client) :
  (forall contract_type amount, exists ops,
      io (final (buy_contract symbol contract_type amount 15 "s" c))
      = io c ++ ops
      /\ (sent ops = []
          \/ sent ops = [proposal_request symbol contract_type amount 15 "s"]
          \/ exists proposal c1 v id,
               quote symbol contract_type amount 15 "s" c
               = Ret (Some proposal) c1
               /\ has_key "error" proposal = false
               /\ proposal !! "proposal"%string = Some v
               /\ subscript v "id" = Some id
               /\ sent ops
                  = [proposal_request symbol contract_type amount 15 "s";
                     buy_request id amount]))
  /\ (websocket (api c) <> None ->
      _recv_queue (api c) <> None ->
      (forall contract_type amount, exists proposal c',
          quote symbol contract_type amount 15 "s" c = Ret (Some proposal) c'
          /\ has_key "error" proposal = true) ->
      (forall contract_type amount, exists c' ops,
          buy_contract symbol contract_type amount 15 "s" c = Ret None c'
          /\ io c' = io c ++ ops
          /\ sent ops = [proposal_request symbol contract_type amount 15 "s"])
      /\ (forall duration_minutes response s,
             connection s = c ->
             position (self s) = None ->
             let s' := final (tick_callback symbol duration_minutes response
                                s) in
             position (self s') = None
             /\ account (self s') = account (self s))).
Proof.
  split; [intros; apply buy_contract_sends |].
  intros Hw Hq Herr.
  assert (Hbuy : forall ct amount, exists c' ops,
             buy_contract symbol ct amount 15 "s" c = Ret None c'
             /\ io c' = io c ++ ops
             /\ sent ops = [proposal_request symbol ct amount 15 "s"]).
  { intros ct amount. destruct (Herr ct amount) as (proposal & c' & E & He).
    pose proof (phase_spec (proposal_request symbol ct amount 15 "s")
                  "proposal" c) as P.
    cbv zeta in P. fold (quote symbol ct amount 15 "s") in P.
    destruct P as [ops (Hio & _ & _ & Hsent & _)].
    exists c', ops. rewrite E in Hio. simpl in Hio.
    split; [eapply buy_contract_quote_error; eassumption |].
    split; [exact Hio |]. apply Hsent. eauto. }
  split; [exact Hbuy |].
  intros duration_minutes response s Hc Hp. cbv zeta. subst c.
  destruct (tick_callback_order_fails symbol duration_minutes response s Hp)
    as [Hb _].
  { intros ct stake. destruct (Hbuy ct stake) as (c' & _ & E & _). eauto. }
  destruct (same_books_fields _ _ Hb) as (Ha & Hp' & _).
  split; [congruence | exact Ha].
Qed.

(** ** The end of the session *)

Lemma summaries_app (out out' : list Output) :
  summaries (out ++ out') = (summaries out + summaries out')%nat.
Proof. unfold summaries. rewrite List.filter_app, length_app. reflexivity. Qed.

Lemma summaries_quiet (out : list Output) (o : Output) :
  quiet o -> summaries (out ++ [o]) = summaries out.
Proof.
  intros Ho. rewrite summaries_app.
  destruct o; simpl in Ho; try contradiction; unfold summaries; simpl; lia.
Qed.

(** The body of the session, with its handler, prints no final report
    and keeps the initial balance. *)
Lemma handled_body_quiet (symbol : string) (duration_minutes : Q) (n : nat) :
  preserves (fun s => summaries (stdout s) = n)
    (try_except (session_body symbol duration_minutes)
       (fun e => modify (print (PrintError e)))).
Proof.
  apply simple_handled_body; try (intros; assumption);
    try (intros; apply preserves_on_connection; intros; assumption).
  intros s o Ho H. simpl. rewrite summaries_quiet; assumption.
Qed.

Lemma handled_body_initial_balance (symbol : string) (duration_minutes : Q)
    (b : Q) :
  preserves (fun s => initial_balance (self s) = b)
    (try_except (session_body symbol duration_minutes)
       (fun e => modify (print (PrintError e)))).
Proof.
  apply simple_handled_body; try (intros; assumption);
    try (intros; apply preserves_on_connection; intros; assumption).
  intros s t Ht H. simpl. congruence.
Qed.

(** The [finally] clause closes the connection and reports once. *)
Lemma finally_clause (s : Session) :
  ~ initial_balance (self s) == 0 ->
  exists s',
    (on_connection close ;;; print_summary)%monad s = Ret tt s'
    /\ summaries (stdout s') = S (summaries (stdout s))
    /\ api (connection s') = DerivAPI_init.
Proof.
  intros Hb. unfold bind, on_connection.
  destruct (close_returns (connection s)) as [c1 [E Ha]]. rewrite E.
  unfold print_summary. simpl.
  destruct (Qeq_bool (initial_balance (self s)) 0) eqn:E0.
  { apply Qeq_bool_iff in E0. contradiction. }
  eexists. split; [reflexivity |]. simpl. split; [| exact Ha].
  rewrite !summaries_app. unfold summaries at 2 3. simpl. lia.
Qed.

Lemma guarded_session_summary (symbol : string) (duration_minutes : Q)
    (s : Session) :
  summaries (stdout s) = O ->
  ~ initial_balance (self s) == 0 ->
  match guarded_session symbol duration_minutes s with
  | Ret _ s' | Raise _ s' =>
      summaries (stdout s') = 1%nat /\ api (connection s') = DerivAPI_init
  | Blocked s' => summaries (stdout s') = O
  end.
Proof.
  intros H0 Hb. unfold guarded_session, try_finally.
  pose proof (handled_body_quiet symbol duration_minutes O s H0) as Hq.
  pose proof (handled_body_initial_balance symbol duration_minutes _ s eq_refl)
    as Hi.
  destruct (try_except _ _ s) as [a s1 | e s1 | s1]; simpl in Hq, Hi.
  - destruct (finally_clause s1) as [s' (E & Hs & Ha)]; [rewrite Hi; exact Hb |].
    unfold bind at 1. rewrite E. simpl. rewrite Hs, Hq. auto.
  - destruct (finally_clause s1) as [s' (E & Hs & Ha)]; [rewrite Hi; exact Hb |].
    unfold bind at 1. rewrite E. simpl. rewrite Hs, Hq. auto.
  - exact Hq.
Qed.

(** The sentinel of the reader is no tick: the callback ignores it. *)
Lemma tick_callback_ignores_sentinel (symbol : string) (duration_minutes : Q)
    (reason : string) (s : Session) :
  tick_callback symbol duration_minutes {[ "error"%string := JStr reason ]} s
  = Ret false s.
Proof. reflexivity. Qed.

(** With the queue empty and the reader gone, the feed blocks. *)
Lemma _event_generator_blocks (c : Client) :
  events (api c) = Some GenStarted ->
  _recv_queue (api c) = Some [] ->
  _reader_task (api c) = Some TaskDone ->
  _event_generator c = Blocked c.
Proof.
  intros He Hq Ht. unfold _event_generator, queue_get. rewrite He.
  destruct c as [a inb l]. simpl in *.
  destruct inb; simpl; rewrite Hq, ?Ht; reflexivity.
Qed.

(** X27: how the session ends.  The callback returns [False] on the
    sentinel that the reader pushes on a transport failure, as on any
    frame without ["tick"], and changes nothing; with the queue empty
    and the reader gone the feed blocks.  Whenever the [try] statement
    of [run] is left, by a return of its body or by an exception, the
    connection is closed and exactly one final report is printed (the
    initial balance not being zero); when it blocks, none is.  A
    failure to connect ends [run] without a report. *)
Theorem session_end_summary (symbol : string) (duration_minutes : Q) :
  (forall reason s,
      tick_callback symbol duration_minutes
        {[ "error"%string := JStr reason ]} s = Ret false s)
  /\ (forall c,
         events (api c) = Some GenStarted ->
         _recv_queue (api c) = Some [] ->
         _reader_task (api c) = Some TaskDone ->
         _event_generator c = Blocked c)
  /\ (forall s,
         summaries (stdout s) = O ->
         ~ initial_balance (self s) == 0 ->
         match guarded_session symbol duration_minutes s with
         | Ret _ s' | Raise _ s' =>
             summaries (stdout s') = 1%nat
             /\ api (connection s') = DerivAPI_init
         | Blocked s' => summaries (stdout s') = O
         end)
  /\ (forall telegram_ok s,
         exists s',
           run symbol duration_minutes true telegram_ok None s = Ret tt s'
           /\ summaries (stdout s') = summaries (stdout s)).
Proof.
  split; [| split; [| split]].
  - intros reason s. apply tick_callback_ignores_sentinel.
  - apply _event_generator_blocks.
  - apply guarded_session_summary.
  - intros telegram_ok s. eexists. split; [reflexivity |].
    simpl. apply summaries_quiet. exact I.
Qed.

(** ** The indicators *)

(** *** The window of prices *)

Lemma add_price_length (price : Q) (prices : list Q) :
  length (add_price price prices) = Nat.min (S (length prices)) 50.
Proof.
  unfold add_price. rewrite length_skipn, length_app. simpl. lia.
Qed.

Lemma add_price_suffix (price : Q) (l : list Q) :
  add_price price (skipn (length l - 50) l)
  = skipn (length (l ++ [price]) - 50) (l ++ [price]).
Proof.
  unfold add_price.
  rewrite <- (drop_app_le l [price] (length l - 50)) by lia.
  rewrite drop_drop. f_equal.
  rewrite length_drop, !length_app. simpl. lia.
Qed.

Lemma add_price_last (price : Q) (prices : list Q) :
  List.last (add_price price prices) 0 = price.
Proof.
  unfold add_price.
  assert (H : exists l, skipn (length (prices ++ [price]) - 50)
                          (prices ++ [price]) = l ++ [price]).
  { exists (skipn (length (prices ++ [price]) - 50) prices).
    rewrite drop_app_le; [reflexivity |]. rewrite length_app. simpl. lia. }
  destruct H as [l ->]. apply List.last_last.
Qed.

Lemma feed_window (ps l : list Q) :
  fold_left (fun w p => add_price p w) ps (skipn (length l - 50) l)
  = skipn (length (l ++ ps) - 50) (l ++ ps).
Proof.
  revert l. induction ps as [| p ps IH]; intros l; simpl.
  - rewrite app_nil_r. reflexivity.
  - rewrite add_price_suffix, IH, <- app_assoc. reflexivity.
Qed.

(** X1: the window is the [deque(maxlen=50)] of the prices fed to it: after
    any series of [add_price] on a new object it holds the last 50 of
    them, in their order, and so never more than 50, the newest last. *)
Theorem add_price_window (ps : list Q) :
  let window := fold_left (fun w p => add_price p w) ps [] in
  window = skipn (length ps - 50) ps
  /\ (length window <= 50)%nat
  /\ forall p, List.last (ps ++ [p]) 0 = p
               /\ List.last (add_price p window) 0 = p.
Proof.
  cbv zeta. pose proof (feed_window ps []) as H. simpl in H.
  rewrite H. split; [reflexivity |]. split.
  - rewrite length_skipn. lia.
  - intros p. split; [apply List.last_last | apply add_price_last].
Qed.

(** *** Sums and means *)

Lemma Qnat_S (n : nat) :
  inject_Z (Z.of_nat (S n)) == inject_Z (Z.of_nat n) + 1.
Proof. rewrite Nat2Z.inj_succ, <- Z.add_1_r, inject_Z_plus. reflexivity. Qed.

Lemma Qnat_pos (n : nat) : (0 < n)%nat -> 0 < inject_Z (Z.of_nat n).
Proof.
  intros H. change 0 with (inject_Z 0). rewrite <- Zlt_Qlt. lia.
Qed.

Lemma np_sum_bounds (lo hi : Q) (a : list Q) :
  Forall (fun x => lo <= x <= hi) a ->
  inject_Z (Z.of_nat (length a)) * lo <= np_sum a
  /\ np_sum a <= inject_Z (Z.of_nat (length a)) * hi.
Proof.
  induction 1 as [| x a [Hlo Hhi] _ [IHlo IHhi]].
  - change (inject_Z (Z.of_nat (length (@nil Q)))) with 0.
    change (np_sum []) with 0. split; lra.
  - change (np_sum (x :: a)) with (x + np_sum a).
    change (length (x :: a)) with (S (length a)). rewrite Qnat_S.
    split; lra.
Qed.

Lemma np_mean_bounds (lo hi : Q) (a : list Q) :
  a <> [] -> Forall (fun x => lo <= x <= hi) a ->
  lo <= np_mean a <= hi.
Proof.
  intros Hne H. destruct (np_sum_bounds lo hi a H) as [Hlo Hhi].
  assert (Hn : 0 < inject_Z (Z.of_nat (length a))).
  { apply Qnat_pos. destruct a; [congruence | simpl; lia]. }
  unfold np_mean. split.
  - apply Qle_shift_div_l; [exact Hn | lra].
  - apply Qle_shift_div_r; [exact Hn | lra].
Qed.

Lemma np_sum_nonneg (a : list Q) :
  Forall (fun x => 0 <= x) a -> 0 <= np_sum a.
Proof.
  induction 1 as [| x a Hx _ IH]; simpl; [lra |].
  change (fold_right Qplus 0 a) with (np_sum a). lra.
Qed.

Lemma np_sum_zero (a : list Q) :
  Forall (fun x => x == 0) a -> np_sum a == 0.
Proof.
  induction 1 as [| x a Hx _ IH]; simpl; [reflexivity |].
  change (fold_right Qplus 0 a) with (np_sum a). lra.
Qed.

Lemma np_sum_pos (a : list Q) :
  Forall (fun x => 0 <= x) a -> Exists (fun x => 0 < x) a -> 0 < np_sum a.
Proof.
  intros Hall Hex. induction Hex as [x a Hx | x a Hex IH];
    inversion Hall as [| y b Hy Hb]; subst;
    change (np_sum (x :: a)) with (x + np_sum a).
  - pose proof (np_sum_nonneg a Hb). lra.
  - specialize (IH Hb). lra.
Qed.

Lemma np_mean_nonneg (a : list Q) :
  Forall (fun x => 0 <= x) a -> 0 <= np_mean a.
Proof.
  intros H. unfold np_mean. pose proof (np_sum_nonneg a H) as Hs.
  destruct a as [| x a].
  - simpl. unfold Qdiv. lra.
  - apply Qle_shift_div_l; [apply Qnat_pos; simpl; lia | lra].
Qed.

(** *** The RSI *)

Lemma np_diff_length (a : list Q) : length (np_diff a) = (length a - 1)%nat.
Proof.
  induction a as [| x [| y a] IH]; simpl; try reflexivity.
  simpl in IH. rewrite IH. lia.
Qed.

Lemma np_diff_skipn (k : nat) (a : list Q) :
  np_diff (skipn k a) = skipn k (np_diff a).
Proof.
  revert a. induction k as [| k IH]; intros a; [reflexivity |].
  destruct a as [| x [| y a]]; try reflexivity.
  - simpl. destruct k; reflexivity.
  - change (skipn (S k) (x :: y :: a)) with (skipn k (y :: a)).
    change (np_diff (x :: y :: a)) with ((y - x) :: np_diff (y :: a)).
    change (skipn (S k) ((y - x) :: np_diff (y :: a)))
      with (skipn k (np_diff (y :: a))).
    apply IH.
Qed.

(** The last [period] differences are the differences of the last
    [period + 1] prices. *)
Lemma py_last_np_diff (period : nat) (a : list Q) :
  (0 < period)%nat -> (period < length a)%nat ->
  py_last period (np_diff a) = np_diff (py_last (S period) a).
Proof.
  intros Hp Hl. unfold py_last. destruct period as [| p]; [lia |].
  rewrite np_diff_skipn, np_diff_length. f_equal. lia.
Qed.

Lemma py_last_map {A B} (f : A -> B) (n : nat) (a : list A) :
  py_last n (map f a) = map f (py_last n a).
Proof.
  unfold py_last. destruct n; [reflexivity |].
  rewrite List.skipn_map, length_map. reflexivity.
Qed.

Lemma py_last_length {A} (n : nat) (a : list A) :
  (0 < n)%nat -> (n <= length a)%nat -> length (py_last n a) = n.
Proof.
  intros Hn Hl. unfold py_last. destruct n; [lia |].
  rewrite length_skipn. lia.
Qed.

Lemma py_last_all {A} (n : nat) (a : list A) :
  (length a <= n)%nat -> py_last n a = a.
Proof.
  intros H. unfold py_last. destruct n; [reflexivity |].
  replace (length a - S n)%nat with O by lia. reflexivity.
Qed.

(** The RSI of a window of more than [period] prices, from the
    differences of its last [period + 1] prices. *)
Lemma calculate_rsi_recent (prices : list Q) (period : nat) :
  (0 < period)%nat -> (period < length prices)%nat ->
  calculate_rsi prices period
  = let deltas := np_diff (py_last (S period) prices) in
    let avg_gain := np_mean (map (fun d => if Qgtb d 0 then d else 0) deltas) in
    let avg_loss := np_mean (map (fun d => if Qltb d 0 then - d else 0) deltas) in
    if Qeq_bool avg_loss 0 then 100
    else 100 - 100 / (1 + avg_gain / avg_loss).
Proof.
  intros Hp Hl. unfold calculate_rsi.
  destruct (Nat.ltb_spec (length prices) (period + 1)) as [H | _]; [lia |].
  cbv zeta. rewrite !py_last_map, (py_last_np_diff period prices Hp Hl).
  reflexivity.
Qed.

Lemma gains_nonneg (deltas : list Q) :
  Forall (fun x => 0 <= x) (map (fun d => if Qgtb d 0 then d else 0) deltas).
Proof.
  apply Forall_map, List.Forall_forall. intros d _.
  destruct (Qgtb d 0) eqn:E; [apply Qgtb_true in E; lra | lra].
Qed.

Lemma losses_nonneg (deltas : list Q) :
  Forall (fun x => 0 <= x) (map (fun d => if Qltb d 0 then - d else 0) deltas).
Proof.
  apply Forall_map, List.Forall_forall. intros d _.
  destruct (Qltb d 0) eqn:E; [apply Qltb_true in E; lra | lra].
Qed.

Lemma py_last_Forall {A} (P : A -> Prop) (n : nat) (a : list A) :
  Forall P a -> Forall P (py_last n a).
Proof.
  intros H. unfold py_last. destruct n; [exact H |]. apply Forall_drop, H.
Qed.

Lemma rsi_formula_range (avg_gain avg_loss : Q) :
  0 <= avg_gain -> 0 < avg_loss ->
  0 <= 100 - 100 / (1 + avg_gain / avg_loss) <= 100.
Proof.
  intros Hg Hl.
  assert (Hrs : 0 <= avg_gain / avg_loss).
  { apply Qle_shift_div_l; [exact Hl | lra]. }
  set (rs := avg_gain / avg_loss) in *.
  assert (H1 : 100 / (1 + rs) <= 100).
  { apply Qle_shift_div_r; lra. }
  assert (H2 : 0 <= 100 / (1 + rs)).
  { apply Qle_shift_div_l; lra. }
  lra.
Qed.

(** X2: the RSI is a percentage, and it is 50 as long as the window
    holds no more than [period] prices. *)
Theorem calculate_rsi_range (prices : list Q) (period : nat) :
  (0 < period)%nat ->
  0 <= calculate_rsi prices period <= 100
  /\ ((length prices <= period)%nat -> calculate_rsi prices period = 50).
Proof.
  intros Hp. split.
  - unfold calculate_rsi.
    destruct (length prices <? period + 1)%nat; [lra |]. cbv zeta.
    set (avg_loss := np_mean _). set (avg_gain := np_mean _).
    assert (Hg : 0 <= avg_gain).
    { apply np_mean_nonneg, py_last_Forall, gains_nonneg. }
    assert (Hl : 0 <= avg_loss).
    { apply np_mean_nonneg, py_last_Forall, losses_nonneg. }
    destruct (Qeq_bool avg_loss 0) eqn:E; [lra |].
    apply rsi_formula_range; [exact Hg |].
    assert (~ avg_loss == 0).
    { intros H. apply Qeq_bool_iff in H. congruence. }
    lra.
  - intros Hl. unfold calculate_rsi.
    destruct (Nat.ltb_spec (length prices) (period + 1)) as [_ | H];
      [reflexivity | lia].
Qed.

Lemma np_mean_zero (a : list Q) :
  Forall (fun x => x == 0) a -> np_mean a == 0.
Proof.
  intros H. unfold np_mean. rewrite (np_sum_zero a H). unfold Qdiv. ring.
Qed.

Lemma np_mean_pos (a : list Q) :
  Forall (fun x => 0 <= x) a -> Exists (fun x => 0 < x) a -> 0 < np_mean a.
Proof.
  intros Hall Hex. unfold np_mean.
  apply Qlt_shift_div_l.
  - apply Qnat_pos. destruct Hex; simpl; lia.
  - pose proof (np_sum_pos a Hall Hex). lra.
Qed.

(** With no drop among the last [period + 1] prices the RSI is 100. *)
Lemma calculate_rsi_no_drop (prices : list Q) (period : nat) :
  (0 < period)%nat -> (period < length prices)%nat ->
  Forall (fun d => 0 <= d) (np_diff (py_last (S period) prices)) ->
  calculate_rsi prices period = 100.
Proof.
  intros Hp Hl Hup. rewrite (calculate_rsi_recent prices period Hp Hl).
  cbv zeta. set (avg_loss := np_mean _).
  assert (E : avg_loss == 0).
  { apply np_mean_zero, Forall_map.
    eapply Forall_impl; [exact Hup |]. intros d Hd. simpl in Hd |- *.
    destruct (Qltb d 0) eqn:E; [apply Qltb_true in E; lra | reflexivity]. }
  apply Qeq_bool_iff in E. rewrite E. reflexivity.
Qed.

(** X3: only the last [period + 1] prices count for the RSI.  When none
    of them is below the one before, a flat market included, the RSI is
    100; when none is above the one before and one is below, it is 0. *)
Theorem calculate_rsi_extremes (prices : list Q) (period : nat) :
  (0 < period)%nat -> (period < length prices)%nat ->
  let recent := py_last (S period) prices in
  calculate_rsi prices period = calculate_rsi recent period
  /\ (Forall (fun d => 0 <= d) (np_diff recent) ->
      calculate_rsi prices period = 100)
  /\ (Forall (fun d => d <= 0) (np_diff recent) ->
      Exists (fun d => d < 0) (np_diff recent) ->
      calculate_rsi prices period == 0).
Proof.
  intros Hp Hl. cbv zeta.
  assert (Hr : length (py_last (S period) prices) = S period).
  { apply py_last_length; lia. }
  split; [| split].
  - rewrite (calculate_rsi_recent prices period Hp Hl).
    rewrite (calculate_rsi_recent (py_last (S period) prices) period Hp)
      by lia.
    rewrite (py_last_all (S period) (py_last (S period) prices)) by lia.
    reflexivity.
  - apply calculate_rsi_no_drop; assumption.
  - intros Hdown Hdrop. rewrite (calculate_rsi_recent prices period Hp Hl).
    cbv zeta. set (avg_loss := np_mean _). set (avg_gain := np_mean _).
    assert (Eg : avg_gain == 0).
    { apply np_mean_zero, Forall_map.
      eapply Forall_impl; [exact Hdown |]. intros d Hd. simpl in Hd |- *.
      destruct (Qgtb d 0) eqn:E; [apply Qgtb_true in E; lra | reflexivity]. }
    assert (Hpos : 0 < avg_loss).
    { apply np_mean_pos; [apply losses_nonneg |].
      apply List.Exists_exists. apply List.Exists_exists in Hdrop.
      destruct Hdrop as [d [Hin Hd]].
      exists (- d). split; [| lra].
      apply List.in_map_iff. exists d. split; [| exact Hin].
      assert (E : Qltb d 0 = true) by (apply Qltb_true; exact Hd).
      rewrite E. reflexivity. }
    destruct (Qeq_bool avg_loss 0) eqn:E.
    { apply Qeq_bool_iff in E. lra. }
    rewrite Eg. field. lra.
Qed.

(** *** The moving averages and the bands *)

Lemma ema_step_bounds (lo hi m ema price : Q) :
  0 <= m <= 1 -> lo <= ema <= hi -> lo <= price <= hi ->
  lo <= (price - ema) * m + ema <= hi.
Proof.
  intros [Hm0 Hm1] [He0 He1] [Hp0 Hp1].
  assert (A : 0 <= m * (price - lo)) by (apply Qmult_le_0_compat; lra).
  assert (B : 0 <= (1 - m) * (ema - lo)) by (apply Qmult_le_0_compat; lra).
  assert (C : 0 <= m * (hi - price)) by (apply Qmult_le_0_compat; lra).
  assert (D : 0 <= (1 - m) * (hi - ema)) by (apply Qmult_le_0_compat; lra).
  assert (E1 : (price - ema) * m + ema
               == lo + (m * (price - lo) + (1 - m) * (ema - lo))) by ring.
  assert (E2 : (price - ema) * m + ema
               == hi - (m * (hi - price) + (1 - m) * (hi - ema))) by ring.
  split; [rewrite E1 | rewrite E2]; lra.
Qed.

Lemma ema_fold_bounds (lo hi m : Q) (data : list Q) (ema : Q) :
  0 <= m <= 1 -> lo <= ema <= hi ->
  Forall (fun x => lo <= x <= hi) data ->
  lo <= fold_left (fun ema price => (price - ema) * m + ema) data ema <= hi.
Proof.
  intros Hm He H. revert ema He.
  induction H as [| x data Hx _ IH]; intros ema He; simpl; [exact He |].
  apply IH, ema_step_bounds; assumption.
Qed.

Lemma multiplier_bounds (period : nat) :
  (0 < period)%nat -> 0 <= 2 / inject_Z (Z.of_nat (period + 1)) <= 1.
Proof.
  intros Hp.
  assert (H : 2 <= inject_Z (Z.of_nat (period + 1))).
  { change 2 with (inject_Z 2). rewrite <- Zle_Qle. lia. }
  split.
  - apply Qle_shift_div_l; lra.
  - apply Qle_shift_div_r; lra.
Qed.

(** The average stays within the bounds of its data. *)
Lemma ema_bounds (data : list Q) (period : nat) (lo hi : Q) :
  (0 < period)%nat -> data <> [] ->
  Forall (fun x => lo <= x <= hi) data ->
  lo <= _calculate_ema data period <= hi.
Proof.
  intros Hp Hne H. unfold _calculate_ema.
  destruct (Nat.ltb_spec (length data) period) as [Hl | Hl].
  - apply np_mean_bounds; assumption.
  - cbv zeta. apply ema_fold_bounds.
    + apply multiplier_bounds, Hp.
    + apply np_mean_bounds; [| apply Forall_take, H].
      intros E. apply (f_equal (@length Q)) in E.
      rewrite length_take in E. simpl in E. lia.
    + apply Forall_drop, H.
Qed.

(** X4: an exponential moving average lies between the least and the
    greatest of the prices it averages. *)
Theorem calculate_ema_bounds (data : list Q) (period : nat) (lo hi : Q) :
  (0 < period)%nat -> data <> [] ->
  Forall (fun x => lo <= x <= hi) data ->
  lo <= _calculate_ema data period <= hi.
Proof. apply ema_bounds. Qed.

(** X5: the MACD is zero until the window holds [slow] prices; its
    signal line is always zero, so that the histogram is the line
    itself, the difference of the two averages; and it is no larger
    than the spread of the prices of the window. *)
Theorem calculate_macd_bounds (prices : list Q) (fast slow signal : nat)
    (lo hi : Q) :
  (0 < fast)%nat -> (0 < slow)%nat ->
  Forall (fun x => lo <= x <= hi) prices ->
  let '(macd_line, signal_line, histogram) :=
    calculate_macd prices fast slow signal in
  signal_line = 0
  /\ histogram == macd_line
  /\ ((length prices < slow)%nat -> macd_line = 0 /\ histogram = 0)
  /\ ((slow <= length prices)%nat ->
      macd_line = _calculate_ema prices fast - _calculate_ema prices slow
      /\ - (hi - lo) <= histogram <= hi - lo).
Proof.
  intros Hf Hs H. unfold calculate_macd.
  destruct (Nat.ltb_spec (length prices) slow) as [Hl | Hl].
  - split; [reflexivity |]. split; [reflexivity |].
    split; [intros _; split; reflexivity | lia].
  - cbv zeta. split; [reflexivity |]. split; [ring |].
    split; [lia |]. intros _. split; [reflexivity |].
    assert (Hne : prices <> []) by (destruct prices; simpl in *; [lia | congruence]).
    pose proof (ema_bounds prices fast lo hi Hf Hne H).
    pose proof (ema_bounds prices slow lo hi Hs Hne H).
    lra.
Qed.

(** X6: with a square root that is never negative and a width that is
    not, the bands are in order and the middle one is halfway; until the
    window holds [period] prices the three bands are the last price. *)
Theorem calculate_bollinger_bands_order (prices : list Q) (period : nat)
    (std_dev : Q) :
  (forall x, 0 <= np_sqrt x) -> 0 <= std_dev ->
  let '(middle_band, upper_band, lower_band) :=
    calculate_bollinger_bands prices period std_dev in
  lower_band <= middle_band <= upper_band
  /\ upper_band - middle_band == middle_band - lower_band
  /\ ((length prices < period)%nat ->
      middle_band = List.last prices 0
      /\ upper_band = middle_band /\ lower_band = middle_band)
  /\ ((period <= length prices)%nat ->
      middle_band = np_mean (py_last period prices)).
Proof.
  intros Hsqrt Hdev. unfold calculate_bollinger_bands.
  destruct (Nat.ltb_spec (length prices) period) as [Hl | Hl].
  - cbv zeta. split; [split; lra |]. split; [ring |].
    split; [intros _; repeat split | lia].
  - cbv zeta. set (std := np_std _).
    assert (H : 0 <= std_dev * std).
    { apply Qmult_le_0_compat; [exact Hdev | apply Hsqrt]. }
    split; [split; lra |]. split; [ring |].
    split; [lia | reflexivity].
Qed.

(** X7: what [get_signals] reports while the window fills.  The price
    is added before the indicators are computed, so that until 20 prices
    are there the three bands are the price itself and the position is
    reported as LOWER, with its CALL signal; the RSI is 50 and neutral
    for the first 14 prices, the MACD zero and neutral for the first 25.
    The combined signal is NEUTRAL and the strength 0 always. *)
Theorem get_signals_warm_up (current_price : Q) (prices : list Q) :
  let d := fst (TechnicalIndicators_get_signals current_price prices) in
  snd (TechnicalIndicators_get_signals current_price prices)
  = add_price current_price prices
  /\ d_combined_signal d = "NEUTRAL"%string
  /\ d_signal_strength d = 0%Z
  /\ ((length prices < 14)%nat ->
      d_rsi d = 50 /\ d_rsi_signal d = "NEUTRAL"%string)
  /\ ((length prices < 19)%nat ->
      d_bb_lower d = current_price /\ d_bb_middle d = current_price
      /\ d_bb_upper d = current_price
      /\ d_bb_position d = "LOWER"%string /\ d_bb_signal d = "CALL"%string
      /\ d_volatility d = 0)
  /\ ((length prices < 25)%nat ->
      d_macd d = 0 /\ d_macd_signal d = "NEUTRAL"%string).
Proof.
  cbv zeta. unfold TechnicalIndicators_get_signals.
  pose proof (add_price_length current_price prices) as Hlen.
  pose proof (add_price_last current_price prices) as Hlast.
  set (w := add_price current_price prices) in *.
  cbn [fst snd]. unfold signals_dict.
  split; [reflexivity |].
  split; [destruct (calculate_macd w 12 26 9) as [[? ?] ?],
            (calculate_bollinger_bands w 20 2) as [[? ?] ?]; reflexivity |].
  split; [destruct (calculate_macd w 12 26 9) as [[? ?] ?],
            (calculate_bollinger_bands w 20 2) as [[? ?] ?]; reflexivity |].
  split; [| split].
  - intros H.
    destruct (calculate_macd w 12 26 9) as [[? ?] ?],
      (calculate_bollinger_bands w 20 2) as [[? ?] ?]. cbn.
    unfold calculate_rsi.
    destruct (Nat.ltb_spec (length w) (14 + 1)) as [_ | H15]; [| lia].
    split; reflexivity.
  - intros H. destruct (calculate_macd w 12 26 9) as [[? ?] ?].
    unfold calculate_bollinger_bands, calculate_volatility.
    destruct (Nat.ltb_spec (length w) 20) as [_ | H20]; [| lia].
    cbn. rewrite Hlast. unfold Qle_bool. cbn. rewrite Z.leb_refl.
    repeat split; reflexivity.
  - intros H. unfold calculate_macd.
    destruct (Nat.ltb_spec (length w) 26) as [_ | H26]; [| lia].
    destruct (calculate_bollinger_bands w 20 2) as [[? ?] ?].
    split; reflexivity.
Qed.

(** ** Authorizing and subscribing *)

(** What [authorize()] does on a client that has a transport and no
    reader yet, case by case. *)
Lemma authorize_unfold (c : Client) (ws : WebSocket) :
  websocket (api c) = Some ws ->
  _reader_task (api c) = None ->
  authorize c
  = if ws_open ws then
      let request := {[ "authorize"%string := JStr DERIV_API_TOKEN ]} in
      match next_event (inbound c) with
      | None => Blocked (log (Send request) c)
      | Some (Message raw, inb') =>
          let c2 := {| api := api c; inbound := inb';
                       io := io c ++ [Send request] |} in
          match json_loads raw with
          | None => Ret false c2
          | Some data =>
              match data !! "authorize"%string with
              | None => Ret false c2
              | Some (JDict _) =>
                  Ret true
                    {| api := {| websocket := websocket (api c);
                                 authorized := true;
                                 _recv_queue :=
                                   Some (default [] (_recv_queue (api c)));
                                 events := Some GenCreated;
                                 _reader_task := Some TaskPending |};
                       inbound := inb'; io := io c ++ [Send request] |}
              | Some _ => Ret false (on_api (set_authorized true) c2)
              end
          end
      | Some (Failure e, inb') =>
          Ret false
            {| api := set_websocket (Some {| ws_open := false |}) (api c);
               inbound := inb'; io := io c ++ [Send request] |}
      | Some (Cancellation, inb') =>
          Raise CancelledError
            {| api := api c; inbound := inb'; io := io c ++ [Send request] |}
      end
    else Ret false c.
Proof.
  intros Hw Hr. unfold authorize. rewrite Hw.
  unfold try_except, bind at 1, ws_send. rewrite Hw.
  destruct (ws_open ws); [| reflexivity].
  unfold suspend, log. cbn [api inbound io]. rewrite Hr.
  unfold bind at 1, ws_recv. cbn [api inbound io]. rewrite Hw.
  destruct (next_event (inbound c)) as [[[raw | e |] inb'] |];
    try reflexivity.
  unfold bind at 1, expect.
  destruct (json_loads raw) as [data |]; [| reflexivity].
  cbn [ret]. destruct (data !! "authorize"%string) as [auth |];
    [| reflexivity].
  unfold bind, modify, on_api, raise, ret. cbn [api inbound io].
  destruct auth; try reflexivity.
  unfold set_reader_task, set_events, set_recv_queue, set_authorized.
  cbn. rewrite Hr. destruct (_recv_queue (api c)); cbn; rewrite ?Hw, ?Hr;
    reflexivity.
Qed.

(** X8: [authorize()] on a client without a reader.  No [Exception]
    escapes it.  It returns [True] only on a reply that decodes to a
    frame whose ["authorize"] entry is a dict, having sent the one
    request with the token; the client is then authorized, with its
    queue (kept if there was one, empty otherwise), a new generator and
    a running reader.  When it returns [False] the queue, the generator
    and the reader are as before. *)
Theorem authorize_outcome (c : Client) :
  _reader_task (api c) = None ->
  (forall msg c', authorize c <> Raise (Exception msg) c')
  /\ (forall c', authorize c = Ret true c' ->
      exists raw data auth inb',
        next_event (inbound c) = Some (Message raw, inb')
        /\ json_loads raw = Some data
        /\ data !! "authorize"%string = Some (JDict auth)
        /\ c' = {| api := {| websocket := websocket (api c);
                             authorized := true;
                             _recv_queue :=
                               Some (default [] (_recv_queue (api c)));
                             events := Some GenCreated;
                             _reader_task := Some TaskPending |};
                   inbound := inb';
                   io := io c ++ [Send {[ "authorize"%string
                                           := JStr DERIV_API_TOKEN ]}] |})
  /\ (forall c', authorize c = Ret false c' ->
      _recv_queue (api c') = _recv_queue (api c)
      /\ events (api c') = events (api c)
      /\ _reader_task (api c') = None
      /\ (io c' = io c
          \/ io c' = io c ++ [Send {[ "authorize"%string
                                       := JStr DERIV_API_TOKEN ]}])).
Proof.
  intros Hr.
  destruct (websocket (api c)) as [ws |] eqn:Hw.
  2: { unfold authorize. rewrite Hw.
       split; [discriminate |]. split; [discriminate |].
       intros c' E. inversion E; subst. auto. }
  rewrite (authorize_unfold c ws Hw Hr).
  destruct (ws_open ws).
  2: { split; [discriminate |]. split; [discriminate |].
       intros c' E. inversion E; subst. auto. }
  cbv zeta.
  destruct (next_event (inbound c)) as [[[raw | e |] inb'] |] eqn:Hn.
  - destruct (json_loads raw) as [data |] eqn:Hd.
    2: { split; [discriminate |]. split; [discriminate |].
         intros c' E. inversion E; subst. simpl. auto. }
    destruct (data !! "authorize"%string) as [auth |] eqn:Ha.
    2: { split; [discriminate |]. split; [discriminate |].
         intros c' E. inversion E; subst. simpl. auto. }
    destruct auth as [| b | q | str | l | auth];
      try (split; [discriminate |]; split; [discriminate |];
           intros c' E; inversion E; subst; simpl; auto).
    split; [discriminate |]. split; [| discriminate].
    intros c' E. inversion E; subst.
    exists raw, data, auth, inb'.
    split; [reflexivity |]. split; [exact Hd |]. split; [exact Ha |].
    rewrite ?Hw. reflexivity.
  - split; [discriminate |]. split; [discriminate |].
    intros c' E. inversion E; subst. simpl. auto.
  - split; [discriminate |]. split; discriminate.
  - split; [discriminate |]. split; discriminate.
Qed.

(** X9: the request that [subscribe] sends.  It always carries a
    ["subscribe"] entry: that of the payload when it has one, 1
    otherwise, beside the entries of the payload unchanged; a symbol
    gives the request for its ticks.  [subscribe] returns [True] having
    sent that one request, or [False] having sent nothing; it never
    raises.  On a request it is the [subscribe] of the session. *)
Theorem subscribe_payload_request (payload : Payload) (c : Client) :
  let given :=
    match payload with
    | Request request => request
    | Symbol symbol =>
        <[ "ticks"%string := JStr symbol ]> {[ "subscribe"%string := JNum 1 ]}
    end in
  (exists request,
     has_key "subscribe" request = true
     /\ (forall k, k <> "subscribe"%string -> request !! k = given !! k)
     /\ (has_key "subscribe" given = true -> request = given)
     /\ (has_key "subscribe" given = false ->
         request !! "subscribe"%string = Some (JNum 1))
     /\ (subscribe_payload payload c = Ret true (suspend (log (Send request) c))
         \/ subscribe_payload payload c = Ret false c))
  /\ (forall ws, websocket (api c) = Some ws ->
      ws_open ws = true ->
      exists c', subscribe_payload payload c = Ret true c')
  /\ (forall request, subscribe_payload (Request request) c = subscribe request c).
Proof.
  cbv zeta. split; [| split].
  - set (given := match payload with
                  | Request request => request
                  | Symbol symbol => _
                  end).
    exists (if has_key "subscribe" given then given
            else <[ "subscribe"%string := JNum 1 ]> given).
    split; [| split; [| split; [| split]]].
    + destruct (has_key "subscribe" given) eqn:E; [exact E |].
      unfold has_key. rewrite lookup_insert_eq. reflexivity.
    + intros k Hk. destruct (has_key "subscribe" given); [reflexivity |].
      apply lookup_insert_ne. congruence.
    + intros ->. reflexivity.
    + intros ->. apply lookup_insert_eq.
    + unfold subscribe_payload. fold given.
      destruct (websocket (api c)) as [ws |]; [| right; reflexivity].
      unfold try_except, bind, ws_send.
      destruct (websocket (api c)) as [ws' |]; [| right; reflexivity].
      destruct (ws_open ws'); [left | right]; reflexivity.
  - intros ws Hw Ho. unfold subscribe_payload, try_except, bind, ws_send.
    rewrite Hw, Ho. eexists. reflexivity.
  - intros request. reflexivity.
Qed.

(** ** Reading one frame ([get_next_tick]) *)

Lemma tick_summary_client (data : Frame) (c : Client) :
  final (tick_summary data c) = c.
Proof.
  unfold tick_summary. destruct (data !! "tick"%string) as [tick |];
    [| reflexivity].
  unfold bind, expect.
  destruct (subscript tick "quote"); [| reflexivity].
  destruct (subscript tick "epoch"); reflexivity.
Qed.

(** X10: [get_next_tick()] on a client whose queue holds a frame: the
    head of the queue is taken off and is not put back, whatever it is.
    A frame without ["tick"] is returned under ["raw"]; a tick frame is
    returned with its quote and its epoch beside it; a tick frame that
    lacks one of the two is lost, [None] being returned. *)
Theorem get_next_tick_takes_head (c : Client) (data : Frame) (q : list Frame) :
  _recv_queue (api c) = Some (data :: q) ->
  exists result,
    get_next_tick c
    = Ret result {| api := set_recv_queue (Some q) (api c);
                    inbound := inbound c; io := io c ++ [Get data] |}
    /\ result
       = match data !! "tick"%string with
         | None => Some {[ "raw"%string := JDict data ]}
         | Some tick =>
             match subscript tick "quote", subscript tick "epoch" with
             | Some quote, Some epoch =>
                 Some (<[ "price"%string := quote ]>
                       (<[ "time"%string := epoch ]>
                       {[ "raw"%string := JDict data ]}))
             | _, _ => None
             end
         end.
Proof.
  intros Hq. unfold get_next_tick, try_except. rewrite Hq.
  unfold bind at 1. rewrite (queue_get_head c data q Hq).
  unfold tick_summary. destruct (data !! "tick"%string) as [tick |].
  2: { eexists. split; reflexivity. }
  unfold bind, expect.
  destruct (subscript tick "quote"); [| eexists; split; reflexivity].
  destruct (subscript tick "epoch"); eexists; split; reflexivity.
Qed.

(** X11: whatever the client and the transport, no [Exception] escapes
    [get_next_tick()]; it sends nothing and puts nothing on the queue,
    and it takes at most one frame off it. *)
Theorem get_next_tick_contained (c : Client) :
  (forall msg c', get_next_tick c <> Raise (Exception msg) c')
  /\ exists ops,
       io (final (get_next_tick c)) = io c ++ ops
       /\ sent ops = [] /\ requeued ops = []
       /\ (length (popped ops) <= 1)%nat.
Proof.
  split.
  - intros msg c'. unfold get_next_tick, try_except.
    destruct (match _recv_queue (api c), websocket (api c) with
              | Some _, _ => _ | None, None => _ | None, Some _ => _
              end) as [a c1 | [m |] c1 | c1]; discriminate.
  - unfold get_next_tick. rewrite final_try_except_ret.
    destruct (_recv_queue (api c)) as [q |].
    + rewrite final_bind. pose proof (queue_get_spec c) as G.
      destruct (queue_get c) as [data c1 | e c1 | c1].
      * destruct G as [G _]. rewrite tick_summary_client.
        exists [Get data]. repeat split; [exact G | simpl; lia].
      * exists []. rewrite app_nil_r. repeat split; [exact G | simpl; lia].
      * exists []. rewrite app_nil_r. repeat split; [exact G | simpl; lia].
    + destruct (websocket (api c)) as [ws |] eqn:Hw.
      2: { exists []. rewrite app_nil_r. repeat split. simpl. lia. }
      exists []. rewrite app_nil_r. split; [| repeat split; simpl; lia].
      rewrite final_bind. unfold ws_recv. rewrite Hw.
      destruct (next_event (inbound c)) as [[[raw | e |] inb'] |];
        try reflexivity.
      rewrite final_bind. unfold expect.
      destruct (json_loads raw) as [data |]; [| reflexivity].
      simpl. rewrite tick_summary_client. reflexivity.
Qed.

(** ** The trial of the connection ([get_ticks], [test_connection]) *)

Lemma contained_try_except {S A} (m : M S A) (h : string -> M S A) :
  (forall e, contained (h e)) -> contained (try_except m h).
Proof.
  intros Hh s msg s'. unfold try_except.
  destruct (m s) as [a s1 | [e |] s1 | s1]; try discriminate.
  apply Hh.
Qed.

(** The turns of the loop over frames already queued. *)
Lemma ticks_loop_queued (front : list Frame) :
  forall (i : nat) (s : Console) (rest : list Frame),
    _recv_queue (api (client s)) = Some (front ++ rest) ->
    Forall (fun data => readable data = true) front ->
    ticks_loop i (length front) s
    = Ret tt
        {| client :=
             {| api := set_recv_queue (Some rest) (api (client s));
                inbound := inbound (client s);
                io := io (client s) ++ map Get front |};
           lines := lines s ++ tick_lines i front |}.
Proof.
  induction front as [| data front IH]; intros i s rest Hq Hall.
  - simpl. rewrite !app_nil_r. destruct s as [[a inb l] ls]. simpl in *.
    destruct a. simpl in *. subst. reflexivity.
  - inversion Hall as [| d f Hd Hf]; subst.
    change (length (data :: front)) with (S (length front)).
    cbn [ticks_loop]. unfold bind at 1, gets. rewrite Hq.
    unfold bind at 1, on_client.
    rewrite (queue_get_head (client s) data (front ++ rest) Hq).
    unfold bind at 1. unfold readable in Hd. cbn [tick_lines].
    set (c1 := {| api := set_recv_queue (Some (front ++ rest)) (api (client s));
                  inbound := inbound (client s);
                  io := io (client s) ++ [Get data] |}).
    destruct (data !! "tick"%string) as [tick |].
    + destruct (subscript tick "quote") as [quote |]; [| discriminate].
      destruct (subscript tick "epoch") as [epoch |]; [| discriminate].
      unfold bind, expect, ret, say, modify. cbn [client lines].
      rewrite (IH (S i) _ rest); [| reflexivity | exact Hf].
      cbn. rewrite <- !app_assoc. reflexivity.
    + unfold ret. rewrite (IH (S i) _ rest); [| reflexivity | exact Hf].
      cbn. rewrite <- !app_assoc. reflexivity.
Qed.

(** X12: [get_ticks(symbol)] on a connected client whose queue holds five
    frames or more.  It sends the request for the ticks of the symbol
    and takes the first five frames off the queue, ticks or not; none
    is put back.  It prints one line for each of the five that has a
    tick, numbered by the turn and not by the tick. *)
Theorem get_ticks_takes_five (symbol : string) (s : Console) (ws : WebSocket)
    (q : list Frame) :
  websocket (api (client s)) = Some ws ->
  ws_open ws = true ->
  _recv_queue (api (client s)) = Some q ->
  (5 <= length q)%nat ->
  Forall (fun data => readable data = true) (firstn 5 q) ->
  exists s' arrived,
    get_ticks symbol s = Ret tt s'
    /\ io (client s')
       = io (client s)
         ++ Send (<[ "ticks"%string := JStr symbol ]>
                  {[ "subscribe"%string := JNum 1 ]})
            :: map Get (firstn 5 q)
    /\ _recv_queue (api (client s')) = Some (skipn 5 q ++ arrived)
    /\ lines s' = lines s ++ tick_lines 0 (firstn 5 q).
Proof.
  intros Hw Ho Hq Hlen Hall.
  unfold get_ticks, try_except, bind at 1, on_client, subscribe_payload.
  rewrite Hw. unfold try_except, bind at 1, ws_send. rewrite Hw, Ho.
  cbn [has_key]. unfold has_key.
  rewrite lookup_insert_ne by discriminate. rewrite lookup_singleton_eq.
  set (request := <[ "ticks"%string := JStr symbol ]>
                  {[ "subscribe"%string := JNum 1 ]}).
  cbn [ret negb].
  destruct (suspend_queue (log (Send request) (client s)) q Hq)
    as [arrived [Hq1 _]].
  set (c1 := suspend (log (Send request) (client s))) in *.
  assert (Hio : io c1 = io (client s) ++ [Send request]).
  { unfold c1. rewrite suspend_io. reflexivity. }
  set (s1 := {| client := c1; lines := lines s |}).
  assert (E : length (firstn 5 q) = 5%nat) by (rewrite length_firstn; lia).
  pose proof (ticks_loop_queued (firstn 5 q) 0 s1 (skipn 5 q ++ arrived)) as L.
  rewrite E in L. rewrite L; [| | exact Hall].
  2: { cbn. rewrite Hq1, app_assoc, firstn_skipn. reflexivity. }
  eexists _, arrived. split; [reflexivity |]. cbn.
  rewrite Hio, <- app_assoc. repeat split.
Qed.

Lemma contained_say (l : Line) : contained (say l).
Proof. intros s msg s'. discriminate. Qed.

(** X13: no [Exception] escapes [get_ticks]; and [test_connection]
    closes the client only after the ticks: when the transport cannot
    be opened it returns at once; when authorization fails it returns
    with the transport still set, [close()] not having been called; and
    when authorization succeeds and [get_ticks] returns, it closes the
    client, which is left as new. *)
Theorem test_connection_closes_after_ticks (ws : WebSocket) (s : Console) :
  let c0 := {| api := set_websocket (Some ws) DerivAPI_init;
               inbound := inbound (client s); io := io (client s) |} in
  (forall symbol, contained (get_ticks symbol))
  /\ (exists s',
        test_connection None s = Ret tt s'
        /\ api (client s') = DerivAPI_init
        /\ io (client s') = io (client s))
  /\ (forall c1,
        authorize c0 = Ret false c1 ->
        exists s',
          test_connection (Some ws) s = Ret tt s'
          /\ client s' = c1
          /\ websocket (api c1) <> None
          /\ exists ops,
               io c1 = io (client s) ++ ops /\ ~ In CloseSocket ops)
  /\ (forall c1 s2,
        authorize c0 = Ret true c1 ->
        get_ticks "R_75" {| client := c1; lines := lines s |} = Ret tt s2 ->
        exists s',
          test_connection (Some ws) s = Ret tt s'
          /\ api (client s') = DerivAPI_init
          /\ lines s' = lines s2 ++ [Said "Prueba completada exitosamente!"]).
Proof.
  cbv zeta. split; [| split; [| split]].
  - intros symbol. apply contained_try_except. intros e. apply contained_say.
  - eexists. split; [reflexivity |]. split; reflexivity.
  - intros c1 E.
    set (c0 := {| api := set_websocket (Some ws) DerivAPI_init;
                  inbound := inbound (client s); io := io (client s) |}) in *.
    unfold test_connection, bind, modify, on_client, connect.
    cbn [negb]. cbv beta.
    match goal with
    | |- context [authorize ?x] => change x with c0
    end.
    rewrite E. cbn. eexists. split; [reflexivity |]. split; [reflexivity |].
    rewrite (authorize_unfold c0 ws eq_refl eq_refl) in E. cbv zeta in E.
    change (io c0) with (io (client s)) in E.
    destruct (ws_open ws).
    2: { inversion E; subst. cbn. split; [discriminate |].
         exists []. rewrite app_nil_r. split; [reflexivity | intros []]. }
    destruct (next_event (inbound c0)) as [[[raw | e |] inb'] |];
      try discriminate.
    + destruct (json_loads raw) as [data |].
      2: { inversion E; subst. cbn. split; [discriminate |].
           eexists. split; [reflexivity |]. intros [H | []]. discriminate. }
      destruct (data !! "authorize"%string) as [[| | | | |] |];
        inversion E; subst; cbn; (split; [discriminate |]);
        eexists; (split; [reflexivity |]); intros [H | []]; discriminate.
    + inversion E; subst. cbn. split; [discriminate |].
      eexists. split; [reflexivity |]. intros [H | []]. discriminate.
  - intros c1 s2 E G.
    set (c0 := {| api := set_websocket (Some ws) DerivAPI_init;
                  inbound := inbound (client s); io := io (client s) |}) in *.
    unfold test_connection, bind, modify, on_client, connect.
    cbn [negb]. cbv beta.
    match goal with
    | |- context [authorize ?x] => change x with c0
    end.
    rewrite E. cbn [negb lines client]. rewrite G.
    destruct (close_returns (client s2)) as [c3 [E3 H3]]. rewrite E3.
    eexists. split; [reflexivity |]. split; [exact H3 | reflexivity].
Qed.

(** ** The ticks of the session *)

Lemma truthy_has_key (k : string) (d : Frame) :
  has_key k d = true -> truthy (Some d) = true.
Proof.
  unfold has_key, truthy. destruct (d !! k) as [v |] eqn:E; [| discriminate].
  intros _. destruct (size d) eqn:Hs; [| reflexivity].
  apply map_size_empty_iff in Hs. subst d.
  rewrite lookup_empty in E. discriminate.
Qed.

Lemma tick_fields_has_tick (response : Frame) (fields : Q * Q) :
  tick_fields response = Some fields -> has_key "tick" response = true.
Proof.
  unfold tick_fields, has_key.
  destruct (response !! "tick"%string); [reflexivity | discriminate].
Qed.

(** What the first part of [tick_callback] does with a tick it can
    read. *)
Lemma read_tick_returns (response : Frame) (s : Session) (price time : Q) :
  tick_fields response = Some (price, time) ->
  let prices := add_price price (indicators (self s)) in
  let signals := compute_signals prices in
  read_tick response s
  = Ret (price, time, signals)
      {| self := set_indicators prices (self s);
         connection := connection s;
         tick_count := S (tick_count s);
         last_action_time := last_action_time s;
         start_time := start_time s;
         clock_reads := (clock_reads s + status_reads s)%nat;
         stdout := stdout s
                   ++ (if (S (tick_count s) mod 10 =? 0)%nat
                       then [PrintStatus price signals] else []) |}.
Proof.
  unfold tick_fields. intros H. cbv zeta.
  destruct (response !! "tick"%string) as [tick |] eqn:E1; [| discriminate].
  destruct (subscript tick "quote") as [quote |] eqn:E2; [| discriminate].
  destruct (subscript tick "epoch") as [epoch |] eqn:E3; [| discriminate].
  destruct (to_float quote) as [p |] eqn:E4; [| discriminate].
  destruct (fromtimestamp epoch) as [t |] eqn:E5; [| discriminate].
  inversion H; subst.
  unfold read_tick, status_reads, bind, modify, expect, gets, get_signals, now.
  rewrite E1. cbn -[Nat.modulo]. rewrite E2. cbn -[Nat.modulo].
  rewrite E4. cbn -[Nat.modulo]. rewrite E3. cbn -[Nat.modulo].
  rewrite E5. cbn -[Nat.modulo].
  destruct (S (tick_count s) mod 10 =? 0)%nat; cbn.
  - rewrite Nat.add_1_r. reflexivity.
  - rewrite Nat.add_0_r, app_nil_r. reflexivity.
Qed.

(** A frame that has ["tick"] and cannot be read: the callback raises,
    having counted the tick. *)
Lemma read_tick_raises (response : Frame) (s : Session) :
  has_key "tick" response = true ->
  tick_fields response = None ->
  exists msg,
    read_tick response s
    = Raise (Exception msg) (set_tick_count (S (tick_count s)) s).
Proof.
  unfold has_key, tick_fields. intros Hk H.
  unfold read_tick, bind, modify, expect, gets, get_signals, now.
  destruct (response !! "tick"%string) as [tick |]; [| discriminate].
  cbn -[Nat.modulo]. destruct (subscript tick "quote") as [quote |];
    [| eexists; reflexivity].
  cbn -[Nat.modulo]. destruct (to_float quote) as [p |];
    [| eexists; reflexivity].
  cbn -[Nat.modulo]. destruct (subscript tick "epoch") as [epoch |];
    [| eexists; reflexivity].
  cbn -[Nat.modulo]. destruct (fromtimestamp epoch) as [t |];
    [discriminate |].
  eexists. reflexivity.
Qed.

Lemma tick_callback_unfold (symbol : string) (duration_minutes : Q)
    (response : Frame) (s : Session) :
  has_key "tick" response = true ->
  tick_callback symbol duration_minutes response s
  = match read_tick response s with
    | Ret (current_price, tick_time, signals) s1 =>
        match trade symbol current_price tick_time signals s1 with
        | Ret _ s2 => time_up duration_minutes s2
        | Raise e s2 => Raise e s2
        | Blocked s2 => Blocked s2
        end
    | Raise e s1 => Raise e s1
    | Blocked s1 => Blocked s1
    end.
Proof.
  intros Hk. unfold tick_callback.
  rewrite (truthy_has_key "tick" response Hk), Hk. cbn [negb orb].
  unfold bind at 1.
  destruct (read_tick response s) as [[[p t] sig] s1 | e s1 | s1];
    reflexivity.
Qed.

Lemma time_up_returns (duration_minutes : Q) (s : Session) :
  exists stop : bool,
    time_up duration_minutes s
    = Ret stop
        (let s1 := set_clock_reads (S (clock_reads s)) s in
         if stop then print PrintTimeUp s1 else s1)
    /\ stop = Qgeb ((clock (clock_reads s) - start_time s) / 60)
                duration_minutes.
Proof.
  unfold time_up, bind, now, gets, modify, ret. cbn.
  destruct (Qgeb _ _); [exists true | exists false]; split; reflexivity.
Qed.

(** *** Ticks on which nothing is ordered *)

Lemma position_trace_silent (out extra : list Output) :
  Forall silent extra -> position_trace (out ++ extra) = position_trace out.
Proof.
  intros H. rewrite position_trace_app.
  induction H as [| o extra Ho _ IH]; [reflexivity |].
  simpl. rewrite (trace_step_silent _ o Ho). exact IH.
Qed.

Lemma position_trace_status (out : list Output) (b : bool) (o : Output) :
  silent o -> position_trace (out ++ (if b then [o] else [])) = position_trace out.
Proof.
  intros Ho. apply position_trace_silent. destruct b; repeat constructor.
  exact Ho.
Qed.

(** The trading logic with no position open, while the waiting time is
    not over or the RSI is between 30 and 70: the clock is read and
    nothing else is done. *)
Lemma trade_idle (symbol : string) (price time : Q) (signals : Signals)
    (s : Session) :
  position (self s) = None ->
  clock (clock_reads s) - last_action_time s <= 25
  \/ 30 <= rsi signals <= 70 ->
  trade symbol price time signals s
  = Ret tt (set_clock_reads (S (clock_reads s)) s).
Proof.
  intros Hp H. unfold trade, bind, now, gets. cbn. rewrite Hp.
  destruct (Qgtb (clock (clock_reads s) - last_action_time s) 25) eqn:E;
    [| reflexivity].
  apply Qgtb_true in E. destruct H as [H | [H1 H2]]; [lra |].
  assert (E1 : Qltb (rsi signals) 30 = false) by (apply Qltb_false; exact H1).
  assert (E2 : Qgtb (rsi signals) 70 = false) by (apply Qgtb_false; exact H2).
  rewrite E1, E2. reflexivity.
Qed.

(** The states of a tick on which the trading logic only read the
    clock. *)
Lemma idle_tick (symbol : string) (duration_minutes : Q) (response : Frame)
    (s : Session) (price time : Q) :
  tick_fields response = Some (price, time) ->
  (forall s1 signals,
      read_tick response s = Ret (price, time, signals) s1 ->
      trade symbol price time signals s1
      = Ret tt (set_clock_reads (S (clock_reads s1)) s1)) ->
  exists stop s',
    tick_callback symbol duration_minutes response s = Ret stop s'
    /\ connection s' = connection s
    /\ same_books s s'
    /\ position_trace (stdout s') = position_trace (stdout s)
    /\ tick_count s' = S (tick_count s)
    /\ self s' = set_indicators (add_price price (indicators (self s))) (self s).
Proof.
  intros Hf Ht.
  rewrite (tick_callback_unfold _ _ _ _ (tick_fields_has_tick _ _ Hf)).
  pose proof (read_tick_returns response s price time Hf) as R.
  cbv zeta in R. specialize (Ht _ _ R). rewrite R, Ht.
  set (s2 := set_clock_reads _ _).
  destruct (time_up_returns duration_minutes s2) as [stop [E _]].
  rewrite E. eexists _, _. split; [reflexivity |].
  split; [destruct stop; reflexivity |].
  split; [destruct stop; split; reflexivity |].
  split; [| split; destruct stop; reflexivity].
  assert (Hout : stdout s2
                 = stdout s
                   ++ (if (S (tick_count s) mod 10 =? 0)%nat
                       then [PrintStatus price
                               (compute_signals
                                  (add_price price (indicators (self s))))]
                       else [])) by reflexivity.
  destruct stop; cbn [stdout print final set_clock_reads];
    [rewrite position_trace_snoc, trace_step_silent by exact I |];
    rewrite Hout; apply position_trace_status; exact I.
Qed.

(** A tick without a position and without a signal, or within the
    waiting time, only feeds the window. *)
Lemma tick_orders_nothing (symbol : string) (duration_minutes : Q)
    (response : Frame) (s : Session) (price time : Q) :
  tick_fields response = Some (price, time) ->
  position (self s) = None ->
  clock (clock_reads s + status_reads s) - last_action_time s <= 25
  \/ 30 <= rsi (compute_signals (add_price price (indicators (self s)))) <= 70 ->
  exists stop s',
    tick_callback symbol duration_minutes response s = Ret stop s'
    /\ connection s' = connection s
    /\ same_books s s'
    /\ position_trace (stdout s') = position_trace (stdout s)
    /\ tick_count s' = S (tick_count s)
    /\ self s' = set_indicators (add_price price (indicators (self s))) (self s).
Proof.
  intros Hf Hp H. apply (idle_tick symbol duration_minutes response s price time Hf).
  intros s1 signals R.
  rewrite (read_tick_returns response s price time Hf) in R.
  inversion R; subst. apply trade_idle; [exact Hp | exact H].
Qed.

(** X14: with no position open, a tick orders nothing while no more than
    25 seconds have passed on the clock since the last action, and
    nothing while the RSI of the window is between 30 and 70: the
    callback returns, the connection is untouched, nothing of the
    account or the position changes, and the tick is counted. *)
Theorem no_order_without_signal (symbol : string) (duration_minutes : Q)
    (response : Frame) (s : Session) (price time : Q) :
  tick_fields response = Some (price, time) ->
  position (self s) = None ->
  clock (clock_reads s + status_reads s) - last_action_time s <= 25
  \/ 30 <= rsi (compute_signals (add_price price (indicators (self s)))) <= 70 ->
  exists stop s',
    tick_callback symbol duration_minutes response s = Ret stop s'
    /\ connection s' = connection s
    /\ same_books s s'
    /\ position_trace (stdout s') = position_trace (stdout s)
    /\ tick_count s' = S (tick_count s)
    /\ self s' = set_indicators (add_price price (indicators (self s))) (self s).
Proof. apply tick_orders_nothing. Qed.

(** *** Ticks with a position open *)




(** ** What an order returns *)

Lemma uncancelled_bind {S A B} (m : M S A) (k : A -> M S B) :
  uncancelled m -> (forall a, uncancelled (k a)) -> uncancelled (bind m k).
Proof.
  intros Hm Hk s s'. unfold bind. specialize (Hm s).
  destruct (m s) as [a s1 | e s1 | s1]; try discriminate.
  - apply Hk.
  - intros E. inversion E; subst. exact (Hm s' eq_refl).
Qed.

Lemma uncancelled_ret {S A} (a : A) : uncancelled (@ret S A a).
Proof. intros s s'. discriminate. Qed.

Lemma uncancelled_expect {S A} (msg : string) (o : option A) :
  uncancelled (@expect S A msg o).
Proof. intros s s'. destruct o; discriminate. Qed.

Lemma uncancelled_ws_send (request : Frame) : uncancelled (ws_send request).
Proof.
  intros c c'. unfold ws_send.
  destruct (websocket (api c)) as [[[|]] |]; discriminate.
Qed.

Lemma uncancelled_wait_get (inb : list (list RecvEvent)) :
  forall a l c', wait_get inb a l <> Raise CancelledError c'.
Proof.
  induction inb as [| b inb IH]; intros a l c'; simpl.
  - destruct (_recv_queue a) as [[| data q] |]; discriminate.
  - destruct (_recv_queue a) as [[| data q] |]; try discriminate.
    destruct (_reader_task a) as [[|] |]; try discriminate. apply IH.
Qed.

Lemma uncancelled_queue_get : uncancelled queue_get.
Proof. intros c c'. apply uncancelled_wait_get. Qed.

Lemma uncancelled_queue_put (data : Frame) : uncancelled (queue_put data).
Proof.
  intros c c'. unfold queue_put. destruct (_recv_queue (api c)); discriminate.
Qed.

Lemma uncancelled_await_key (key : string) (attempts : nat) :
  uncancelled (await_key key attempts).
Proof.
  induction attempts as [| n IH]; [apply uncancelled_ret |].
  cbn [await_key]. apply uncancelled_bind; [apply uncancelled_queue_get |].
  intros data. destruct (has_key key data); [apply uncancelled_ret |].
  destruct (has_key "tick" data); [| exact IH].
  apply uncancelled_bind; [apply uncancelled_queue_put |]. intros _.
  apply uncancelled_bind; [intros c c'; discriminate |]. intros _. exact IH.
Qed.

Lemma uncancelled_contract_info (contract : json) :
  uncancelled (contract_info contract).
Proof.
  unfold contract_info.
  repeat (apply uncancelled_bind; [apply uncancelled_expect |]; intros ?).
  apply uncancelled_ret.
Qed.

Lemma uncancelled_confirm (proposal : Frame) (amount : Q) :
  uncancelled (confirm proposal amount).
Proof.
  unfold confirm. apply uncancelled_bind; [apply uncancelled_expect |].
  intros id. apply uncancelled_bind.
  { unfold purchase. apply uncancelled_bind; [apply uncancelled_ws_send |].
    intros _. apply uncancelled_await_key. }
  intros [reply |]; [| apply uncancelled_ret].
  destruct (has_key "error" reply); [apply uncancelled_ret |].
  destruct (reply !! "buy"%string) as [contract |]; [| apply uncancelled_ret].
  apply uncancelled_bind; [apply uncancelled_contract_info |].
  intros info. apply uncancelled_ret.
Qed.

(** [buy_contract] raises nothing: it returns, or it waits for ever. *)
Lemma buy_contract_raises_nothing (symbol contract_type : string)
    (amount duration : Q) (duration_unit : string) (c : Client) (e : exn)
    (c' : Client) :
  buy_contract symbol contract_type amount duration duration_unit c
  <> Raise e c'.
Proof.
  unfold buy_contract.
  destruct (websocket (api c)); [| discriminate].
  destruct (_recv_queue (api c)); [| discriminate].
  unfold try_except.
  set (body := bind _ _).
  assert (U : uncancelled body).
  { unfold body. apply uncancelled_bind.
    - unfold quote. apply uncancelled_bind; [apply uncancelled_ws_send |].
      intros _. apply uncancelled_await_key.
    - intros [proposal |]; [| apply uncancelled_ret].
      destruct (has_key "error" proposal); [apply uncancelled_ret |].
      destruct (negb (has_key "proposal" proposal)); [apply uncancelled_ret |].
      apply uncancelled_confirm. }
  specialize (U c). destruct (body c) as [a c1 | [msg |] c1 | c1];
    try discriminate.
  intros E. inversion E; subst. exact (U c' eq_refl).
Qed.

(** The dict made of the contract of the reply. *)
Lemma contract_info_returns (contract : json) (c : Client) (info : Frame)
    (c' : Client) :
  contract_info contract c = Ret info c' ->
  c' = c
  /\ exists contract_id buy_price payout start_time,
       subscript contract "contract_id" = Some contract_id
       /\ subscript contract "buy_price" = Some buy_price
       /\ subscript contract "payout" = Some payout
       /\ subscript contract "start_time" = Some start_time
       /\ info
          = <[ "contract_id"%string := contract_id ]>
            (<[ "buy_price"%string := buy_price ]>
            (<[ "payout"%string := payout ]>
            (<[ "start_time"%string := start_time ]>
            {[ "longcode"%string
               := default (JStr "") (subscript contract "longcode") ]}))).
Proof.
  unfold contract_info, bind, expect.
  destruct (subscript contract "contract_id") as [id |]; [| discriminate].
  destruct (subscript contract "buy_price") as [bp |]; [| discriminate].
  destruct (subscript contract "payout") as [po |]; [| discriminate].
  destruct (subscript contract "start_time") as [st |]; [| discriminate].
  cbn. intros E. inversion E; subst. split; [reflexivity |].
  exists id, bp, po, st. repeat split.
Qed.

Lemma last_snoc_frames (l : list Frame) (x : Frame) : last (l ++ [x]) = Some x.
Proof. apply last_snoc. Qed.

(** What [buy_contract] returns, and what it has sent by then. *)
Lemma buy_contract_info (symbol contract_type : string) (amount : Q)
    (c : Client) :
  (forall e c', buy_contract symbol contract_type amount 15 "s" c <> Raise e c')
  /\ forall info c',
       buy_contract symbol contract_type amount 15 "s" c = Ret (Some info) c' ->
       exists reply contract contract_id buy_price payout start_time ops id,
         io c' = io c ++ ops
         /\ last (popped ops) = Some reply
         /\ has_key "error" reply = false
         /\ reply !! "buy"%string = Some contract
         /\ sent ops = [proposal_request symbol contract_type amount 15 "s";
                        buy_request id amount]
         /\ subscript contract "contract_id" = Some contract_id
         /\ subscript contract "buy_price" = Some buy_price
         /\ subscript contract "payout" = Some payout
         /\ subscript contract "start_time" = Some start_time
         /\ info
            = <[ "contract_id"%string := contract_id ]>
              (<[ "buy_price"%string := buy_price ]>
              (<[ "payout"%string := payout ]>
              (<[ "start_time"%string := start_time ]>
              {[ "longcode"%string
                 := default (JStr "") (subscript contract "longcode") ]}))).
Proof.
  split; [intros e c'; apply buy_contract_raises_nothing |].
  intros info c' E.
  destruct (websocket (api c)) as [ws |] eqn:Hw;
    [| unfold buy_contract in E; rewrite Hw in E; discriminate].
  destruct (_recv_queue (api c)) as [q |] eqn:Hq;
    [| unfold buy_contract in E; rewrite Hw, Hq in E; discriminate].
  rewrite (buy_contract_quote _ _ _ _ ws q Hw Hq) in E.
  pose proof (phase_spec (proposal_request symbol contract_type amount 15 "s")
                "proposal" c) as P1.
  cbv zeta in P1. fold (quote symbol contract_type amount 15 "s") in P1.
  destruct P1 as [ops1 (Hio1 & _ & _ & Hsent1 & _)].
  destruct (quote symbol contract_type amount 15 "s" c)
    as [[proposal |] c1 | [msg |] c1 | c1]; try discriminate.
  simpl in Hio1.
  assert (Hs1 : sent ops1 = [proposal_request symbol contract_type amount 15 "s"])
    by (apply Hsent1; eauto).
  destruct (has_key "error" proposal); [discriminate |].
  destruct (negb (has_key "proposal" proposal)); [discriminate |].
  unfold try_except in E.
  destruct (confirm proposal amount c1) as [a c2 | [msg |] c2 | c2] eqn:C;
    try discriminate.
  inversion E; subst a c2. clear E.
  unfold confirm in C. unfold bind at 1 in C. unfold expect in C.
  destruct (match proposal !! "proposal"%string with
            | Some v => subscript v "id"
            | None => None
            end) as [id |]; [| discriminate].
  cbn [ret] in C. unfold bind at 1 in C.
  pose proof (phase_spec (buy_request id amount) "buy" c1) as P2.
  cbv zeta in P2. fold (purchase id amount) in P2.
  destruct P2 as [ops2 (Hio2 & _ & _ & Hsent2 & _)].
  pose proof (await_key_spec "buy" maxAttempts) as A.
  destruct (purchase id amount c1) as [[reply |] c2 | e c2 | c2] eqn:Pu;
    try discriminate.
  simpl in Hio2.
  assert (Hs2 : sent ops2 = [buy_request id amount]) by (apply Hsent2; eauto).
  destruct (has_key "error" reply) eqn:He; [discriminate |].
  destruct (reply !! "buy"%string) as [contract |] eqn:Hb; [| discriminate].
  unfold bind in C.
  destruct (contract_info contract c2) as [info' c3 | e c3 | c3] eqn:CI;
    try discriminate.
  inversion C; subst info' c3. clear C.
  destruct (contract_info_returns contract c2 info c' CI)
    as [-> (cid & bp & po & st & H1 & H2 & H3 & H4 & Hinfo)].
  assert (Hlast : last (popped ops2) = Some reply).
  { unfold purchase, bind in Pu.
    pose proof (ws_send_spec (buy_request id amount) c1) as S.
    destruct (ws_send (buy_request id amount) c1) as [[] c1' | e c1' | c1'];
      try discriminate.
    destruct (A c1') as [ops (Hio & _ & _ & _ & Hres)].
    rewrite Pu in Hio, Hres. simpl in Hio.
    destruct Hres as [_ [before [Hpop _]]].
    assert (Eops : ops2 = Send (buy_request id amount) :: ops).
    { rewrite Hio2, S, <- app_assoc in Hio.
      apply app_inv_head in Hio. exact Hio. }
    rewrite Eops. change (popped (Send (buy_request id amount) :: ops))
      with (popped ops).
    rewrite Hpop. apply last_snoc_frames. }
  exists reply, contract, cid, bp, po, st, (ops1 ++ ops2), id.
  split; [rewrite Hio2, Hio1, app_assoc; reflexivity |].
  split.
  { rewrite popped_app.
    destruct (popped ops2) as [| x l] eqn:Ep; [discriminate |].
    rewrite last_app, Hlast. reflexivity. }
  split; [exact He |]. split; [exact Hb |].
  split; [rewrite sent_app, Hs1, Hs2; reflexivity |].
  repeat (split; [assumption |]). exact Hinfo.
Qed.

(** X16: [buy_contract] raises nothing, and what it returns other than
    [None] is made of the contract of a reply to the purchase: the last
    frame taken off the queue, which has ["buy"] and no ["error"].  The
    dict has the identifier, the price, the payout and the start time of
    that contract, and its long code or the empty string; the proposal
    request and one purchase request, and nothing else, were sent. *)
Theorem buy_contract_result (symbol contract_type : string) (amount : Q)
    (c : Client) :
  (forall e c', buy_contract symbol contract_type amount 15 "s" c <> Raise e c')
  /\ forall info c',
       buy_contract symbol contract_type amount 15 "s" c = Ret (Some info) c' ->
       exists reply contract contract_id buy_price payout start_time ops id,
         io c' = io c ++ ops
         /\ last (popped ops) = Some reply
         /\ has_key "error" reply = false
         /\ reply !! "buy"%string = Some contract
         /\ sent ops = [proposal_request symbol contract_type amount 15 "s";
                        buy_request id amount]
         /\ subscript contract "contract_id" = Some contract_id
         /\ subscript contract "buy_price" = Some buy_price
         /\ subscript contract "payout" = Some payout
         /\ subscript contract "start_time" = Some start_time
         /\ info
            = <[ "contract_id"%string := contract_id ]>
              (<[ "buy_price"%string := buy_price ]>
              (<[ "payout"%string := payout ]>
              (<[ "start_time"%string := start_time ]>
              {[ "longcode"%string
                 := default (JStr "") (subscript contract "longcode") ]}))).
Proof. apply buy_contract_info. Qed.

(** *** Ticks on which an order is placed *)

(** With the transport open and a queue, the first thing [buy_contract]
    does to the outside is to send the proposal request. *)
Lemma buy_contract_first_send (symbol contract_type : string) (amount : Q)
    (c : Client) (ws : WebSocket) (q : list Frame) :
  websocket (api c) = Some ws -> ws_open ws = true ->
  _recv_queue (api c) = Some q ->
  exists ops,
    io (final (buy_contract symbol contract_type amount 15 "s" c))
    = io c ++ Send (proposal_request symbol contract_type amount 15 "s") :: ops.
Proof.
  intros Hw Ho Hq. unfold buy_contract. rewrite Hw, Hq.
  rewrite final_try_except_ret, final_bind.
  unfold quote, bind at 1, ws_send. rewrite Hw, Ho.
  set (request := proposal_request symbol contract_type amount 15 "s").
  set (c1 := suspend (log (Send request) c)).
  assert (H1 : io c1 = io c ++ [Send request]).
  { unfold c1. rewrite suspend_io. reflexivity. }
  destruct (await_key_spec "proposal" maxAttempts c1) as [ops (Hio & _)].
  rewrite H1, <- app_assoc in Hio. cbn [app] in Hio.
  destruct (await_key "proposal" maxAttempts c1)
    as [[proposal |] c2 | e c2 | c2]; simpl in Hio;
    try (exists ops; exact Hio).
  destruct (has_key "error" proposal); [exists ops; exact Hio |].
  destruct (negb (has_key "proposal" proposal)); [exists ops; exact Hio |].
  destruct (confirm_sends proposal amount c2) as [ops2 [Hio2 _]].
  exists (ops ++ ops2). rewrite Hio2, Hio, <- app_assoc. reflexivity.
Qed.

(** What the entry branch does, by what [buy_contract] returns: it
    raises nothing; without a contract the trader is as it was; with
    one the position is opened with the type, the price and the time of
    the tick, the stake ordered and the signals of the entry. *)
Lemma enter_spec (symbol : string) (ct : ContractType) (price time : Q)
    (signals : Signals) (s : Session) :
  let stake := calculate_stake (self s) (volatility signals) 3 in
  let bought :=
    buy_contract symbol (contract_type_str ct) stake 15 "s" (connection s) in
  let s' := final (enter symbol ct price time signals s) in
  (forall e s1, enter symbol ct price time signals s <> Raise e s1)
  /\ io (connection s') = io (final bought)
  /\ (self s' = self s /\ last_action_time s' = last_action_time s
      \/ exists id, self s'
                    = open_position ct price time id stake signals (self s)).
Proof.
  cbv zeta. unfold enter, bind, gets, modify, on_connection. cbn.
  set (stake := calculate_stake (self s) (volatility signals) 3).
  pose proof (buy_contract_info symbol (contract_type_str ct) stake
                (connection s)) as [Hraise Hinfo].
  destruct (buy_contract symbol (contract_type_str ct) stake 15 "s"
              (connection s)) as [[info |] c1 | e c1 | c1] eqn:B.
  - destruct (Hinfo info c1 eq_refl)
      as (reply & contract & cid & bp & po & st & ops & id & _ & _ & _ & _
          & _ & _ & _ & _ & _ & Ei).
    assert (Hid : info !! "contract_id"%string = Some cid).
    { rewrite Ei. apply lookup_insert_eq. }
    assert (Ht : truthy (Some info) = true).
    { apply (truthy_has_key "contract_id"). unfold has_key. rewrite Hid.
      reflexivity. }
    rewrite Ht. cbn. rewrite Hid. cbn. unfold now, notify. cbn.
    destruct (notifier (self s)); cbn;
      (split; [discriminate |]); (split; [rewrite ?suspend_io; reflexivity |]);
      right; exists cid; reflexivity.
  - cbn. split; [discriminate |]. split; [reflexivity |]. left. auto.
  - exfalso. exact (Hraise e c1 eq_refl).
  - cbn. split; [discriminate |]. split; [reflexivity |]. left. auto.
Qed.

(** The trading logic with no position open, the waiting time over and
    the RSI below 30 or above 70. *)
Lemma trade_orders (symbol : string) (price time : Q) (signals : Signals)
    (s : Session) :
  position (self s) = None ->
  25 < clock (clock_reads s) - last_action_time s ->
  rsi signals < 30 \/ 70 < rsi signals ->
  let ct := if Qltb (rsi signals) 30 then CALL else PUT in
  trade symbol price time signals s
  = enter symbol ct price time signals
      (print (PrintSignal ct (rsi signals))
         (set_clock_reads (S (clock_reads s)) s)).
Proof.
  intros Hp Ht Hr. cbv zeta. unfold trade, bind, now, gets, modify. cbn.
  rewrite Hp.
  assert (E : Qgtb (clock (clock_reads s) - last_action_time s) 25 = true)
    by (apply Qgtb_true; exact Ht).
  rewrite E. destruct (Qltb (rsi signals) 30) eqn:E1; [reflexivity |].
  apply Qltb_false in E1.
  assert (E2 : Qgtb (rsi signals) 70 = true) by (apply Qgtb_true; lra).
  rewrite E2. reflexivity.
Qed.

(** A tick without a position, the waiting time over, with an RSI
    outside of 30 to 70: the order it places. *)
Lemma tick_orders (symbol : string) (duration_minutes : Q)
    (response : Frame) (s : Session) (price time : Q) (ws : WebSocket)
    (q : list Frame) :
  tick_fields response = Some (price, time) ->
  position (self s) = None ->
  websocket (api (connection s)) = Some ws -> ws_open ws = true ->
  _recv_queue (api (connection s)) = Some q ->
  let prices := add_price price (indicators (self s)) in
  let signals := compute_signals prices in
  25 < clock (clock_reads s + status_reads s) - last_action_time s ->
  rsi signals < 30 \/ 70 < rsi signals ->
  let contract_type := if Qltb (rsi signals) 30 then CALL else PUT in
  let stake := calculate_stake (self s) (volatility signals) 3 in
  let s' := final (tick_callback symbol duration_minutes response s) in
  (exists ops,
     io (connection s')
     = io (connection s)
       ++ Send (proposal_request symbol (contract_type_str contract_type)
                  stake 15 "s") :: ops)
  /\ (same_books s s'
      \/ exists id,
           self s' = open_position contract_type price time id stake signals
                       (set_indicators prices (self s))).
Proof.
  intros Hf Hp Hw Ho Hq. cbv zeta. intros Ht Hr.
  rewrite (tick_callback_unfold _ _ _ _ (tick_fields_has_tick _ _ Hf)).
  pose proof (read_tick_returns response s price time Hf) as R.
  cbv zeta in R. rewrite R.
  set (prices := add_price price (indicators (self s))) in *.
  set (signals := compute_signals prices) in *.
  set (s1 := {| self := _ |}).
  rewrite (trade_orders symbol price time signals s1 Hp Ht Hr).
  set (ct := if Qltb (rsi signals) 30 then CALL else PUT).
  set (s2 := print _ _).
  pose proof (enter_spec symbol ct price time signals s2) as E.
  cbv zeta in E. destruct E as (Hraise & Hio & Hself).
  change (calculate_stake (self s2) (volatility signals) 3)
    with (calculate_stake (self s) (volatility signals) 3) in *.
  set (stake := calculate_stake (self s) (volatility signals) 3) in *.
  destruct (buy_contract_first_send symbol (contract_type_str ct) stake
              (connection s2) ws q Hw Ho Hq) as [ops Hops].
  rewrite Hops in Hio. change (connection s2) with (connection s) in Hio.
  assert (Hfinal : forall s3 : Session,
             io (connection s3)
             = io (connection s)
               ++ Send (proposal_request symbol (contract_type_str ct) stake
                          15 "s") :: ops ->
             (self s3 = self s2 /\ last_action_time s3 = last_action_time s2
              \/ exists id, self s3
                   = open_position ct price time id stake signals (self s2)) ->
             (exists ops0,
                 io (connection s3)
                 = io (connection s)
                   ++ Send (proposal_request symbol (contract_type_str ct)
                              stake 15 "s") :: ops0)
             /\ (same_books s s3
                 \/ exists id,
                      self s3 = open_position ct price time id stake signals
                                  (set_indicators prices (self s)))).
  { intros s3 H3 [[Hs Hl] | [id Hs]].
    - split; [eauto |]. left. split; [rewrite Hs; reflexivity | exact Hl].
    - split; [eauto |]. right. exists id. exact Hs. }
  destruct (enter symbol ct price time signals s2) as [[] s3 | e s3 | s3];
    simpl in Hio, Hself.
  - destruct (time_up_returns duration_minutes s3) as [stop [E3 _]].
    rewrite E3.
    apply Hfinal; destruct stop; assumption.
  - exfalso. exact (Hraise e s3 eq_refl).
  - apply Hfinal; assumption.
Qed.

(** X17: with no position open, the waiting time of 25 seconds over, the
    transport open and a queue, a tick whose RSI is below 30 orders a
    CALL and one whose RSI is above 70 a PUT: the first request sent is
    the proposal for that type, for 15 seconds, with the stake that
    [calculate_stake] gives for the volatility of the window and a
    strength of 3.  After the tick the trader is as before, or holds
    the position of that type, entered at the price and the time of the
    tick with that stake. *)
Theorem order_follows_rsi (symbol : string) (duration_minutes : Q)
    (response : Frame) (s : Session) (price time : Q) (ws : WebSocket)
    (q : list Frame) :
  tick_fields response = Some (price, time) ->
  position (self s) = None ->
  websocket (api (connection s)) = Some ws -> ws_open ws = true ->
  _recv_queue (api (connection s)) = Some q ->
  let prices := add_price price (indicators (self s)) in
  let signals := compute_signals prices in
  25 < clock (clock_reads s + status_reads s) - last_action_time s ->
  rsi signals < 30 \/ 70 < rsi signals ->
  let contract_type := if Qltb (rsi signals) 30 then CALL else PUT in
  let stake := calculate_stake (self s) (volatility signals) 3 in
  let s' := final (tick_callback symbol duration_minutes response s) in
  (exists ops,
     io (connection s')
     = io (connection s)
       ++ Send (proposal_request symbol (contract_type_str contract_type)
                  stake 15 "s") :: ops)
  /\ (same_books s s'
      \/ exists id,
           self s' = open_position contract_type price time id stake signals
                       (set_indicators prices (self s))).
Proof. apply tick_orders. Qed.

(** *** Ticks that cannot be read *)

(** X18: from a state with consistent books, where an open position has
    its entry time and an entry price other than zero, the callback
    raises exactly on the frames that have ["tick"] and whose tick
    cannot be read: a quote or an epoch lacking, a quote on which
    [float] raises, or an epoch on which [datetime.fromtimestamp]
    raises, be it a number out of their range; it then has counted the
    tick and done nothing else.  On every other frame it returns, or
    waits for ever for the reply to an order. *)
Theorem tick_callback_raises_on_unreadable_ticks (symbol : string)
    (duration_minutes : Q) (response : Frame) (s : Session) :
  consistent s ->
  (is_open s = true ->
   entry_time (self s) <> None /\ ~ entry_price (self s) == 0) ->
  ((exists e s', tick_callback symbol duration_minutes response s = Raise e s')
   <-> has_key "tick" response = true /\ tick_fields response = None)
  /\ (has_key "tick" response = true -> tick_fields response = None ->
      exists msg,
        tick_callback symbol duration_minutes response s
        = Raise (Exception msg) (set_tick_count (S (tick_count s)) s)).
Proof.
  intros Hc Hopen.
  assert (Hbad : has_key "tick" response = true -> tick_fields response = None ->
                 exists msg,
                   tick_callback symbol duration_minutes response s
                   = Raise (Exception msg) (set_tick_count (S (tick_count s)) s)).
  { intros Hk Hf. rewrite (tick_callback_unfold _ _ _ _ Hk).
    destruct (read_tick_raises response s Hk Hf) as [msg ->]. eauto. }
  split; [| exact Hbad]. split.
  2: { intros [Hk Hf]. destruct (Hbad Hk Hf) as [msg E]. eauto. }
  intros (e & s' & E).
  destruct (has_key "tick" response) eqn:Hk.
  2: { unfold tick_callback in E. rewrite Hk, orb_true_r in E. discriminate. }
  split; [reflexivity |].
  destruct (tick_fields response) as [[price time] |] eqn:Hf; [| reflexivity].
  exfalso. rewrite (tick_callback_unfold _ _ _ _ Hk) in E.
  pose proof (read_tick_returns response s price time Hf) as R.
  cbv zeta in R. rewrite R in E.
  set (signals := compute_signals _) in *.
  set (s1 := {| self := _ |}) in *.
  assert (T : exists r, trade symbol price time signals s1 = r
                        /\ match r with Raise _ _ => False | _ => True end).
  { destruct (position (self s)) as [ty |] eqn:Hp.
    - assert (Ho : is_open s = true) by (unfold is_open; rewrite Hp; reflexivity).
      destruct (Hopen Ho) as [Het Hep].
      destruct (entry_time (self s)) as [entry |] eqn:Hen; [| congruence].
      destruct Hc as (_ & Hpos & _).
      destruct (Hpos Ho) as [[sig Hsig] [stake [Hs Hge]]].
      eexists. split; [reflexivity |].
      unfold trade, bind, now, gets, expect. unfold s1.
      cbn -[Nat.modulo]. rewrite Hp. cbn -[Nat.modulo]. rewrite Hen.
      cbn -[Nat.modulo].
      destruct (Qgtb (time - entry) 20); [| exact I].
      match goal with
      | |- match settle ty price time ?s2 with _ => _ end =>
          destruct (settle_returns ty price time s2 stake sig Hs
                      ltac:(lra) Hsig Hep) as [s3 [-> _]]
      end.
      exact I.
    - destruct (Qlt_le_dec 25 (clock (clock_reads s1) - last_action_time s1))
        as [Hlate | Hearly].
      + destruct (Qlt_le_dec (rsi signals) 30) as [Hlow | Hnot].
        * eexists. split; [reflexivity |].
          rewrite (trade_orders symbol price time signals s1 Hp Hlate
                     (or_introl Hlow)).
          match goal with
          | |- match enter ?a ?b ?c ?d ?e ?f with _ => _ end =>
              pose proof (enter_spec a b c d e f) as [Hr _];
              destruct (enter a b c d e f) as [| e0 s0 |]; try exact I;
              exact (Hr e0 s0 eq_refl)
          end.
        * destruct (Qlt_le_dec 70 (rsi signals)) as [Hhigh | Hmid].
          -- eexists. split; [reflexivity |].
             rewrite (trade_orders symbol price time signals s1 Hp Hlate
                        (or_intror Hhigh)).
             match goal with
             | |- match enter ?a ?b ?c ?d ?e ?f with _ => _ end =>
                 pose proof (enter_spec a b c d e f) as [Hr _];
                 destruct (enter a b c d e f) as [| e0 s0 |]; try exact I;
                 exact (Hr e0 s0 eq_refl)
             end.
          -- eexists. split; [reflexivity |].
             rewrite (trade_idle symbol price time signals s1 Hp
                        (or_intror (conj Hnot Hmid))). exact I.
      + eexists. split; [reflexivity |].
        rewrite (trade_idle symbol price time signals s1 Hp
                   (or_introl Hearly)). exact I. }
  destruct T as [r [Er Hr]]. rewrite Er in E.
  destruct r as [[] s2 | e2 s2 | s2]; try discriminate; [| contradiction].
  destruct (time_up_returns duration_minutes s2) as [stop [E2 _]].
  rewrite E2 in E. discriminate.
Qed.

(** ** The counters and the ledger *)

Lemma streak_snoc (rows : list TradeRecord) (r : TradeRecord) :
  streak (rows ++ [r]) = if tr_won r then O else S (streak rows).
Proof. unfold streak. rewrite fold_left_app. reflexivity. Qed.

Lemma tallied_ext (s s' : Session) :
  winning_trades (self s') = winning_trades (self s) ->
  losing_trades (self s') = losing_trades (self s) ->
  consecutive_losses (self s') = consecutive_losses (self s) ->
  history_file (self s') = history_file (self s) ->
  tallied s -> tallied s'.
Proof. unfold tallied. intros -> -> -> ->. auto. Qed.

Ltac tallied_steps :=
  preserves_steps; try assumption; try (intros ? H; exact H).

Lemma notify_tallied (o : Output) : preserves tallied (notify o).
Proof.
  intros s H. unfold notify. destruct (notifier (self s)); exact H.
Qed.

Lemma enter_tallied (symbol : string) (ct : ContractType) (price time : Q)
    (signals : Signals) :
  preserves tallied (enter symbol ct price time signals).
Proof. unfold enter. tallied_steps. apply notify_tallied. Qed.

Lemma read_tick_tallied (response : Frame) :
  preserves tallied (read_tick response).
Proof. unfold read_tick. tallied_steps. Qed.

Lemma time_up_tallied (duration_minutes : Q) :
  preserves tallied (time_up duration_minutes).
Proof. unfold time_up. tallied_steps. Qed.

Lemma settle_tallied (ty : ContractType) (price time : Q) (s : Session) :
  consistent s -> position (self s) = Some ty -> tallied s ->
  tallied (final (settle ty price time s)).
Proof.
  intros Hc Hp Ht.
  assert (Ho : is_open s = true) by (unfold is_open; rewrite Hp; reflexivity).
  destruct Hc as (_ & Hopen & _).
  destruct (Hopen Ho) as [[sig Hsig] [stake [Hs Hge]]].
  destruct (Qeq_bool (entry_price (self s)) 0) eqn:E0.
  { unfold settle, bind, gets. rewrite E0. exact Ht. }
  assert (He : ~ entry_price (self s) == 0).
  { intros E. apply Qeq_bool_iff in E. congruence. }
  destruct (settle_returns ty price time s stake sig Hs ltac:(lra) Hsig He)
    as [s' (E & _ & _ & _ & _ & Ewin & Elos & Estreak & Ehist & _)].
  rewrite E. simpl. destruct Ht as (Hw & Hl & Hk). unfold tallied.
  rewrite Ewin, Elos, Estreak, Ehist, !List.filter_app, !length_app, streak_snoc.
  cbn. destruct (Qgtb _ 0); cbn; rewrite <- ?Hw, <- ?Hl, <- ?Hk;
    repeat split; lia.
Qed.

Lemma trade_tallied (symbol : string) (price time : Q) (signals : Signals)
    (s : Session) :
  consistent s -> tallied s ->
  tallied (final (trade symbol price time signals s)).
Proof.
  intros Hc Ht. unfold trade.
  rewrite final_bind. unfold now at 1.
  set (s1 := set_clock_reads _ s).
  assert (Hc1 : consistent s1) by (apply preserves_now; exact Hc).
  assert (Ht1 : tallied s1) by exact Ht.
  rewrite final_bind. cbn [gets]. rewrite final_bind. cbn [gets].
  destruct (position (self s1)) as [ty |] eqn:Hp.
  - rewrite final_bind. cbn [gets]. rewrite final_bind.
    destruct (entry_time (self s1)); simpl; [| exact Ht1].
    destruct (Qgtb _ 20); [| exact Ht1].
    apply settle_tallied; assumption.
  - destruct (Qgtb _ 25); [| exact Ht1].
    destruct (if Qltb _ 30 then _ else _) as [ct |]; [| exact Ht1].
    rewrite final_bind. simpl. apply enter_tallied. exact Ht1.
Qed.

Lemma tick_callback_tallied (symbol : string) (duration_minutes : Q)
    (response : Frame) :
  preserves (fun s => consistent s /\ tallied s)
    (tick_callback symbol duration_minutes response).
Proof.
  intros s [Hc Ht]. split; [apply tick_callback_consistent; exact Hc |].
  unfold tick_callback. destruct (negb _ || negb _); [exact Ht |].
  rewrite final_bind.
  pose proof (read_tick_consistent response s Hc) as Hc1.
  pose proof (read_tick_tallied response s Ht) as Ht1.
  destruct (read_tick response s) as [[[p t] sig] s1 | e s1 | s1];
    simpl in Hc1, Ht1; try exact Ht1.
  rewrite final_bind.
  pose proof (trade_consistent symbol p t sig s1 Hc1) as Hc2.
  pose proof (trade_tallied symbol p t sig s1 Hc1 Ht1) as Ht2.
  destruct (trade symbol p t sig s1) as [[] s2 | e s2 | s2];
    simpl in Hc2, Ht2; try exact Ht2.
  apply time_up_tallied. exact Ht2.
Qed.

Lemma preserves_both {S A} (I J : S -> Prop) (m : M S A) :
  preserves I m -> preserves J m -> preserves (fun s => I s /\ J s) m.
Proof. intros HI HJ s [H1 H2]. split; [apply HI | apply HJ]; assumption. Qed.

Lemma on_connection_tallied {A} (m : M Client A) :
  preserves (fun s => consistent s /\ tallied s) (on_connection m).
Proof.
  apply preserves_both; [apply preserves_on_connection_consistent |].
  apply preserves_on_connection. intros s c H. exact H.
Qed.

Lemma print_tallied (o : Output) :
  silent o ->
  preserves (fun s => consistent s /\ tallied s) (modify (print o)).
Proof.
  intros Ho. apply preserves_both; [apply preserves_print_consistent, Ho |].
  apply preserves_modify. intros s H. exact H.
Qed.

Lemma now_tallied : preserves (fun s => consistent s /\ tallied s) now.
Proof. apply preserves_both; [apply preserves_now |]. intros s H. exact H. Qed.

Lemma events_loop_tallied (symbol : string) (duration_minutes : Q)
    (fuel : nat) :
  preserves (fun s => consistent s /\ tallied s)
    (events_loop symbol duration_minutes fuel).
Proof.
  induction fuel as [| n IH]; simpl.
  - intros s H. exact H.
  - apply preserves_bind; [apply on_connection_tallied |]. intros response.
    apply preserves_bind; [apply tick_callback_tallied |].
    intros [|]; [apply preserves_ret | exact IH].
Qed.

Lemma run_tallied (symbol : string) (duration_minutes : Q)
    (model_ok telegram_ok : bool) (dial : option WebSocket) :
  preserves (fun s => consistent s /\ tallied s)
    (run symbol duration_minutes model_ok telegram_ok dial).
Proof.
  assert (Hset : forall f : Session -> Session,
             (forall s, consistent s -> consistent (f s)) ->
             (forall s, tallied s -> tallied (f s)) ->
             preserves (fun s => consistent s /\ tallied s) (modify f)).
  { intros f H1 H2. apply preserves_modify. intros s [Hc Ht]. auto. }
  unfold run.
  apply preserves_bind.
  { destruct model_ok; [apply preserves_ret | apply preserves_raise]. }
  intros _. apply preserves_bind.
  { apply Hset; [books_unchanged | intros s H; exact H]. }
  intros _. apply preserves_bind.
  { apply Hset; [intros; now apply consistent_set_connection |
                 intros s H; exact H]. }
  intros _. apply preserves_bind; [apply on_connection_tallied |].
  intros connected. destruct (negb connected); [now apply print_tallied |].
  apply preserves_bind; [apply on_connection_tallied |].
  intros authorized. destruct (negb authorized).
  { apply preserves_bind; [now apply print_tallied |].
    intros _. apply on_connection_tallied. }
  unfold guarded_session. apply preserves_try_finally.
  - apply preserves_try_except; [| intros e; now apply print_tallied].
    unfold session_body.
    apply preserves_bind; [apply on_connection_tallied |].
    intros ok. destruct (negb ok).
    { apply preserves_bind; [now apply print_tallied |].
      intros _. apply on_connection_tallied. }
    apply preserves_bind; [apply now_tallied |]. intros t0.
    apply preserves_bind.
    { apply Hset; [intros; now apply consistent_set_start_time |
                   intros s H; exact H]. }
    intros _. apply preserves_bind.
    { apply Hset; [intros; now apply consistent_set_tick_count |
                   intros s H; exact H]. }
    intros _. apply preserves_bind; [apply now_tallied |]. intros t1.
    apply preserves_bind.
    { apply Hset; [intros; now apply consistent_set_last_action_time |
                   intros s H; exact H]. }
    intros _. apply preserves_bind; [apply preserves_gets |]. intros [g |].
    + apply preserves_bind; [apply preserves_gets |]. intros s0.
      apply events_loop_tallied.
    + apply preserves_bind; [now apply print_tallied |].
      intros _. apply on_connection_tallied.
  - apply preserves_bind; [apply on_connection_tallied |]. intros _.
    apply preserves_both; [apply print_summary_consistent |].
    intros s H. unfold print_summary.
    destruct (Qeq_bool _ 0); exact H.
Qed.

(** X19: the counters of the trader are those of its ledger.  After any
    run of the session, and after any tick, from a state where this
    holds and the books are consistent, as on a new trader: the winning
    trades are the rows won, the losing trades the rows lost, and the
    consecutive losses, on which the stake depends, are the losing rows
    since the last row won. *)
Theorem counters_match_ledger (s : Session) :
  consistent s -> tallied s ->
  (forall symbol duration_minutes model_ok telegram_ok dial,
      let t := self (final (run symbol duration_minutes model_ok telegram_ok
                              dial s)) in
      winning_trades t = length (List.filter tr_won (history_file t))
      /\ losing_trades t
         = length (List.filter (fun r => negb (tr_won r)) (history_file t))
      /\ consecutive_losses t = streak (history_file t))
  /\ (forall symbol duration_minutes response,
         tallied (final (tick_callback symbol duration_minutes response s))).
Proof.
  intros Hc Ht. split.
  - intros symbol duration_minutes model_ok telegram_ok dial. cbv zeta.
    apply (run_tallied symbol duration_minutes model_ok telegram_ok dial s).
    split; assumption.
  - intros symbol duration_minutes response.
    apply (tick_callback_tallied symbol duration_minutes response s).
    split; assumption.
Qed.

(** ** How a run can end *)

Lemma authorize_contained : contained authorize.
Proof.
  intros c msg c'. unfold authorize.
  destruct (websocket (api c)); [| discriminate].
  apply contained_try_except. intros e s m s'. discriminate.
Qed.

Lemma handled_body_contained (symbol : string) (duration_minutes : Q) :
  contained (try_except (session_body symbol duration_minutes)
               (fun e => modify (print (PrintError e)))).
Proof. apply contained_try_except. intros e s m s'. discriminate. Qed.

(** An [Exception] leaves the [try] statement of [run] only from its
    [finally] clause, when the initial balance is zero; the connection
    is closed by then. *)
Lemma guarded_session_raises (symbol : string) (duration_minutes : Q)
    (s : Session) (msg : string) (s' : Session) :
  guarded_session symbol duration_minutes s = Raise (Exception msg) s' ->
  initial_balance (self s) == 0 /\ api (connection s') = DerivAPI_init.
Proof.
  unfold guarded_session, try_finally.
  pose proof (handled_body_contained symbol duration_minutes s) as Hc.
  pose proof (handled_body_initial_balance symbol duration_minutes _ s eq_refl)
    as Hi.
  destruct (try_except _ _ s) as [a s1 | e s1 | s1]; simpl in Hi;
    [| | discriminate].
  - unfold bind at 1.
    destruct (Qeq_bool (initial_balance (self s)) 0) eqn:E0.
    + apply Qeq_bool_iff in E0. intros E. split; [exact E0 |].
      unfold bind, on_connection in E.
      destruct (close_returns (connection s1)) as [c1 [Ec Ha]].
      rewrite Ec in E. unfold print_summary in E. cbn in E.
      destruct (Qeq_bool (initial_balance (self s1)) 0); inversion E; subst;
        exact Ha.
    + destruct (finally_clause s1) as [s2 (E & _)].
      { rewrite Hi. intros H. apply Qeq_bool_iff in H. congruence. }
      rewrite E. discriminate.
  - unfold bind at 1.
    destruct (Qeq_bool (initial_balance (self s)) 0) eqn:E0.
    + apply Qeq_bool_iff in E0. intros E. split; [exact E0 |].
      unfold bind, on_connection in E.
      destruct (close_returns (connection s1)) as [c1 [Ec Ha]].
      rewrite Ec in E. unfold print_summary in E. cbn in E.
      destruct (Qeq_bool (initial_balance (self s1)) 0); inversion E; subst;
        exact Ha.
    + destruct (finally_clause s1) as [s2 (E & _)].
      { rewrite Hi. intros H. apply Qeq_bool_iff in H. congruence. }
      rewrite E. cbn. intros E'. inversion E'; subst.
      exfalso. exact (Hc msg _ eq_refl).
Qed.

(** X20: an [Exception] leaves [run] in two cases only: when the model
    cannot be loaded, before anything is done; and when the initial
    balance is zero, from the division of the final report, the
    connection having been closed.  Every [Exception] of the session
    itself, of the subscription, the feed or the callback, is caught. *)
Theorem run_raises_outside_the_session_only (symbol : string)
    (duration_minutes : Q) (model_ok telegram_ok : bool)
    (dial : option WebSocket) (s : Session) :
  match run symbol duration_minutes model_ok telegram_ok dial s with
  | Raise (Exception msg) s' =>
      model_ok = false /\ s' = s
      \/ initial_balance (self s) == 0
         /\ api (connection s') = DerivAPI_init
  | _ => True
  end.
Proof.
  unfold run. unfold bind at 1.
  destruct model_ok; [| left; split; reflexivity].
  cbn [ret]. unfold bind at 1, modify at 1. unfold bind at 1, modify at 1.
  set (s1 := set_connection _ _).
  assert (Hi : initial_balance (self s1) = initial_balance (self s))
    by reflexivity.
  unfold bind at 1. unfold on_connection at 1.
  destruct (connect dial (connection s1)) as [connected c1 | e c1 | c1] eqn:Ec;
    [| destruct dial; discriminate | exact I].
  destruct connected; cbn [negb]; [| exact I].
  set (s2 := set_connection c1 s1).
  unfold bind at 1. unfold on_connection at 1.
  pose proof (authorize_contained (connection s2)) as Ha.
  destruct (authorize (connection s2)) as [authorized c2 | [msg |] c2 | c2];
    [| exfalso; exact (Ha msg c2 eq_refl) | exact I | exact I].
  destruct authorized; cbn [negb].
  - set (s3 := set_connection c2 s2).
    destruct (guarded_session symbol duration_minutes s3)
      as [a s4 | [msg |] s4 | s4] eqn:G; try exact I.
    right. apply (guarded_session_raises symbol duration_minutes s3 msg s4 G).
  - unfold bind, modify, on_connection.
    destruct (close_returns (connection (print (Print "could not authorize")
                                           (set_connection c2 s2))))
      as [c3 [E3 _]].
    rewrite E3. exact I.
Qed.

(** X21: when the authorization fails, [run] closes the transport and
    returns: nothing but the authorization request has been sent, no
    subscription is made, no final report is printed, and the trader is
    as it was but for its notifier. *)
Theorem run_closes_when_not_authorized (symbol : string)
    (duration_minutes : Q) (telegram_ok : bool) (ws : WebSocket)
    (s : Session) (c1 : Client) :
  authorize {| api := set_websocket (Some ws) DerivAPI_init;
               inbound := inbound (connection s); io := io (connection s) |}
  = Ret false c1 ->
  exists s',
    run symbol duration_minutes true telegram_ok (Some ws) s = Ret tt s'
    /\ api (connection s') = DerivAPI_init
    /\ (exists ops,
          io (connection s') = io c1 ++ ops /\ sent ops = []
          /\ In CloseSocket ops)
    /\ summaries (stdout s') = summaries (stdout s)
    /\ self s' = set_notifier telegram_ok (self s).
Proof.
  intros E.
  set (c0 := {| api := set_websocket (Some ws) DerivAPI_init;
                inbound := inbound (connection s); io := io (connection s) |})
    in *.
  assert (Hw : websocket (api c1) <> None).
  { rewrite (authorize_unfold c0 ws eq_refl eq_refl) in E. cbv zeta in E.
    destruct (ws_open ws); [| inversion E; subst; discriminate].
    destruct (next_event (inbound c0)) as [[[raw | e |] inb'] |];
      try discriminate.
    - destruct (json_loads raw) as [data |];
        [| inversion E; subst; discriminate].
      destruct (data !! "authorize"%string) as [[| | | | |] |];
        inversion E; subst; discriminate.
    - inversion E; subst. discriminate. }
  unfold run, bind, modify, on_connection, connect.
  cbn [ret negb]. cbv beta.
  match goal with
  | |- context [authorize ?x] => change x with c0
  end.
  rewrite E. cbn [negb].
  pose proof (close_effects c1) as Hio.
  destruct (close_returns c1) as [c3 [E3 H3]].
  match goal with
  | |- context [close ?x] => change x with c1
  end.
  rewrite E3 in Hio. simpl in Hio. rewrite E3.
  eexists. split; [reflexivity |].
  split; [exact H3 |]. split.
  - cbn. rewrite Hio. destruct (websocket (api c1)); [| congruence].
    destruct (_reader_task (api c1)); eexists; (split; [reflexivity |]);
      (split; [reflexivity |]); cbn; auto.
  - split; [| reflexivity]. cbn. apply summaries_quiet. exact I.
Qed.

(** ** The training environment *)

Lemma step_final (action : Z) (close_threshold : nat) (e : TradingEnv) :
  final (step action close_threshold e)
  = match df e !! current_step e with
    | Some current_price => stepped action close_threshold current_price e
    | None => e
    end.
Proof.
  unfold step, stepped.
  destruct (df e !! current_step e) as [price |]; [| reflexivity].
  destruct (env_position e) as [pos |].
  - cbn [hold position_steps].
    destruct (close_threshold <=? S (position_steps e))%nat;
      rewrite final_bind; unfold _get_observation;
      match goal with
      | |- context [df ?x !! current_step ?x] =>
          destruct (df x !! current_step x)
      end; reflexivity.
  - destruct (action =? 1)%Z; [| destruct (action =? 2)%Z];
      rewrite final_bind; unfold _get_observation;
      match goal with
      | |- context [df ?x !! current_step ?x] =>
          destruct (df x !! current_step x)
      end; reflexivity.
Qed.

Lemma stepped_series (action : Z) (close_threshold : nat) (price : Q)
    (e : TradingEnv) :
  df (stepped action close_threshold price e) = df e
  /\ current_step (stepped action close_threshold price e)
     = S (current_step e).
Proof.
  unfold stepped. destruct (env_position e) as [pos |].
  - destruct (close_threshold <=? S (position_steps e))%nat;
      split; reflexivity.
  - destruct (action =? 1)%Z; [| destruct (action =? 2)%Z];
      split; reflexivity.
Qed.

Lemma step_outcome (action : Z) (close_threshold : nat) (e : TradingEnv) :
  match step action close_threshold e with
  | Ret _ e' =>
      exists current_price next_price,
        df e !! current_step e = Some current_price
        /\ df e !! S (current_step e) = Some next_price
        /\ e' = stepped action close_threshold current_price e
  | Raise _ _ =>
      df e !! current_step e = None \/ df e !! S (current_step e) = None
  | Blocked _ => False
  end.
Proof.
  pose proof (step_final action close_threshold e) as F.
  unfold step in *.
  destruct (df e !! current_step e) as [price |]; [| left; reflexivity].
  destruct (stepped_series action close_threshold price e) as [Hdf Hstep].
  match type of F with
  | final (let '(e1, reward) := ?p in _) = _ => destruct p as [e1 reward]
  end.
  cbv zeta in F |- *. rewrite final_bind in F.
  unfold bind, _get_observation in *.
  destruct (df (advance e1) !! current_step (advance e1)) as [next |] eqn:L;
    simpl in F; rewrite F, Hdf, Hstep in L.
  - exists price, next. auto.
  - right. exact L.
Qed.

(** X22: the books of the environment.  On a series of positive prices,
    [reset()] sets them right and every [step] keeps them so: the trades
    are the wins and the losses, the balance is the initial balance plus
    the total profit, one of the two streaks is zero, and an open
    position was entered at a price of the series.  The series, the
    initial balance and the stake are never changed. *)
Theorem env_books_kept (action : Z) (close_threshold : nat) (e : TradingEnv) :
  Forall (fun p => 0 < p) (df e) ->
  env_books (final (reset e))
  /\ (env_books e -> env_books (final (step action close_threshold e)))
  /\ (let e' := final (step action close_threshold e) in
      df e' = df e
      /\ env_initial_balance e' = env_initial_balance e
      /\ stake_amount e' = stake_amount e).
Proof.
  intros _. split; [| split].
  - unfold reset. rewrite final_bind. unfold modify, _get_observation.
    cbn [TradingEnv_init df current_step].
    assert (H : env_books
                  (TradingEnv_init (df e) (env_initial_balance e)
                     (stake_amount e))).
    { unfold env_books. cbn. repeat split; auto; try lia. ring. }
    destruct (df e !! 0%nat); exact H.
  - intros (Ht & Hb & Hs & Hw & Hl & Hp). rewrite step_final.
    destruct (df e !! current_step e) as [price |] eqn:L.
    2: { repeat split; assumption. }
    unfold stepped. destruct (env_position e) as [pos |] eqn:P.
    + destruct (close_threshold <=? S (position_steps e))%nat.
      * unfold env_books. cbn.
        destruct (Qgtb _ 0); cbn; repeat split; auto; try lia;
          rewrite Hb; ring.
      * unfold env_books. cbn. rewrite P. repeat split; assumption.
    + assert (Hin : In price (df e)).
      { apply list_elem_of_In. eapply list_elem_of_lookup_2. exact L. }
      destruct (action =? 1)%Z; [| destruct (action =? 2)%Z];
        unfold env_books; cbn; rewrite ?P; repeat split; auto;
        destruct Hp; assumption.
  - cbv zeta. rewrite step_final.
    destruct (df e !! current_step e) as [price |]; [| auto].
    unfold stepped. destruct (env_position e) as [pos |].
    + destruct (close_threshold <=? S (position_steps e))%nat; repeat split.
    + destruct (action =? 1)%Z; [| destruct (action =? 2)%Z]; repeat split.
Qed.

(** X23: how long a position is held.  With the threshold drawn between
    5 and 15, a step leaves an open position open through its first
    four steps and closes it at the fifteenth at the latest; a position
    is closed from its fifth step on only, and one left open has been
    held for fewer than fifteen steps.  While a position is open the
    action is not read. *)
Theorem position_held_5_to_15 (action : Z) (close_threshold : nat)
    (e : TradingEnv) (position : ContractType) (current_price : Q) :
  (5 <= close_threshold <= 15)%nat ->
  env_position e = Some position ->
  df e !! current_step e = Some current_price ->
  let e' := final (step action close_threshold e) in
  ((position_steps e < 4)%nat -> env_position e' = Some position)
  /\ ((14 <= position_steps e)%nat -> env_position e' = None)
  /\ (env_position e' = None ->
      (4 <= position_steps e)%nat
      /\ env_total_trades e' = S (env_total_trades e))
  /\ (env_position e' = Some position ->
      position_steps e' = S (position_steps e)
      /\ (position_steps e' < 15)%nat
      /\ env_balance e' = env_balance e)
  /\ forall action', step action' close_threshold e
                     = step action close_threshold e.
Proof.
  intros Ht Hp Hl. cbv zeta. rewrite step_final, Hl. unfold stepped.
  rewrite Hp.
  destruct (Nat.leb_spec close_threshold (S (position_steps e))) as [H | H].
  - cbn. split; [intros; lia |]. split; [reflexivity |].
    split; [intros _; split; [lia | reflexivity] | ].
    split; [discriminate |].
    intros action'. unfold step. rewrite Hl, Hp. reflexivity.
  - cbn. rewrite Hp. split; [reflexivity |]. split; [intros; lia |].
    split; [discriminate |].
    split; [intros _; repeat split; lia |].
    intros action'. unfold step. rewrite Hl, Hp. reflexivity.
Qed.

(** X24: the end of the series.  A [step] returns exactly when the row
    after the current one exists, and [reset()] when there is a row; a
    step that returns has moved to the next row, whose price it observes
    in single precision beside the balance, the position, the entry
    price and the steps of the state it leaves; and it reports the
    episode done at the last row but one, or when the balance is below
    half the initial balance.  So an episode that is stepped until it is
    done never reads beyond the series, and a step after the end raises
    [IndexError]. *)
Theorem step_returns_within_series (action : Z) (close_threshold : nat)
    (e : TradingEnv) :
  ((exists r e', step action close_threshold e = Ret r e')
   <-> (S (current_step e) < length (df e))%nat)
  /\ ((exists r e', reset e = Ret r e') <-> df e <> [])
  /\ forall observation reward done info e',
       step action close_threshold e = Ret (observation, reward, done, info) e' ->
       current_step e' = S (current_step e)
       /\ df e' = df e
       /\ observation
          = (np_float32 (nth (current_step e') (df e) 0),
             np_float32 (env_balance e'),
             np_float32 match env_position e' with Some _ => 1 | None => 0 end,
             np_float32 (env_entry_price e'),
             np_float32 (inject_Z (Z.of_nat (position_steps e'))))
       /\ info_balance info = env_balance e'
       /\ (done = true
           <-> (length (df e) <= S (S (current_step e)))%nat
               \/ env_balance e' < env_initial_balance e' * (5 # 10))
       /\ (done = false ->
           forall action' close_threshold',
           exists r e'', step action' close_threshold' e' = Ret r e'').
Proof.
  assert (Hret : forall a t x,
             (S (current_step x) < length (df x))%nat ->
             exists r x', step a t x = Ret r x').
  { intros a t x H. pose proof (step_outcome a t x) as O.
    destruct (step a t x) as [r x' | ex x' | x'] eqn:E; [eauto | | contradiction].
    exfalso. destruct O as [O | O]; apply lookup_ge_None in O; lia. }
  split; [| split].
  - split; [| apply Hret].
    intros (r & e' & E). pose proof (step_outcome action close_threshold e) as O.
    rewrite E in O. destruct O as (p & n & _ & Hn & _).
    apply lookup_lt_Some in Hn. exact Hn.
  - unfold reset, bind, modify, _get_observation.
    cbn [TradingEnv_init df current_step]. destruct (df e) as [| p l].
    + split; [intros (r & e' & E); discriminate | congruence].
    + split; [discriminate | eauto].
  - intros observation reward done info e' E.
    pose proof (step_outcome action close_threshold e) as O.
    rewrite E in O. destruct O as (price & next & Hl & Hn & He').
    assert (D : df e' = df e /\ current_step e' = S (current_step e))
      by (subst e'; apply stepped_series).
    destruct D as [Hdf Hstep]. clear He'.
    unfold step in E. rewrite Hl in E.
    match type of E with
    | (let '(e1, reward) := ?p in _) = _ =>
        destruct p as [e1 r1] eqn:P
    end.
    cbv zeta in E. unfold bind, _get_observation in E.
    destruct (df (advance e1) !! current_step (advance e1)) as [nx |] eqn:L;
      [| discriminate].
    cbn [ret] in E. inversion E; subst observation reward done info e'.
    clear E. cbn [info_balance].
    change (df (advance e1)) with (df e1) in *.
    split; [exact Hstep |]. split; [exact Hdf |].
    split.
    { rewrite Hdf in L. rewrite (nth_lookup_Some _ _ 0 _ L). reflexivity. }
    split; [reflexivity |].
    assert (Hs1 : current_step e1 = current_step e)
      by (cbn in Hstep; congruence).
    split.
    + rewrite orb_true_iff, Z.leb_le, Qltb_true, Hdf, Hs1. cbn. split.
      * intros [H | H]; [left; lia | right; exact H].
      * intros [H | H]; [left; lia | right; exact H].
    + intros Hd. apply orb_false_iff in Hd. destruct Hd as [Hd _].
      apply Z.leb_gt in Hd. rewrite Hdf, Hs1 in Hd.
      intros action' close_threshold'. apply Hret. cbn. rewrite Hdf, Hs1. lia.
Qed.

End Program.

(* ================================================================== *)
(** * Part III: the theorems at work                                   *)
(* ================================================================== *)

(** C1 as stated fails twice over.  With an error reply in front of the
    awaited one, the error reply is popped and is in the queue no more;
    and with the reply arriving while two ticks are queued, the ticks
    are put back in turn and end up in the opposite order. *)
Lemma await_key_drops_and_reorders :
  (let r := await_key sample_loads "proposal" 10
              (sample_client [error_frame; proposal_frame] []) in
   r = Ret (Some proposal_frame) (final r)
   /\ popped (io (final r)) = [error_frame; proposal_frame]
   /\ _recv_queue (api (final r)) = Some [])
  /\ (let r := await_key sample_loads "proposal" 10
                 (sample_client [tick_frame 1 1; tick_frame 2 2]
                    [[Message "proposal"]]) in
      r = Ret (Some proposal_frame) (final r)
      /\ _recv_queue (api (final r)) = Some [tick_frame 2 2; tick_frame 1 1]).
Proof. vm_compute. repeat split; reflexivity. Qed.

Lemma await_key_first_match_witness :
  let c := sample_client [tick_frame 1 1; error_frame; proposal_frame;
                          tick_frame 2 2] [] in
  exists c' tail,
    await_key sample_loads "proposal" 10 c = Ret (Some proposal_frame) c'
    /\ _recv_queue (api c') = Some ([tick_frame 2 2] ++ tail)
    /\ sublist
         (List.filter (has_key "tick") [tick_frame 1 1; error_frame]) tail
    /\ (inbound c = [] ->
        tail = List.filter (has_key "tick") [tick_frame 1 1; error_frame]).
Proof.
  apply (proj2 (proj2 (await_key_first_match sample_loads "proposal" 10
                  (sample_client [tick_frame 1 1; error_frame; proposal_frame;
                                  tick_frame 2 2] [])))
           [tick_frame 1 1; error_frame] proposal_frame [tick_frame 2 2]).
  - reflexivity.
  - repeat constructor.
  - reflexivity.
  - simpl. lia.
Defined.

Lemma calculate_stake_examples :
  calculate_stake half_even (LiveTrader_init 10000 1) (4 # 10) 3
  == 110 + (1 # 2)
  /\ calculate_stake half_even (LiveTrader_init 100 1) 0 3 == 10.
Proof. split; reflexivity. Qed.

(** Where the amount is a tie, the stake is one of its two neighbours:
    with a balance of 1000.5 at 1 per cent the amount is 10.005, and the
    stake 10.00 or 10.01 as the tie goes. *)
Lemma calculate_stake_tie :
  stake_policy (1000 + (1 # 2)) (1 / 100) 0 false 0 == 10 + (5 # 1000)
  /\ calculate_stake (fun _ => false) (LiveTrader_init (1000 + (1 # 2)) 1) 0 0
     == 10
  /\ calculate_stake (fun _ => true) (LiveTrader_init (1000 + (1 # 2)) 1) 0 0
     == 10 + (1 # 100).
Proof. repeat split. Qed.

Lemma calculate_stake_policy_witness :
  let t := LiveTrader_init 10000 1 in
  let amount := stake_policy 10000 (1 / 100) (4 # 10) true 0 in
  minStake <= amount <= balance t * maxStakeFraction
  /\ rounded_to_cents amount (calculate_stake half_even t (4 # 10) 3).
Proof.
  apply (calculate_stake_policy half_even (LiveTrader_init 10000 1)
           (4 # 10) 3).
  vm_compute. discriminate.
Defined.

Lemma calculate_stake_floor_witness :
  let t := LiveTrader_init 100 1 in
  balance t * (5 # 100) < 10
  /\ calculate_stake half_even t 0 3 == 10
  /\ balance t * (5 # 100) < calculate_stake half_even t 0 3.
Proof.
  split; [simpl; lra |].
  apply (calculate_stake_floor half_even (LiveTrader_init 100 1) 0 3).
  simpl; lra.
Defined.

Lemma buy_contract_timeout_witness :
  let s := sample_session (sample_client ten_ticks []) in
  let r := tick_callback sample_loads half_even oversold_signals sample_float
             sample_number utc_time late_clock "R_75" 30 (tick_frame 100 1)
             s in
  account (self (final r)) = account (self s)
  /\ position (self (final r)) = None
  /\ last_action_time (final r) = last_action_time s
  /\ forall tick s1,
       read_tick oversold_signals sample_float sample_number utc_time
         late_clock (tick_frame 100 1) s = Ret tick s1 ->
       exists stop s', r = Ret stop s'.
Proof.
  apply (proj2 (proj2 (proj2 (proj2 (proj2
           (buy_contract_timeout sample_loads half_even oversold_signals
              sample_float sample_number utc_time late_clock "R_75" "CALL" 10
              (sample_client ten_ticks []))))))
           30 (tick_frame 100 1) (sample_session (sample_client ten_ticks []))
           eq_refl eq_refl).
  left. exists ten_ticks, []. split; [reflexivity |]. split; [reflexivity |].
  repeat constructor.
Defined.

(** C7 fails on the code.  The reply of the venue to a proposal it
    rejects has ["error"] and no ["proposal"]: the wait of phase 1 pops
    it, does not put it back and goes on waiting, so that the test for
    ["error"] in the reply is not reached.  With nothing more arriving
    [buy_contract] does not return, and the tick that placed the order
    never ends; with a tick in the queue it gives up after its 10
    attempts, as on a timeout. *)
Lemma error_reply_is_not_rejected :
  has_key "error" error_frame = true
  /\ has_key "proposal" error_frame = false
  /\ (let r := buy_contract sample_loads "R_75" "CALL" 10 15 "s"
                 (sample_client [error_frame] []) in
      r = Blocked (final r)
      /\ popped (io (final r)) = [error_frame]
      /\ requeued (io (final r)) = []
      /\ _recv_queue (api (final r)) = Some [])
  /\ (let r := tick_callback sample_loads half_even oversold_signals
                 sample_float sample_number utc_time late_clock "R_75" 30
                 (tick_frame 100 1)
                 (sample_session (sample_client [error_frame] [])) in
      r = Blocked (final r))
  /\ (let r := buy_contract sample_loads "R_75" "CALL" 10 15 "s"
                 (sample_client [error_frame; tick_frame 1 1] []) in
      r = Ret None (final r)
      /\ length (popped (io (final r))) = 10%nat
      /\ _recv_queue (api (final r)) = Some [tick_frame 1 1]).
Proof. vm_compute. repeat split; reflexivity. Qed.

(** C4 as stated fails: the frame put for a message that does not
    decode has the key ["raw"] and no ["error"] key. *)
Lemma decode_failure_is_not_error_tagged :
  sample_loads "not json" = None
  /\ _read_loop sample_loads [Message "not json"] (api (sample_client [] []))
     = (api (sample_client [{[ "raw"%string := JStr "not json" ]}] []),
        TaskPending)
  /\ has_key "error" {[ "raw"%string := JStr "not json" ]} = false.
Proof. vm_compute. repeat split; reflexivity. Qed.

Lemma read_loop_decode_and_failure_witness :
  let a := api (sample_client [] []) in
  websocket a = Some {| ws_open := true |}
  /\ _recv_queue a = Some []
  /\ snd (_read_loop sample_loads
            (map Message ["tick"; "not json"] ++ [Failure "connection lost"])
            a) = TaskDone
  /\ _recv_queue
       (fst (_read_loop sample_loads
               (map Message ["tick"; "not json"]
                ++ [Failure "connection lost"]) a))
     = Some ([] ++ map (decode sample_loads) ["tick"; "not json"]
             ++ [{[ "error"%string := JStr "connection lost" ]}]).
Proof.
  cbv zeta. split; [reflexivity |]. split; [reflexivity |].
  pose proof (read_loop_decode_and_failure sample_loads ["tick"; "not json"]
                "connection lost" [] (api (sample_client [] []))
                {| ws_open := true |} [] eq_refl eq_refl) as (_ & _ & H).
  destruct (_read_loop _ _ _) as [a' t]. exact H.
Defined.

Lemma settlement_and_balance_witness :
  exists s',
    settle sample_loads CALL 101 30 sample_open_session = Ret tt s'
    /\ total_trades (self s') = 1%nat
    /\ (0 < sign CALL * (101 - 100) ->
        balance (self s') == 10000 + (95 # 100) * 10
        /\ winning_trades (self s') = 1%nat
        /\ losing_trades (self s') = 0%nat)
    /\ (sign CALL * (101 - 100) <= 0 ->
        balance (self s') == 10000 - 10
        /\ winning_trades (self s') = 0%nat
        /\ losing_trades (self s') = 1%nat).
Proof.
  apply (proj1 (settlement_and_balance sample_loads "token" half_even
                  sample_signals
                  sample_float sample_number utc_time sample_clock)
           CALL 101 30 sample_open_session 10 (sample_signals []));
    reflexivity.
Defined.

Lemma sample_session_consistent (c : Client) : consistent (sample_session c).
Proof.
  unfold consistent. simpl. repeat split; try reflexivity; try discriminate.
  constructor.
Qed.

Lemma one_position_at_a_time_witness :
  let s := sample_session
             {| api := DerivAPI_init;
                inbound := [[Message "auth"]; [Message "tick"]];
                io := [] |} in
  consistent s
  /\ let s' := final (run sample_loads "token" half_even sample_signals
                        sample_float sample_number utc_time
                        sample_clock "R_75" 30 true false
                        (Some {| ws_open := true |}) s) in
     position_trace (stdout s') = Some (is_open s').
Proof.
  cbv zeta. split; [apply sample_session_consistent |].
  apply (proj1 (one_position_at_a_time sample_loads "token" half_even
                  sample_signals
                  sample_float sample_number utc_time sample_clock)).
  apply sample_session_consistent.
Defined.

(** C9 as stated fails: the transport fails after one tick, the reader
    pushes its sentinel and ends, the session takes the tick and the
    sentinel off the queue, and then waits on the empty queue for ever:
    [run] neither returns nor prints a final report. *)
Lemma run_blocks_without_summary :
  let s := sample_session
             {| api := DerivAPI_init;
                inbound := [[Message "auth"]; [Message "tick"];
                            [Failure "connection lost"]];
                io := [] |} in
  let r := run sample_loads "token" half_even sample_signals sample_float
             sample_number utc_time sample_clock
             "R_75" 30 true false (Some {| ws_open := true |}) s in
  r = Blocked (final r)
  /\ summaries (stdout (final r)) = O
  /\ popped (io (connection (final r)))
     = [tick_frame 100 1; {[ "error"%string := JStr "connection lost" ]}]
  /\ _recv_queue (api (connection (final r))) = Some []
  /\ _reader_task (api (connection (final r))) = Some TaskDone
  /\ inbound (connection (final r)) = [].
Proof. vm_compute. repeat split; reflexivity. Qed.

Lemma session_end_summary_witness :
  let s := sample_session
             {| api := DerivAPI_init;
                inbound := [[Message "auth"]; [Message "tick"]];
                io := [] |} in
  summaries (stdout s) = O
  /\ ~ initial_balance (self s) == 0
  /\ match guarded_session sample_loads half_even sample_signals sample_float
             sample_number utc_time
             sample_clock "R_75" 30 s with
     | Ret _ s' | Raise _ s' =>
         summaries (stdout s') = 1%nat
         /\ api (connection s') = DerivAPI_init
     | Blocked s' => summaries (stdout s') = O
     end.
Proof.
  cbv zeta. split; [reflexivity |]. split; [discriminate |].
  apply (proj1 (proj2 (proj2 (session_end_summary sample_loads "token"
                                half_even sample_signals sample_float
                                    sample_number utc_time sample_clock
                                "R_75" 30)))).
  - reflexivity.
  - discriminate.
Defined.

(** ** The scenarios of the specification, run *)

(** No position, waiting time over, RSI 25: the session orders a CALL;
    the purchase succeeds and the position is open at the price of the
    tick, with the stake the policy gives. *)
Example scenario_entry :
  let s := sample_session (sample_client [proposal_frame; buy_frame] []) in
  let r := tick_callback sample_loads half_even oversold_signals sample_float
             sample_number utc_time late_clock
             "R_75" 30 (tick_frame 100 1) s in
  r = Ret false (final r)
  /\ position (self (final r)) = Some CALL
  /\ entry_price (self (final r)) = 100
  /\ (exists stake,
        current_stake (self (final r)) = Some stake /\ stake == 130)
  /\ contract_id (self (final r)) = Some (JNum 7)
  /\ position_trace (stdout (final r)) = Some true
  /\ length (sent (io (connection (final r)))) = 2%nat.
Proof.
  vm_compute. repeat split; try reflexivity.
  eexists. split; reflexivity.
Qed.

(** A CALL entered at 100 with a stake of 10, held for 30 seconds, the
    price now 99: the trade settles as a loss, the stake is lost, the
    position is cleared. *)
Example scenario_loss :
  let r := tick_callback sample_loads half_even sample_signals sample_float
             sample_number utc_time sample_clock
             "R_75" 30 (tick_frame 99 30) sample_open_session in
  r = Ret false (final r)
  /\ position (self (final r)) = None
  /\ balance (self (final r)) == 9990
  /\ total_trades (self (final r)) = 1%nat
  /\ losing_trades (self (final r)) = 1%nat
  /\ consecutive_losses (self (final r)) = 1%nat
  /\ map tr_won (history_file (self (final r))) = [false].
Proof. vm_compute. repeat split; reflexivity. Qed.

(** A reply that has both ["proposal"] and ["error"], the one case in
    which the test for an error in the reply is reached: the order
    fails, nothing but the proposal request has been sent, and the
    trader is as before but for its price window. *)
Example scenario_rejected :
  let s := sample_session (sample_client [rejected_frame] []) in
  let r := tick_callback sample_loads half_even oversold_signals sample_float
             sample_number utc_time late_clock
             "R_75" 30 (tick_frame 100 1) s in
  r = Ret false (final r)
  /\ same_books s (final r)
  /\ length (sent (io (connection (final r)))) = 1%nat
  /\ last (stdout (final r)) = Some PrintBuyFailed.
Proof. vm_compute. repeat split; reflexivity. Qed.

(** ** The session with the indicators of [indicators.py] *)

(** The signals the session computes from its window are the entries
    of the dict that [get_signals] returns for the price of the tick. *)
Lemma indicator_signals_get_signals (np_sqrt : Q -> Q) (price : Q)
    (prices : list Q) :
  indicator_signals np_sqrt (add_price price prices)
  = read_signals (fst (TechnicalIndicators_get_signals np_sqrt price prices)).
Proof.
  unfold indicator_signals, TechnicalIndicators_get_signals. cbn [fst].
  rewrite add_price_last. reflexivity.
Qed.

(** X25: a session whose signals are those of [indicators.py] orders
    nothing on its first 14 ticks: the RSI of a window of 14 prices or
    fewer is 50, so that the tick only adds its price to the window. *)
Theorem no_order_while_warming_up (json_loads : string -> option Frame)
    (tie_rounds_up : Z -> bool) (np_sqrt : Q -> Q)
    (parse_float : string -> option Q) (float_of_number local_time : Q ->
        option Q)
    (clock : nat -> Q)
    (symbol : string) (duration_minutes : Q) (response : Frame) (s : Session)
    (price time : Q) :
  tick_fields parse_float float_of_number local_time response = Some (price,
      time) ->
  position (self s) = None ->
  (length (indicators (self s)) < 14)%nat ->
  let d := fst (TechnicalIndicators_get_signals np_sqrt price
                  (indicators (self s))) in
  indicator_signals np_sqrt (add_price price (indicators (self s)))
  = read_signals d
  /\ d_rsi d = 50
  /\ exists stop s',
       tick_callback json_loads tie_rounds_up (indicator_signals np_sqrt)
           parse_float float_of_number local_time clock
         symbol duration_minutes response s = Ret stop s'
       /\ connection s' = connection s
       /\ same_books s s'
       /\ position_trace (stdout s') = position_trace (stdout s)
       /\ self s' = set_indicators (add_price price (indicators (self s)))
                      (self s).
Proof.
  intros Hf Hp Hlen. cbv zeta.
  assert (Hrsi : d_rsi (fst (TechnicalIndicators_get_signals np_sqrt price
                               (indicators (self s)))) = 50).
  { unfold TechnicalIndicators_get_signals, signals_dict. cbn [fst].
    destruct (calculate_macd _ 12 26 9) as [[? ?] ?],
      (calculate_bollinger_bands np_sqrt _ 20 2) as [[? ?] ?]. cbn [d_rsi].
    unfold calculate_rsi. rewrite add_price_length.
    destruct (Nat.ltb_spec (Nat.min (S (length (indicators (self s)))) 50)
                (14 + 1)) as [_ | H]; [reflexivity | lia]. }
  split; [apply indicator_signals_get_signals |]. split; [exact Hrsi |].
  destruct (tick_orders_nothing json_loads tie_rounds_up (indicator_signals
              np_sqrt)
              parse_float float_of_number local_time clock symbol
                  duration_minutes response s price time
              Hf Hp) as (stop & s' & E & Hc & Hb & Ht & _ & Hs).
  { right. rewrite indicator_signals_get_signals. cbn [rsi read_signals].
    rewrite Hrsi. split; lra. }
  exists stop, s'. auto.
Qed.

(** X26: a session whose signals are those of [indicators.py] sells on a
    market that does not fall.  When none of the last 15 prices, that of
    the tick included, is below the one before, as on a flat market, the
    RSI is 100; with no position open, the waiting time over, the
    transport open and a queue, the tick then sends the proposal request
    for a PUT.  The prices are positive, as the division of
    [calculate_volatility] wants them. *)
Theorem market_without_drop_orders_put (json_loads : string -> option Frame)
    (tie_rounds_up : Z -> bool) (np_sqrt : Q -> Q)
    (parse_float : string -> option Q) (float_of_number local_time : Q ->
        option Q)
    (clock : nat -> Q)
    (symbol : string) (duration_minutes : Q) (response : Frame) (s : Session)
    (price time : Q) (ws : WebSocket) (q : list Frame) :
  tick_fields parse_float float_of_number local_time response = Some (price,
      time) ->
  position (self s) = None ->
  websocket (api (connection s)) = Some ws -> ws_open ws = true ->
  _recv_queue (api (connection s)) = Some q ->
  25 < clock (clock_reads s + status_reads s)%nat - last_action_time s ->
  (14 <= length (indicators (self s)))%nat ->
  let prices := add_price price (indicators (self s)) in
  Forall (fun d => 0 <= d) (np_diff (py_last 15 prices)) ->
  Forall (fun p => 0 < p) prices ->
  let signals := indicator_signals np_sqrt prices in
  let s' := final (tick_callback json_loads tie_rounds_up (indicator_signals
                     np_sqrt)
                     parse_float float_of_number local_time clock symbol
                         duration_minutes response s) in
  rsi signals = 100
  /\ exists ops,
       io (connection s')
       = io (connection s)
         ++ Send (proposal_request symbol "PUT"
                    (calculate_stake tie_rounds_up (self s) (volatility
                        signals) 3) 15 "s")
            :: ops.
Proof.
  intros Hf Hp Hw Ho Hq Ht Hlen. cbv zeta. intros Hup _.
  set (prices := add_price price (indicators (self s))) in *.
  assert (Hrsi : rsi (indicator_signals np_sqrt prices) = 100).
  { unfold indicator_signals, signals_dict.
    destruct (calculate_macd _ 12 26 9) as [[? ?] ?],
      (calculate_bollinger_bands np_sqrt _ 20 2) as [[? ?] ?].
    cbn [rsi read_signals d_rsi].
    apply calculate_rsi_no_drop; [lia | | exact Hup].
    unfold prices. rewrite add_price_length. lia. }
  split; [exact Hrsi |].
  pose proof (tick_orders json_loads tie_rounds_up (indicator_signals np_sqrt)
                parse_float
                float_of_number local_time clock symbol duration_minutes
                    response s price time ws q
                Hf Hp Hw Ho Hq) as T.
  cbv zeta in T. fold prices in T. rewrite Hrsi in T.
  destruct (T Ht) as [Hops _]; [right; lra |].
  exact Hops.
Qed.

(** ** The further theorems at concrete inputs *)

Lemma sample_sqrt_nonneg (x : Q) : 0 <= sample_sqrt x.
Proof.
  unfold sample_sqrt. apply Qle_shift_div_l; [reflexivity |].
  rewrite Qmult_0_l. change 0 with (inject_Z 0). rewrite <- Zle_Qle.
  apply Z.sqrt_nonneg.
Qed.

Lemma calculate_rsi_range_witness :
  0 <= calculate_rsi sample_prices 2 <= 100
  /\ ((length sample_prices <= 2)%nat -> calculate_rsi sample_prices 2 = 50).
Proof. apply (calculate_rsi_range sample_prices 2). lia. Defined.

Lemma calculate_rsi_extremes_witness : calculate_rsi rising_prices 3 = 100.
Proof.
  apply (calculate_rsi_extremes rising_prices 3); [lia | simpl; lia |].
  vm_compute. repeat constructor; discriminate.
Defined.

Lemma calculate_ema_bounds_witness :
  100 <= _calculate_ema sample_prices 2 <= 105.
Proof.
  apply (calculate_ema_bounds sample_prices 2 100 105);
    [lia | discriminate |].
  unfold sample_prices. repeat constructor; discriminate.
Defined.

Lemma calculate_macd_bounds_witness :
  let '(macd_line, signal_line, histogram) :=
    calculate_macd sample_prices 2 3 9 in
  signal_line = 0
  /\ histogram == macd_line
  /\ ((length sample_prices < 3)%nat -> macd_line = 0 /\ histogram = 0)
  /\ ((3 <= length sample_prices)%nat ->
      macd_line = _calculate_ema sample_prices 2 - _calculate_ema sample_prices
          3
      /\ - (105 - 100) <= histogram <= 105 - 100).
Proof.
  apply (calculate_macd_bounds sample_prices 2 3 9 100 105); [lia | lia |].
  unfold sample_prices. repeat constructor; discriminate.
Defined.

Lemma calculate_bollinger_bands_order_witness :
  let '(middle_band, upper_band, lower_band) :=
    calculate_bollinger_bands sample_sqrt sample_prices 3 2 in
  lower_band <= middle_band <= upper_band
  /\ upper_band - middle_band == middle_band - lower_band
  /\ ((length sample_prices < 3)%nat ->
      middle_band = List.last sample_prices 0
      /\ upper_band = middle_band /\ lower_band = middle_band)
  /\ ((3 <= length sample_prices)%nat ->
      middle_band = np_mean (py_last 3 sample_prices)).
Proof.
  apply (calculate_bollinger_bands_order sample_sqrt sample_prices 3 2).
  - exact sample_sqrt_nonneg.
  - discriminate.
Defined.

Lemma authorize_outcome_witness :
  let c := connected_client [[Message "auth"]] in
  (forall msg c', authorize sample_loads "token" c <> Raise (Exception msg) c')
  /\ authorize sample_loads "token" c
     = Ret true {| api := {| websocket := Some {| ws_open := true |};
                             authorized := true;
                             _recv_queue := Some [];
                             events := Some GenCreated;
                             _reader_task := Some TaskPending |};
                   inbound := [[]];
                   io := [Send {[ "authorize"%string := JStr "token" ]}] |}.
Proof.
  cbv zeta.
  split; [| reflexivity].
  apply (authorize_outcome sample_loads "token"
           (connected_client [[Message "auth"]])).
  reflexivity.
Defined.

Lemma get_next_tick_takes_head_witness :
  let c := sample_client [pong_frame; tick_frame 100 1] [] in
  exists result,
    get_next_tick sample_loads c
    = Ret result {| api := set_recv_queue (Some [tick_frame 100 1]) (api c);
                    inbound := []; io := [Get pong_frame] |}
    /\ result = Some {[ "raw"%string := JDict pong_frame ]}.
Proof.
  apply (get_next_tick_takes_head sample_loads
           (sample_client [pong_frame; tick_frame 100 1] [])
           pong_frame [tick_frame 100 1]).
  reflexivity.
Defined.

Lemma get_ticks_takes_five_witness :
  let q := [tick_frame 100 1; pong_frame; tick_frame 101 2; tick_frame 102 3;
            tick_frame 103 4; tick_frame 104 5] in
  let s := sample_console (sample_client q []) in
  exists s' arrived,
    get_ticks sample_loads "R_75" s = Ret tt s'
    /\ io (client s')
       = Send (<[ "ticks"%string := JStr "R_75" ]>
               {[ "subscribe"%string := JNum 1 ]})
         :: map Get (firstn 5 q)
    /\ _recv_queue (api (client s')) = Some ([tick_frame 104 5] ++ arrived)
    /\ lines s' = [TickLine 1 (JNum 100) (JNum 1); TickLine 3 (JNum 101) (JNum
                   2);
                   TickLine 4 (JNum 102) (JNum 3); TickLine 5 (JNum 103) (JNum
                       4)].
Proof.
  apply (get_ticks_takes_five sample_loads "R_75"
           (sample_console
              (sample_client
                 [tick_frame 100 1; pong_frame; tick_frame 101 2;
                  tick_frame 102 3; tick_frame 103 4; tick_frame 104 5] []))
           {| ws_open := true |}
           [tick_frame 100 1; pong_frame; tick_frame 101 2; tick_frame 102 3;
            tick_frame 103 4; tick_frame 104 5]).
  - reflexivity.
  - reflexivity.
  - reflexivity.
  - simpl. lia.
  - repeat constructor.
Defined.

Lemma no_order_without_signal_witness :
  let s := sample_session (sample_client [] []) in
  exists stop s',
    tick_callback sample_loads half_even sample_signals sample_float
        sample_number utc_time late_clock
      "R_75" 30 (tick_frame 100 1) s = Ret stop s'
    /\ connection s' = connection s
    /\ same_books s s'
    /\ position_trace (stdout s') = position_trace (stdout s)
    /\ tick_count s' = 1%nat
    /\ self s' = set_indicators [100] (self s).
Proof.
  apply (no_order_without_signal sample_loads half_even sample_signals
           sample_float sample_number utc_time
           late_clock "R_75" 30 (tick_frame 100 1)
           (sample_session (sample_client [] [])) 100 1).
  - reflexivity.
  - reflexivity.
  - right. simpl. split; discriminate.
Defined.


Lemma order_follows_rsi_witness :
  let s := sample_session (sample_client [proposal_frame; buy_frame] []) in
  let s' := final (tick_callback sample_loads half_even oversold_signals
                     sample_float sample_number utc_time
                     late_clock "R_75" 30 (tick_frame 100 1) s) in
  (exists ops,
     io (connection s')
     = Send (proposal_request "R_75" "CALL"
               (calculate_stake half_even (self s) 0 3) 15 "s") :: ops)
  /\ (same_books s s'
           \/ exists id,
           self s' = open_position CALL 100 1 id (calculate_stake half_even
                       (self s) 0 3)
                       (oversold_signals [100])
                       (set_indicators [100] (self s))).
Proof.
  apply (order_follows_rsi sample_loads half_even oversold_signals sample_float
           sample_number utc_time
           late_clock "R_75" 30 (tick_frame 100 1)
           (sample_session (sample_client [proposal_frame; buy_frame] []))
           100 1 {| ws_open := true |} [proposal_frame; buy_frame]).
  - reflexivity.
  - reflexivity.
  - reflexivity.
  - reflexivity.
  - reflexivity.
  - reflexivity.
  - left. reflexivity.
Defined.

Lemma tick_callback_raises_on_unreadable_ticks_witness :
  let s := sample_session (sample_client [] []) in
  ((exists e s',
          tick_callback sample_loads half_even sample_signals sample_float
          sample_number utc_time sample_clock
        "R_75" 30 broken_tick s = Raise e s')
   <-> has_key "tick" broken_tick = true
       /\ tick_fields sample_float sample_number utc_time broken_tick = None)
  /\ (has_key "tick" broken_tick = true ->
      tick_fields sample_float sample_number utc_time broken_tick = None ->
      exists msg,
        tick_callback sample_loads half_even sample_signals sample_float
            sample_number utc_time sample_clock
          "R_75" 30 broken_tick s
        = Raise (Exception msg) (set_tick_count 1 s)).
Proof.
  apply (tick_callback_raises_on_unreadable_ticks sample_loads half_even
           sample_signals
           sample_float sample_number utc_time sample_clock "R_75" 30
               broken_tick
           (sample_session (sample_client [] []))).
  - apply sample_session_consistent.
  - intros H. discriminate H.
Defined.

Lemma sample_session_tallied (c : Client) : tallied (sample_session c).
Proof. repeat split. Qed.

Lemma counters_match_ledger_witness :
  let s := sample_session
             {| api := DerivAPI_init;
                inbound := [[Message "auth"]; [Message "tick"]];
                io := [] |} in
  let t := self (final (run sample_loads "token" half_even sample_signals
                          sample_float sample_number utc_time
                          sample_clock "R_75" 30 true false
                          (Some {| ws_open := true |}) s)) in
  winning_trades t = length (List.filter tr_won (history_file t))
  /\ losing_trades t
     = length (List.filter (fun r => negb (tr_won r)) (history_file t))
  /\ consecutive_losses t = streak (history_file t).
Proof.
  apply (proj1 (counters_match_ledger sample_loads "token" half_even
                  sample_signals
                  sample_float sample_number utc_time sample_clock
                  (sample_session
                     {| api := DerivAPI_init;
                        inbound := [[Message "auth"]; [Message "tick"]];
                        io := [] |})
                  (sample_session_consistent _) (sample_session_tallied _))).
Defined.

Lemma run_closes_when_not_authorized_witness :
  let s := sample_session
             {| api := DerivAPI_init; inbound := [[Message "not json"]];
                io := [] |} in
  exists s',
    run sample_loads "token" half_even sample_signals sample_float
        sample_number utc_time sample_clock
      "R_75" 30 true false (Some {| ws_open := true |}) s = Ret tt s'
    /\ api (connection s') = DerivAPI_init
    /\ (exists ops,
          io (connection s')
          = [Send {[ "authorize"%string := JStr "token" ]}] ++ ops
          /\ sent ops = [] /\ In CloseSocket ops)
    /\ summaries (stdout s') = O
    /\ self s' = set_notifier false (self s).
Proof.
  apply (run_closes_when_not_authorized sample_loads "token" half_even
           sample_signals
           sample_float sample_number utc_time sample_clock "R_75" 30 false {|
               ws_open := true |}
           (sample_session
              {| api := DerivAPI_init; inbound := [[Message "not json"]];
                 io := [] |})
           {| api := set_websocket (Some {| ws_open := true |}) DerivAPI_init;
              inbound := [[]];
              io := [Send {[ "authorize"%string := JStr "token" ]}] |}).
  reflexivity.
Defined.

Lemma env_books_kept_witness :
  env_books (final (reset sample_float32 sample_env_open))
  /\ (env_books sample_env_open ->
      env_books (final (step sample_float32 0 5 sample_env_open)))
  /\ (let e' := final (step sample_float32 0 5 sample_env_open) in
      df e' = df sample_env_open
      /\ env_initial_balance e' = env_initial_balance sample_env_open
      /\ stake_amount e' = stake_amount sample_env_open).
Proof.
  apply (env_books_kept sample_float32 0 5 sample_env_open).
  repeat first [apply List.Forall_nil | apply List.Forall_cons | reflexivity].
Defined.

Lemma position_held_5_to_15_witness :
  let e' := final (step sample_float32 0 5 sample_env_open) in
  env_position e' = Some CALL
  /\ position_steps e' = 1%nat
  /\ env_balance e' = env_balance sample_env_open.
Proof.
  cbv zeta.
  pose proof (position_held_5_to_15 sample_float32 0 5 sample_env_open CALL 100
                ltac:(lia) eq_refl eq_refl) as (Hheld & _ & _ & Hopen & _).
  cbv zeta in Hheld, Hopen.
  split; [apply Hheld; simpl; lia |].
  destruct (Hopen (Hheld ltac:(simpl; lia))) as (Hs & _ & Hb).
  split; [exact Hs | exact Hb].
Defined.

Lemma no_order_while_warming_up_witness :
  let s := sample_session (sample_client [] []) in
  exists stop s',
    tick_callback sample_loads half_even (indicator_signals sample_sqrt)
      sample_float sample_number utc_time late_clock "R_75" 30
      (tick_frame 100 1) s = Ret stop s'
    /\ connection s' = connection s
    /\ same_books s s'
    /\ position_trace (stdout s') = position_trace (stdout s)
    /\ self s' = set_indicators [100] (self s).
Proof.
  apply (proj2 (proj2 (no_order_while_warming_up sample_loads half_even
                         sample_sqrt sample_float sample_number utc_time
                         late_clock "R_75" 30 (tick_frame 100 1)
                         (sample_session (sample_client [] [])) 100 1
                         eq_refl eq_refl ltac:(simpl; lia)))).
Defined.

Lemma market_without_drop_orders_put_witness :
  let s := flat_session (sample_client [proposal_frame; buy_frame] []) in
  let signals := indicator_signals sample_sqrt (flat_prices ++ [100]) in
  let s' := final (tick_callback sample_loads half_even
                     (indicator_signals sample_sqrt) sample_float
                     sample_number utc_time late_clock "R_75" 30
                     (tick_frame 100 15) s) in
  rsi signals = 100
  /\ exists ops,
       io (connection s')
       = Send (proposal_request "R_75" "PUT"
                 (calculate_stake half_even (self s) (volatility signals) 3)
                 15 "s")
         :: ops.
Proof.
  apply (market_without_drop_orders_put sample_loads half_even sample_sqrt
           sample_float sample_number utc_time late_clock "R_75" 30
           (tick_frame 100 15)
           (flat_session (sample_client [proposal_frame; buy_frame] []))
           100 15 {| ws_open := true |} [proposal_frame; buy_frame]).
  - reflexivity.
  - reflexivity.
  - reflexivity.
  - reflexivity.
  - reflexivity.
  - reflexivity.
  - simpl. lia.
  - vm_compute. repeat constructor; discriminate.
  - vm_compute.
    repeat first [apply List.Forall_nil | apply List.Forall_cons | reflexivity].
Defined.
